(** * dda-tech-demo: the grid ray cast of [Game::DigitalDifferentialAnalysis]

    A shallow embedding of [include/Game.hpp], [include/Constants.hpp] and
    the ray cast of [src/Game.cpp], with the properties of the
    natural-language specification stated over it.

    Modelling choices.
    - [float] is IEEE-754 binary32 (24-bit significand, round to nearest
      even), taken from the Standard Library's [SpecFloat]; every
      arithmetic step of the C++ text is one rounded operation, in the
      order the source writes it (no fused multiply-add).
    - [int] is modelled in [Z]; the casts that pass the two bounds guards
      only ever compute with small numbers, so no [int] operation of the
      routine overflows.  [/] and [%] on [int] truncate toward zero
      ([Z.quot], [Z.rem]); the first [%] of the routine is undefined
      when [cell_size_] is 0 ([int_rem]).  The sums of [Tick] have no
      such bound and are taken on 32 bits ([int_add]).
    - The conversion of a [float] to [int] truncates toward zero.  When the
      value is a NaN, an infinity or out of the range of [int] the C++
      standard leaves the behaviour undefined; the model takes the policy
      as a parameter: [IsoCpp] reports [Undefined], [Indefinite v] yields
      the fixed integer [v] (x86-64 SSE yields [INT_MIN]).
    - [board_] is a list indexed with stdpp's lookup and insert; the code
      guards every access with [0 <= index < size].
    - The traversal loop takes fuel; [DigitalDifferentialAnalysis] gives it
      [traversal_fuel] passes, and with the constructor's cell size the
      loop never needs more ([cast_ends]). *)

From Stdlib Require Import ZArith Bool Lia.
From Stdlib Require Import Floats.SpecFloat.
From stdpp Require Import base list.

Local Open Scope Z_scope.

(** ** Constants.hpp *)

Module constants.
Definition screen_width : Z := 960.
Definition screen_height : Z := 640.
End constants.

(** ** binary32 arithmetic *)

Module F32.
Definition prec : Z := 24.
Definition emax : Z := 128.

Definition float := spec_float.

Definition add : float -> float -> float := SFadd prec emax.
Definition sub : float -> float -> float := SFsub prec emax.
Definition mul : float -> float -> float := SFmul prec emax.
Definition div : float -> float -> float := SFdiv prec emax.
Definition sqrt : float -> float := SFsqrt prec emax.
Definition ltb : float -> float -> bool := SFltb.
Definition eqb : float -> float -> bool := SFeqb.

(** [a > b] is [b < a]; [a != b] is the negation of [a == b]. *)
Definition gtb (a b : float) : bool := ltb b a.
Definition neqb (a b : float) : bool := negb (eqb a b).

(** [static_cast<float>(n)] for an [int] n. *)
Definition of_int (n : Z) : float := binary_normalize prec emax n 0 false.

(** Truncation toward zero; [None] when the value is a NaN, an infinity
    or outside the range of a 32-bit [int]. *)
Definition trunc (a : float) : option Z :=
  match a with
  | S754_zero _ => Some 0
  | S754_finite s m e =>
      let z := cond_Zopp s (Z.shiftl (Zpos m) e) in
      if (-2147483648 <=? z) && (z <=? 2147483647) then Some z else None
  | _ => None
  end.
End F32.

Abbreviation float := F32.float.

(** ** Outcomes of a run *)

Inductive result (A : Type) : Type :=
  | Ok (a : A)
  | Undefined
  | OutOfFuel.
Arguments Ok {A} a.
Arguments Undefined {A}.
Arguments OutOfFuel {A}.

Definition bind {A B : Type} (r : result A) (k : A -> result B) : result B :=
  match r with
  | Ok a => k a
  | Undefined => Undefined
  | OutOfFuel => OutOfFuel
  end.

Notation "'let*' x ':=' r 'in' k" := (bind r (fun x => k))
  (at level 10, x name, r at level 100, k at level 200).

(** What a [float] to [int] conversion does on a value that has no [int]:
    undefined behaviour by the rules of the language ([IsoCpp]), or the
    fixed integer [v] of a machine ([Indefinite v]).  On that machine a
    sum of two [int]s that leaves the range of [int] wraps around
    ([int_add], in [Tick]). *)
Inductive conversion : Type :=
  | IsoCpp
  | Indefinite (v : Z).

Definition x86_64 : conversion := Indefinite (-2147483648).

Definition to_int (cv : conversion) (a : float) : result Z :=
  match F32.trunc a with
  | Some z => Ok z
  | None => match cv with IsoCpp => Undefined | Indefinite v => Ok v end
  end.

(** ** Game.hpp *)

Module SDL_Rect.
Record t : Type := mk { x : Z; y : Z; w : Z; h : Z }.
End SDL_Rect.

Module SDL_Point.
Record t : Type := mk { x : Z; y : Z }.
End SDL_Point.

Module SDL_FPoint.
Record t : Type := mk { x : float; y : float }.
End SDL_FPoint.

Record Cell : Type := mkCell {
  rect_ : SDL_Rect.t;
  is_wall_ : bool;
  highlighted_ : bool
}.

Record PlayerBox : Type := mkPlayerBox {
  box_ : SDL_Rect.t;
  vx_ : Z;
  vy_ : Z
}.

Module Vector2d.
Record t (T : Type) : Type := mk { x : T; y : T }.
Arguments mk {T} x y.
Arguments x {T} _.
Arguments y {T} _.

(** The three member functions, at [T = float]. *)
Definition GetLength (v : t float) : float :=
  F32.sqrt (F32.add (F32.mul (x v) (x v)) (F32.mul (y v) (y v))).

Definition Normalize (v : t float) : t float :=
  let length := GetLength v in
  mk (F32.div (x v) length) (F32.div (y v) length).

Definition SetLength (v : t float) (length : float) : t float :=
  let n := Normalize v in
  mk (F32.mul (x n) length) (F32.mul (y n) length).
End Vector2d.

Abbreviation Vector2d := Vector2d.t.

Record Game : Type := mkGame {
  initialized_ : bool;
  running_ : bool;
  cell_size_ : Z;
  cells_width_ : Z;
  cells_height_ : Z;
  mouse_left_pressed_ : bool;
  mouse_right_pressed_ : bool;
  setting_walls_ : bool;
  render_line_ : bool;
  board_ : list Cell;
  player_ : PlayerBox;
  mouse_box_ : SDL_Rect.t;
  mouse_position_ : SDL_Point.t;
  dda_intersection_ : SDL_FPoint.t
}.

(** ** Game.cpp: the constructor *)

Definition minus_one : float := F32.of_int (-1).

Definition no_intersection : SDL_FPoint.t := SDL_FPoint.mk minus_one minus_one.

(** The cell the constructor stores at [index = y * cells_width_ + x]. *)
Definition fresh_cell (cell_size cells_width : Z) (index : nat) : Cell :=
  let i := Z.of_nat index in
  mkCell (SDL_Rect.mk ((i mod cells_width) * cell_size) ((i / cells_width) * cell_size)
            cell_size cell_size)
         false false.

Definition fresh_board (cell_size cells_width cells_height : Z) : list Cell :=
  map (fresh_cell cell_size cells_width) (seq 0 (Z.to_nat (cells_width * cells_height))).

Definition box_size : Z := 10.

Definition Game_new (initialized : bool) : Game :=
  let cell_size := 32 in
  let cells_width := Z.quot constants.screen_width cell_size in
  let cells_height := Z.quot constants.screen_height cell_size in
  mkGame initialized false cell_size cells_width cells_height
    false false true false
    (fresh_board cell_size cells_width cells_height)
    (mkPlayerBox
       (SDL_Rect.mk (Z.quot (constants.screen_width * 1) 3 - Z.quot box_size 2)
                    (Z.quot constants.screen_height 2 - Z.quot box_size 2)
                    box_size box_size) 0 0)
    (SDL_Rect.mk (Z.quot (constants.screen_width * 2) 3 - Z.quot box_size 2)
                 (Z.quot constants.screen_height 2 - Z.quot box_size 2)
                 box_size box_size)
    (SDL_Point.mk 0 0)
    no_intersection.

(** ** Game.cpp: [DigitalDifferentialAnalysis] *)

(** The values the routine fixes before the loop and never changes. *)
Record Ray : Type := mkRay {
  ray_start : Vector2d float;
  ray_dir : Vector2d float;
  unit_ray_dir : Vector2d float;
  ray_step_size : Vector2d float;
  step : Vector2d Z
}.

(** The variables the loop updates. *)
Record Traversal : Type := mkTraversal {
  map_check : Vector2d Z;
  ray_length : Vector2d float;
  distance : float;
  tile_found : bool
}.

Definition player_pos (g : Game) : Vector2d float :=
  let b := box_ (player_ g) in
  Vector2d.mk (F32.of_int (SDL_Rect.x b + Z.quot (SDL_Rect.w b) 2))
              (F32.of_int (SDL_Rect.y b + Z.quot (SDL_Rect.h b) 2)).

Definition mouse_pos (g : Game) : Vector2d float :=
  let b := mouse_box_ g in
  Vector2d.mk (F32.of_int (SDL_Rect.x b + Z.quot (SDL_Rect.w b) 2))
              (F32.of_int (SDL_Rect.y b + Z.quot (SDL_Rect.h b) 2)).

(** The test of the two guards: the point lies outside
    [0, screen_width] x [0, screen_height]. *)
Definition out_of_world (p : Vector2d float) : bool :=
  F32.ltb (Vector2d.x p) (F32.of_int 0)
  || F32.gtb (Vector2d.x p) (F32.of_int constants.screen_width)
  || F32.ltb (Vector2d.y p) (F32.of_int 0)
  || F32.gtb (Vector2d.y p) (F32.of_int constants.screen_height).

Definition direction (g : Game) : Vector2d float :=
  Vector2d.mk (F32.sub (Vector2d.x (mouse_pos g)) (Vector2d.x (player_pos g)))
              (F32.sub (Vector2d.y (mouse_pos g)) (Vector2d.y (player_pos g))).

(** [sqrt(1 + (a / b) * (a / b))] *)
Definition slope_length (a b : float) : float :=
  F32.sqrt (F32.add (F32.of_int 1) (F32.mul (F32.div a b) (F32.div a b))).

Definition compute_ray_step_size (cell_size : Z) (rd : Vector2d float) : Vector2d float :=
  Vector2d.mk
    (F32.mul (slope_length (Vector2d.y rd) (Vector2d.x rd)) (F32.of_int cell_size))
    (F32.mul (slope_length (Vector2d.x rd) (Vector2d.y rd)) (F32.of_int cell_size)).

(** One axis of the two [if (ray_dir.x < 0) ... else ...] blocks: the step
    of the axis and the first value of its accumulator.  [start] is the
    coordinate of [ray_start], [start_i] its [static_cast<int>], [cell]
    the coordinate of the cell corner [map_check] holds at that point. *)
Definition axis_setup (cell_size : Z) (dir start : float) (start_i cell : Z)
    (step_size : float) : Z * float :=
  if F32.ltb dir (F32.of_int 0) then
    (- cell_size,
     if Z.rem start_i cell_size =? 0 then step_size
     else F32.mul (F32.div (F32.sub start (F32.of_int cell)) (F32.of_int cell_size)) step_size)
  else
    (cell_size,
     F32.mul (F32.div (F32.sub (F32.of_int (cell + cell_size)) start) (F32.of_int cell_size))
             step_size).

(** The [if (ray_length.x < ray_length.y) ... else ...] block before the
    loop, for [map_check.x]: both branches store the truncated
    [x_intersection.x] and take one cell off when [ray_dir.x > 0]. *)
Definition initial_map_x (cv : conversion) (cell_size : Z) (dir_x : float)
    (x_intersection_x : float) : result Z :=
  let* crossed := to_int cv x_intersection_x in
  Ok (if F32.gtb dir_x (F32.of_int 0) then crossed - cell_size else crossed).

(** The same block, for [map_check.y]. *)
Definition initial_map_y (cv : conversion) (cell_size : Z) (length_x length_y dir_y : float)
    (start_iy cell_y : Z) (y_intersection_y : float) : result Z :=
  if F32.ltb length_x length_y then
    Ok (if (Z.rem start_iy cell_size =? 0) && F32.ltb dir_y (F32.of_int 0)
        then cell_y - cell_size else cell_y)
  else
    if F32.ltb dir_y (F32.of_int 0) then to_int cv y_intersection_y else Ok cell_y.

(** [a % b] on [int]; a remainder by zero is undefined behaviour. *)
Definition int_rem (a b : Z) : result Z :=
  if b =? 0 then Undefined else Ok (Z.rem a b).

(** Everything up to the loop, past the two guards. *)
Definition setup (cv : conversion) (g : Game) : result (Ray * Traversal) :=
  let cell_size := cell_size_ g in
  let start := player_pos g in
  let rd := Vector2d.SetLength (direction g) (F32.of_int cell_size) in
  let unit := Vector2d.SetLength (direction g) (F32.of_int 1) in
  let step_size := compute_ray_step_size cell_size rd in
  let* start_ix := to_int cv (Vector2d.x start) in
  let* start_iy := to_int cv (Vector2d.y start) in
  let* rem_x := int_rem start_ix cell_size in
  let* rem_y := int_rem start_iy cell_size in
  let cell_x := start_ix - rem_x in
  let cell_y := start_iy - rem_y in
  let axis_x :=
    axis_setup cell_size (Vector2d.x rd) (Vector2d.x start) start_ix cell_x
               (Vector2d.x step_size) in
  let axis_y :=
    axis_setup cell_size (Vector2d.y rd) (Vector2d.y start) start_iy cell_y
               (Vector2d.y step_size) in
  let length := Vector2d.mk (snd axis_x) (snd axis_y) in
  let x_intersection :=
    SDL_FPoint.mk
      (F32.add (Vector2d.x start) (F32.mul (Vector2d.x unit) (Vector2d.x length)))
      (F32.add (Vector2d.y start) (F32.mul (Vector2d.y unit) (Vector2d.x length))) in
  let y_intersection :=
    SDL_FPoint.mk
      (F32.add (Vector2d.x start) (F32.mul (Vector2d.x unit) (Vector2d.y length)))
      (F32.add (Vector2d.y start) (F32.mul (Vector2d.y unit) (Vector2d.y length))) in
  let* map_x := initial_map_x cv cell_size (Vector2d.x rd) (SDL_FPoint.x x_intersection) in
  let* map_y :=
    initial_map_y cv cell_size (Vector2d.x length) (Vector2d.y length) (Vector2d.y rd)
                  start_iy cell_y (SDL_FPoint.y y_intersection) in
  Ok (mkRay start rd unit step_size (Vector2d.mk (fst axis_x) (fst axis_y)),
      mkTraversal (Vector2d.mk map_x map_y) length (F32.of_int 0) false).

Definition max_distance : float :=
  F32.mul (F32.of_int (Z.max constants.screen_width constants.screen_height))
          (F32.of_int 10).

(** The first statement of the loop body: the [if]/[else] on the two
    accumulators. *)
Definition advance (r : Ray) (t : Traversal) : Traversal :=
  let m := map_check t in
  let l := ray_length t in
  if F32.ltb (Vector2d.x l) (Vector2d.y l) then
    mkTraversal (Vector2d.mk (Vector2d.x m + Vector2d.x (step r)) (Vector2d.y m))
                (Vector2d.mk (F32.add (Vector2d.x l) (Vector2d.x (ray_step_size r)))
                             (Vector2d.y l))
                (Vector2d.x l) (tile_found t)
  else
    mkTraversal (Vector2d.mk (Vector2d.x m) (Vector2d.y m + Vector2d.y (step r)))
                (Vector2d.mk (Vector2d.x l)
                             (F32.add (Vector2d.y l) (Vector2d.y (ray_step_size r))))
                (Vector2d.y l) (tile_found t).

(** [index = y_index * cells_width_ + x_index] *)
Definition cell_index (cell_size cells_width : Z) (m : Vector2d Z) : Z :=
  Z.quot (Vector2d.y m) cell_size * cells_width + Z.quot (Vector2d.x m) cell_size.

Definition highlight (c : Cell) : Cell :=
  mkCell (rect_ c) (is_wall_ c) true.

(** The rest of the loop body: the guarded wall test and the highlight. *)
Definition check_cell (cell_size cells_width : Z) (t : Traversal) (board : list Cell)
    : Traversal * list Cell :=
  let index := cell_index cell_size cells_width (map_check t) in
  if (0 <=? index) && (index <? Z.of_nat (length board)) then
    match board !! Z.to_nat index with
    | Some c =>
        if is_wall_ c then
          (mkTraversal (map_check t) (ray_length t) (distance t) true,
           <[Z.to_nat index := highlight c]> board)
        else (t, board)
    | None => (t, board)
    end
  else (t, board).

Definition loop_body (cell_size cells_width : Z) (r : Ray) (s : Traversal * list Cell)
    : Traversal * list Cell :=
  check_cell cell_size cells_width (advance r (fst s)) (snd s).

(** [while (!tile_found && distance < max_distance)] *)
Definition loop_test (t : Traversal) : bool :=
  negb (tile_found t) && F32.ltb (distance t) max_distance.

Fixpoint traverse (fuel : nat) (cell_size cells_width : Z) (r : Ray)
    (s : Traversal * list Cell) : result (Traversal * list Cell) :=
  if loop_test (fst s) then
    match fuel with
    | O => OutOfFuel
    | S fuel' => traverse fuel' cell_size cells_width r (loop_body cell_size cells_width r s)
    end
  else Ok s.

Definition traversal_fuel : nat := 602.

(** The point stored in [dda_intersection_] after the loop. *)
Definition intersection_point (r : Ray) (t : Traversal) : SDL_FPoint.t :=
  if tile_found t then
    SDL_FPoint.mk
      (F32.add (Vector2d.x (ray_start r)) (F32.mul (Vector2d.x (unit_ray_dir r)) (distance t)))
      (F32.add (Vector2d.y (ray_start r)) (F32.mul (Vector2d.y (unit_ray_dir r)) (distance t)))
  else no_intersection.

Definition set_result (g : Game) (board : list Cell) (p : SDL_FPoint.t) : Game :=
  mkGame (initialized_ g) (running_ g) (cell_size_ g) (cells_width_ g) (cells_height_ g)
         (mouse_left_pressed_ g) (mouse_right_pressed_ g) (setting_walls_ g)
         (render_line_ g) board (player_ g) (mouse_box_ g) (mouse_position_ g) p.

(** The run of the routine past the guards: [None] when a guard returned
    early, otherwise the constants of the ray and the loop's final state. *)
Definition cast (cv : conversion) (g : Game) : result (option (Ray * Traversal * list Cell)) :=
  if out_of_world (player_pos g) then Ok None
  else if out_of_world (mouse_pos g) then Ok None
  else
    let* rt := setup cv g in
    let* s := traverse traversal_fuel (cell_size_ g) (cells_width_ g) (fst rt)
                       (snd rt, board_ g) in
    Ok (Some (fst rt, fst s, snd s)).

Definition DigitalDifferentialAnalysis (cv : conversion) (g : Game) : result Game :=
  let* c := cast cv g in
  match c with
  | None => Ok g
  | Some (r, t, board) => Ok (set_result g board (intersection_point r t))
  end.

(** ** Game.cpp: [Tick] *)

Definition int_min : Z := -2147483648.
Definition int_max : Z := 2147483647.

Definition in_int (z : Z) : bool := (int_min <=? z) && (z <=? int_max).

(** The [int] congruent to [z] modulo 2^32. *)
Definition wrap (z : Z) : Z := (z - int_min) mod 2 ^ 32 + int_min.

(** [a + b] on [int].  A sum outside the range of [int] is undefined
    behaviour by the rules of the language, which [IsoCpp] reports; the
    machine that [Indefinite] stands for adds modulo 2^32 (x86-64). *)
Definition int_add (cv : conversion) (a b : Z) : result Z :=
  if in_int (a + b) then Ok (a + b)
  else match cv with
       | IsoCpp => Undefined
       | Indefinite _ => Ok (wrap (a + b))
       end.

(** [player_.box_.x += player_.vx_; player_.box_.y += player_.vy_;] and
    the cast while the left button is held. *)
Definition Tick (cv : conversion) (g : Game) : result Game :=
  let b := box_ (player_ g) in
  let* x := int_add cv (SDL_Rect.x b) (vx_ (player_ g)) in
  let* y := int_add cv (SDL_Rect.y b) (vy_ (player_ g)) in
  let moved :=
    mkGame (initialized_ g) (running_ g) (cell_size_ g) (cells_width_ g) (cells_height_ g)
           (mouse_left_pressed_ g) (mouse_right_pressed_ g) (setting_walls_ g)
           (render_line_ g) (board_ g)
           (mkPlayerBox (SDL_Rect.mk x y (SDL_Rect.w b) (SDL_Rect.h b))
                        (vx_ (player_ g)) (vy_ (player_ g)))
           (mouse_box_ g) (mouse_position_ g) (dda_intersection_ g) in
  if mouse_left_pressed_ g then DigitalDifferentialAnalysis cv moved else Ok moved.

(** [Render] draws the intersection marker under this test. *)
Definition marker_drawn (g : Game) : bool :=
  F32.neqb (SDL_FPoint.x (dda_intersection_ g)) minus_one
  && F32.neqb (SDL_FPoint.y (dda_intersection_ g)) minus_one.

(** ** Bounds on binary32 values *)

(** [a] has sign [s] and a magnitude of at least [t * 2^k]: it is an
    infinity, or finite with a mantissa of at most 24 bits. *)
Definition at_least_s (s : bool) (k t : Z) (a : float) : Prop :=
  match a with
  | S754_infinity s' => s' = s
  | S754_finite s' m e => s' = s /\ Zpos m < 2 ^ 24 /\ t <= Z.shiftl (Zpos m) (e - k)
  | _ => False
  end.

Definition at_least : Z -> Z -> float -> Prop := at_least_s false.

(** A NaN, or a value that is not negative. *)
Definition nonneg (a : float) : Prop :=
  match a with
  | S754_nan | S754_infinity false | S754_zero false => True
  | S754_finite false m e => Zpos m < 2 ^ 24
  | _ => False
  end.



(** A step size the loop can add: a NaN, or at least 32. *)
Definition step_ok (s : float) : Prop := s = S754_nan \/ at_least 5 1 s.

(** The number of whole multiples of 32 in an accumulator, capped at
    300 = 9600 / 32; a NaN or an infinity counts as the cap. *)
Definition progress (a : float) : Z :=
  match a with
  | S754_finite false m e => Z.min 300 (Z.shiftl (Zpos m) (e - 5))
  | S754_zero _ => 0
  | _ => 300
  end.

(** Zero or a positive finite value. *)
Definition finite_nonneg (a : float) : bool :=
  match a with
  | S754_zero false | S754_finite false _ _ => true
  | _ => false
  end.

(** The check made for every integer coordinate a guard lets through: it
    survives the round trip through [float], and the two fractions of a
    cell that [axis_setup] can compute from it are zero or positive. *)
Definition start_ok (n : Z) : bool :=
  match F32.trunc (F32.of_int n) with
  | Some z =>
      (z =? n)
      && finite_nonneg
           (F32.div (F32.sub (F32.of_int n) (F32.of_int (n - Z.rem n 32))) (F32.of_int 32))
      && finite_nonneg
           (F32.div (F32.sub (F32.of_int (n - Z.rem n 32 + 32)) (F32.of_int n)) (F32.of_int 32))
  | None => false
  end.

(** ** The loop invariant and its measure *)

(** Both step sizes can be added and both accumulators are a NaN or not
    negative. *)
Definition loop_inv (r : Ray) (t : Traversal) : Prop :=
  step_ok (Vector2d.x (ray_step_size r)) /\ step_ok (Vector2d.y (ray_step_size r))
  /\ nonneg (Vector2d.x (ray_length t)) /\ nonneg (Vector2d.y (ray_length t)).

(** Cells covered by the two accumulators together; at most 600. *)
Definition covered (t : Traversal) : Z :=
  progress (Vector2d.x (ray_length t)) + progress (Vector2d.y (ray_length t)).

(** ** What a cast reports *)

(** The spec's Intersection Result, read off the loop's final state: the
    struck cell is the board index the loop highlighted. *)
Inductive IntersectionResult : Type :=
  | Hit (index : Z) (point : SDL_FPoint.t) (dist : float)
  | Miss.

(** [None] when a guard returned early and nothing was reported. *)
Definition Cast (cv : conversion) (g : Game) : result (option IntersectionResult) :=
  let* c := cast cv g in
  Ok (match c with
      | None => None
      | Some (r, t, _) =>
          Some (if tile_found t
                then Hit (cell_index (cell_size_ g) (cells_width_ g) (map_check t))
                         (intersection_point r t) (distance t)
                else Miss)
      end).

(** Two boards with the same wall layout: the cells may differ in their
    highlight (nothing of a cell but [is_wall_] is compared). *)
Definition same_walls (b b' : list Cell) : Prop :=
  is_wall_ <$> b = is_wall_ <$> b'.

(** The same, cell by cell. *)
Definition walls_agree (b b' : list Cell) : Prop :=
  length b = length b' /\ forall i : nat, is_wall_ <$> b !! i = is_wall_ <$> b' !! i.

(** Two games with the same inputs of a cast: origin, target, cell size,
    row length and wall layout. *)
Definition same_inputs (g g' : Game) : Prop :=
  player_pos g = player_pos g' /\ mouse_pos g = mouse_pos g'
  /\ cell_size_ g = cell_size_ g' /\ cells_width_ g = cells_width_ g'
  /\ same_walls (board_ g) (board_ g').

Definition result_map {A B : Type} (f : A -> B) (r : result A) : result B :=
  match r with
  | Ok a => Ok (f a)
  | Undefined => Undefined
  | OutOfFuel => OutOfFuel
  end.

(** ** Scenarios *)

(** A game whose player box and mouse box are centred on the two points. *)
Definition place (g : Game) (origin target : Z * Z) : Game :=
  mkGame (initialized_ g) (running_ g) (cell_size_ g) (cells_width_ g) (cells_height_ g)
         (mouse_left_pressed_ g) (mouse_right_pressed_ g) (setting_walls_ g)
         (render_line_ g) (board_ g)
         (mkPlayerBox (SDL_Rect.mk (fst origin - 5) (snd origin - 5) box_size box_size) 0 0)
         (SDL_Rect.mk (fst target - 5) (snd target - 5) box_size box_size)
         (mouse_position_ g) (dda_intersection_ g).

(** The right-button handler's effect on the cell under the cursor when
    it sets a wall. *)
Definition set_wall (g : Game) (gx gy : Z) : Game :=
  let index := Z.to_nat (gy * cells_width_ g + gx) in
  mkGame (initialized_ g) (running_ g) (cell_size_ g) (cells_width_ g) (cells_height_ g)
         (mouse_left_pressed_ g) (mouse_right_pressed_ g) (setting_walls_ g)
         (render_line_ g)
         (match board_ g !! index with
          | Some c => <[index := mkCell (rect_ c) true (highlighted_ c)]> (board_ g)
          | None => board_ g
          end)
         (player_ g) (mouse_box_ g) (mouse_position_ g) (dda_intersection_ g).

(** The left button held down while the player moves with velocity [vx]. *)
Definition hold_and_move (g : Game) (vx : Z) : Game :=
  mkGame (initialized_ g) (running_ g) (cell_size_ g) (cells_width_ g) (cells_height_ g)
         true (mouse_right_pressed_ g) (setting_walls_ g) true (board_ g)
         (mkPlayerBox (box_ (player_ g)) vx (vy_ (player_ g)))
         (mouse_box_ g) (mouse_position_ g) (dda_intersection_ g).

(** The indices of the wall cells of a board. *)
Definition wall_indices (b : list Cell) : list nat :=
  List.filter (fun i => match b !! i with Some c => is_wall_ c | None => false end)
         (seq 0 (length b)).

(** The point of the segment from [origin] to [target] at parameter
    [num / den] lies strictly inside grid cell [(gx, gy)]. *)
Definition segment_point_in_cell (cell_size : Z) (origin target : Z * Z) (num den : Z)
    (gx gy : Z) : bool :=
  let x := fst origin * den + (fst target - fst origin) * num in
  let y := snd origin * den + (snd target - snd origin) * num in
  (0 <? den) && (0 <=? num) && (num <=? den)
  && (gx * cell_size * den <? x) && (x <? (gx + 1) * cell_size * den)
  && (gy * cell_size * den <? y) && (y <? (gy + 1) * cell_size * den).

(** 30 x 20 cells of 32, one wall at cell (10, 5); a horizontal ray from
    (0, 176) toward (640, 176). *)
Definition scenario_hit : Game :=
  place (set_wall (Game_new true) 10 5) (0, 176) (640, 176).

(** No walls; the far diagonal from (0, 0) toward (959, 639). *)
Definition scenario_open : Game :=
  place (Game_new true) (0, 0) (959, 639).

(** One wall at cell (1, 10); a steep ray from (16, 16) toward (46, 352),
    which runs down through that cell from its top edge to its bottom
    edge. *)
Definition scenario_steep : Game :=
  place (set_wall (Game_new true) 1 10) (16, 16) (46, 352).

(** One wall at cell (0, 6); the horizontal ray of row 5. *)
Definition scenario_wrap : Game :=
  place (set_wall (Game_new true) 0 6) (0, 176) (640, 176).

(** Origin and target both at (100, 100). *)
Definition scenario_degenerate : Game :=
  place (Game_new true) (100, 100) (100, 100).

(** The wall of [scenario_hit], the player at (5, 176) walking left five
    pixels a tick with the left button held. *)
Definition scenario_walk : Game :=
  hold_and_move (place (set_wall (Game_new true) 10 5) (5, 176) (640, 176)) (-5).


(** The wall of [scenario_hit], the target two cells from the origin. *)
Definition scenario_short : Game :=
  place (set_wall (Game_new true) 10 5) (0, 176) (64, 176).

(** No walls; the exact diagonal from (0, 0) toward (32, 32). *)
Definition scenario_tie : Game :=
  place (Game_new true) (0, 0) (32, 32).

(** [v] when the run gave a state, the given state otherwise. *)
Definition state_after (r : result Game) (otherwise : Game) : Game :=
  match r with Ok g => g | _ => otherwise end.

(** [scenario_walk] after one tick and after two. *)
Definition walk_1 : Game := state_after (Tick x86_64 scenario_walk) scenario_walk.
Definition walk_2 : Game := state_after (Tick x86_64 walk_1) walk_1.

(** [scenario_hit] after its cast. *)
Definition scenario_hit_again : Game :=
  state_after (DigitalDifferentialAnalysis x86_64 scenario_hit) scenario_hit.

(** What [setup] hands to the loop in [scenario_steep]. *)
Definition steep_setup : Ray * Traversal :=
  Eval vm_compute in
    match setup x86_64 scenario_steep with
    | Ok rt => rt
    | _ =>
        let o := Vector2d.mk (S754_zero false) (S754_zero false) in
        (mkRay o o o o (Vector2d.mk 0 0),
         mkTraversal (Vector2d.mk 0 0) o (S754_zero false) false)
    end.

(** ** The spec's wording of the step computation *)

Definition square (q : float) : float := F32.mul q q.

(** [stepSize.x = cell_size * sqrt(1 + (dir.y/dir.x)^2)],
    [stepSize.y = cell_size * sqrt(1 + (dir.x/dir.y)^2)] *)
Definition spec_step_size (cell_size : Z) (dir : Vector2d float) : Vector2d float :=
  Vector2d.mk
    (F32.mul (F32.of_int cell_size)
       (F32.sqrt (F32.add (F32.of_int 1) (square (F32.div (Vector2d.y dir) (Vector2d.x dir))))))
    (F32.mul (F32.of_int cell_size)
       (F32.sqrt (F32.add (F32.of_int 1) (square (F32.div (Vector2d.x dir) (Vector2d.y dir)))))).


(** ** The two ways a pass of the loop can advance *)

Definition advance_x (r : Ray) (t : Traversal) : Traversal :=
  mkTraversal
    (Vector2d.mk (Vector2d.x (map_check t) + Vector2d.x (step r)) (Vector2d.y (map_check t)))
    (Vector2d.mk (F32.add (Vector2d.x (ray_length t)) (Vector2d.x (ray_step_size r)))
                 (Vector2d.y (ray_length t)))
    (Vector2d.x (ray_length t)) (tile_found t).

Definition advance_y (r : Ray) (t : Traversal) : Traversal :=
  mkTraversal
    (Vector2d.mk (Vector2d.x (map_check t)) (Vector2d.y (map_check t) + Vector2d.y (step r)))
    (Vector2d.mk (Vector2d.x (ray_length t))
                 (F32.add (Vector2d.y (ray_length t)) (Vector2d.y (ray_step_size r))))
    (Vector2d.y (ray_length t)) (tile_found t).

(** The x axis moved in the pass from [t] to [t']. *)
Definition x_axis_advanced (r : Ray) (t t' : Traversal) : Prop :=
  Vector2d.x (map_check t') = Vector2d.x (map_check t) + Vector2d.x (step r).

(** ** The frame of a cast on the board *)

(** [b'] is [b] with the highlight of wall cell [i] set: that cell keeps
    its rectangle and its wall flag, and every other cell is untouched. *)
Definition only_highlights (i : Z) (b b' : list Cell) : Prop :=
  exists c,
    0 <= i < Z.of_nat (length b)
    /\ b !! Z.to_nat i = Some c
    /\ is_wall_ c = true
    /\ b' !! Z.to_nat i = Some (mkCell (rect_ c) (is_wall_ c) true)
    /\ length b' = length b
    /\ forall j : nat, j <> Z.to_nat i -> b' !! j = b !! j.

(** ** Statements about whole casts *)

(** The cast comes to an end within [traversal_fuel] passes of the loop,
    and a loop that ends without a wall ends because the distance is not
    below the ceiling, with Miss stored. *)
Definition terminates_as_specified (cv : conversion) (g : Game) : Prop :=
  match cast cv g with
  | OutOfFuel => False
  | Undefined => cv = IsoCpp
  | Ok None => out_of_world (player_pos g) || out_of_world (mouse_pos g) = true
  | Ok (Some (r, t, b)) =>
      exists (t0 : Traversal) (k : nat),
        setup cv g = Ok (r, t0)
        /\ (k <= traversal_fuel)%nat
        /\ (t, b) = Nat.iter k (loop_body (cell_size_ g) (cells_width_ g) r) (t0, board_ g)
        /\ loop_test t = false
        /\ (tile_found t = false ->
            F32.ltb (distance t) max_distance = false
            /\ DigitalDifferentialAnalysis cv g
               = Ok (set_result g (board_ g) no_intersection))
  end.

(** What a cast may change on the board. *)
Definition frame_respected (cv : conversion) (g : Game) : Prop :=
  match DigitalDifferentialAnalysis cv g, Cast cv g with
  | Ok g', Ok (Some (Hit i _ _)) => only_highlights i (board_ g) (board_ g')
  | Ok g', Ok (Some Miss) => board_ g' = board_ g
  | Ok g', Ok None => g' = g
  | Undefined, Undefined => cv = IsoCpp
  | _, _ => False
  end.

(** One wall at cell (3, 6); the vertical ray from (100, 100) toward
    (100, 200), which runs down column 3. *)
Definition scenario_vertical : Game :=
  place (set_wall (Game_new true) 3 6) (100, 100) (100, 200).


(** * The rest of the program

    The loops of [Game::Game], [HandleEvents], [Run] and the three render
    routines, embedded beside the cast.

    Modelling choices.
    - SDL is the environment.  A call of [HandleEvents] is given the
      events [SDL_PollEvent] has waiting, each with the cursor position
      [SDL_GetMouseState] reports in that pass of the polling loop; a pass
      of the main loop is given that queue and the number of ticks its
      clock allows.  The calls made on the renderer are collected in a
      list, in the order they are made.
    - [operator[]] of [std::vector] checks nothing: an index outside the
      board is undefined behaviour, reported as [Undefined], and so is a
      division by a cell size of zero.
    - [Initialize], [Finalize] and the counters of [Run] touch nothing the
      properties speak of and are left out; [Run] starts from the value of
      [initialized_]. *)

(** ** Game.cpp: the constructor's loop *)

(** [board_.resize(n)] on the empty vector: [n] value-initialised cells. *)
Definition resize (n : Z) : list Cell :=
  replicate (Z.to_nat n) (mkCell (SDL_Rect.mk 0 0 0 0) false false).

(** [board_[index]] read through [operator[]], which checks nothing: an
    index outside the vector is undefined behaviour. *)
Definition read_cell (index : Z) (board : list Cell) : result Cell :=
  if (0 <=? index) && (index <? Z.of_nat (length board)) then
    match board !! Z.to_nat index with
    | Some c => Ok c
    | None => Undefined
    end
  else Undefined.

(** [board_[index]] written through [operator[]]: the cell becomes [f] of
    what it was. *)
Definition update_cell (index : Z) (f : Cell -> Cell) (board : list Cell)
    : result (list Cell) :=
  let* c := read_cell index board in
  Ok (<[Z.to_nat index := f c]> board).

(** [for (int i = first; ...; ++i) body], run for [count] passes. *)
Fixpoint for_loop {A : Type} (count : nat) (i : Z) (body : Z -> A -> result A) (a : A)
    : result A :=
  match count with
  | O => Ok a
  | S n => let* a' := body i a in for_loop n (i + 1) body a'
  end.

(** [for (int i = first; i < bound; ++i) body] *)
Definition for_range {A : Type} (first bound : Z) (body : Z -> A -> result A) (a : A)
    : result A :=
  for_loop (Z.to_nat (bound - first)) first body a.

(** The six assignments of the inner loop's body. *)
Definition init_cell (cell_size x y : Z) (c : Cell) : Cell :=
  mkCell (SDL_Rect.mk (x * cell_size) (y * cell_size) cell_size cell_size) false false.

(** [board_.resize] and the two nested loops of the constructor. *)
Definition construct_board (cell_size cells_width cells_height : Z) : result (list Cell) :=
  for_range 0 cells_height
    (fun y board =>
       for_range 0 cells_width
         (fun x board =>
            let index := y * cells_width + x in
            update_cell index (init_cell cell_size x y) board)
         board)
    (resize (cells_width * cells_height)).

(** The board when the loops have stored the cells below index [k]. *)
Definition stored_cells (cs w h k : Z) : list Cell :=
  take (Z.to_nat k) (fresh_board cs w h) ++ drop (Z.to_nat k) (resize (w * h)).

(** The point lies in the rectangle, its right and bottom edge excluded. *)
Definition in_rect (r : SDL_Rect.t) (px py : Z) : Prop :=
  SDL_Rect.x r <= px < SDL_Rect.x r + SDL_Rect.w r
  /\ SDL_Rect.y r <= py < SDL_Rect.y r + SDL_Rect.h r.

(** ** Game.cpp: [HandleEvents] *)

Inductive Button : Type :=
  | SDL_BUTTON_LEFT
  | SDL_BUTTON_RIGHT
  | SDL_BUTTON_other.

Inductive Keycode : Type :=
  | SDLK_w
  | SDLK_a
  | SDLK_s
  | SDLK_d
  | SDLK_other.

(** What the routine reads of an [SDL_Event]: its type, and the button or
    the key symbol where it has one. *)
Inductive SDL_Event : Type :=
  | SDL_QUIT
  | SDL_MOUSEBUTTONDOWN (button : Button)
  | SDL_MOUSEBUTTONUP (button : Button)
  | SDL_MOUSEMOTION
  | SDL_KEYDOWN (sym : Keycode)
  | SDL_KEYUP (sym : Keycode)
  | SDL_other.

(** One pass of the polling loop takes an event from [SDL_PollEvent] and
    the cursor position [SDL_GetMouseState] reports right after. *)
Record Polled : Type := mkPolled {
  event : SDL_Event;
  mouse_state : SDL_Point.t
}.

Definition set_running (g : Game) (v : bool) : Game :=
  mkGame (initialized_ g) v (cell_size_ g) (cells_width_ g) (cells_height_ g)
         (mouse_left_pressed_ g) (mouse_right_pressed_ g) (setting_walls_ g)
         (render_line_ g) (board_ g) (player_ g) (mouse_box_ g) (mouse_position_ g)
         (dda_intersection_ g).

Definition set_mouse_position (g : Game) (p : SDL_Point.t) : Game :=
  mkGame (initialized_ g) (running_ g) (cell_size_ g) (cells_width_ g) (cells_height_ g)
         (mouse_left_pressed_ g) (mouse_right_pressed_ g) (setting_walls_ g)
         (render_line_ g) (board_ g) (player_ g) (mouse_box_ g) p (dda_intersection_ g).

(** [render_line_ = v; mouse_left_pressed_ = v;] *)
Definition set_left (g : Game) (v : bool) : Game :=
  mkGame (initialized_ g) (running_ g) (cell_size_ g) (cells_width_ g) (cells_height_ g)
         v (mouse_right_pressed_ g) (setting_walls_ g)
         v (board_ g) (player_ g) (mouse_box_ g) (mouse_position_ g)
         (dda_intersection_ g).

Definition set_mouse_right_pressed (g : Game) (v : bool) : Game :=
  mkGame (initialized_ g) (running_ g) (cell_size_ g) (cells_width_ g) (cells_height_ g)
         (mouse_left_pressed_ g) v (setting_walls_ g)
         (render_line_ g) (board_ g) (player_ g) (mouse_box_ g) (mouse_position_ g)
         (dda_intersection_ g).

Definition set_setting_walls (g : Game) (v : bool) : Game :=
  mkGame (initialized_ g) (running_ g) (cell_size_ g) (cells_width_ g) (cells_height_ g)
         (mouse_left_pressed_ g) (mouse_right_pressed_ g) v
         (render_line_ g) (board_ g) (player_ g) (mouse_box_ g) (mouse_position_ g)
         (dda_intersection_ g).

Definition set_board (g : Game) (board : list Cell) : Game :=
  set_result g board (dda_intersection_ g).

Definition set_dda_intersection (g : Game) (p : SDL_FPoint.t) : Game :=
  set_result g (board_ g) p.

Definition set_mouse_box (g : Game) (b : SDL_Rect.t) : Game :=
  mkGame (initialized_ g) (running_ g) (cell_size_ g) (cells_width_ g) (cells_height_ g)
         (mouse_left_pressed_ g) (mouse_right_pressed_ g) (setting_walls_ g)
         (render_line_ g) (board_ g) (player_ g) b (mouse_position_ g)
         (dda_intersection_ g).

Definition set_player (g : Game) (p : PlayerBox) : Game :=
  mkGame (initialized_ g) (running_ g) (cell_size_ g) (cells_width_ g) (cells_height_ g)
         (mouse_left_pressed_ g) (mouse_right_pressed_ g) (setting_walls_ g)
         (render_line_ g) (board_ g) p (mouse_box_ g) (mouse_position_ g)
         (dda_intersection_ g).

Definition set_vx (g : Game) (v : Z) : Game :=
  set_player g (mkPlayerBox (box_ (player_ g)) v (vy_ (player_ g))).

Definition set_vy (g : Game) (v : Z) : Game :=
  set_player g (mkPlayerBox (box_ (player_ g)) (vx_ (player_ g)) v).

(** [(mouse_position_.y / cell_size_) * cells_width_
     + (mouse_position_.x / cell_size_)]; a division by zero is undefined
    behaviour. *)
Definition cursor_index (g : Game) : result Z :=
  if cell_size_ g =? 0 then Undefined
  else Ok (Z.quot (SDL_Point.y (mouse_position_ g)) (cell_size_ g) * cells_width_ g
           + Z.quot (SDL_Point.x (mouse_position_ g)) (cell_size_ g)).

(** [board_[index].is_wall_ = !board_[index].is_wall_] *)
Definition toggle_wall (c : Cell) : Cell :=
  mkCell (rect_ c) (negb (is_wall_ c)) (highlighted_ c).

(** [board_[index].is_wall_ = setting_walls_] *)
Definition paint_wall (v : bool) (c : Cell) : Cell :=
  mkCell (rect_ c) v (highlighted_ c).

(** The branch of [SDL_BUTTON_RIGHT] under [SDL_MOUSEBUTTONDOWN]. *)
Definition right_button_down (g : Game) : result Game :=
  let g := set_mouse_right_pressed g true in
  let* index := cursor_index g in
  let* c := read_cell index (board_ g) in
  let g := set_setting_walls g (negb (is_wall_ c)) in
  let* board := update_cell index toggle_wall (board_ g) in
  Ok (set_board g board).

(** The [if]/[else if] chain on the two mouse button events. *)
Definition mouse_buttons (e : SDL_Event) (g : Game) : result Game :=
  match e with
  | SDL_MOUSEBUTTONDOWN SDL_BUTTON_LEFT => Ok (set_left g true)
  | SDL_MOUSEBUTTONDOWN SDL_BUTTON_RIGHT => right_button_down g
  | SDL_MOUSEBUTTONUP SDL_BUTTON_LEFT =>
      Ok (set_dda_intersection (set_left g false) no_intersection)
  | SDL_MOUSEBUTTONUP SDL_BUTTON_RIGHT => Ok (set_mouse_right_pressed g false)
  | _ => Ok g
  end.

(** [if (e.type == SDL_MOUSEMOTION)]: the mouse box follows the cursor,
    both coordinates offset by half of its width, and a held right button
    paints the cell under the cursor. *)
Definition mouse_motion (e : SDL_Event) (g : Game) : result Game :=
  match e with
  | SDL_MOUSEMOTION =>
      let b := mouse_box_ g in
      let g :=
        set_mouse_box g
          (SDL_Rect.mk (SDL_Point.x (mouse_position_ g) - Z.quot (SDL_Rect.w b) 2)
                       (SDL_Point.y (mouse_position_ g) - Z.quot (SDL_Rect.w b) 2)
                       (SDL_Rect.w b) (SDL_Rect.h b)) in
      if mouse_right_pressed_ g then
        let* index := cursor_index g in
        let* board := update_cell index (paint_wall (setting_walls_ g)) (board_ g) in
        Ok (set_board g board)
      else Ok g
  | _ => Ok g
  end.

Definition speed : Z := 5.

(** The [if]/[else if] on the two keyboard events. *)
Definition keys (e : SDL_Event) (g : Game) : Game :=
  match e with
  | SDL_KEYDOWN SDLK_w => set_vy g (- speed)
  | SDL_KEYDOWN SDLK_a => set_vx g (- speed)
  | SDL_KEYDOWN SDLK_s => set_vy g speed
  | SDL_KEYDOWN SDLK_d => set_vx g speed
  | SDL_KEYUP SDLK_w => set_vy g 0
  | SDL_KEYUP SDLK_a => set_vx g 0
  | SDL_KEYUP SDLK_s => set_vy g 0
  | SDL_KEYUP SDLK_d => set_vx g 0
  | _ => g
  end.

(** The body of the polling loop for an event that is not [SDL_QUIT]. *)
Definition handle_event (e : SDL_Event) (g : Game) : result Game :=
  let* g := mouse_buttons e g in
  let* g := mouse_motion e g in
  Ok (keys e g).

(** The polling loop over the events of the queue; [SDL_QUIT] returns
    from the routine with the rest of the queue unread. *)
Fixpoint HandleEvents (queue : list Polled) (g : Game) : result Game :=
  match queue with
  | [] => Ok g
  | p :: rest =>
      let g := set_mouse_position g (mouse_state p) in
      match event p with
      | SDL_QUIT => Ok (set_running g false)
      | e => let* g := handle_event e g in HandleEvents rest g
      end
  end.

(** ** Game.cpp: [Render], [RenderGrid], [RenderCells] *)

(** The calls made on the renderer. *)
Inductive Draw : Type :=
  | SDL_RenderSetViewport
  | SDL_SetRenderDrawColor (r g b a : Z)
  | SDL_RenderClear
  | SDL_RenderDrawLine (x1 y1 x2 y2 : Z)
  | SDL_RenderFillRect (rect : SDL_Rect.t)
  | SDL_RenderDrawRectF (x y w h : float)
  | SDL_RenderPresent.

(** [for (int i = 1; i < bound; ++i) line(i)] *)
Definition lines (bound : Z) (line : Z -> Draw) : list Draw :=
  map (fun i => line (Z.of_nat i)) (seq 1 (Z.to_nat (bound - 1))).

Definition RenderGrid (g : Game) : list Draw :=
  SDL_SetRenderDrawColor 20 20 20 255
  :: lines (cells_height_ g)
       (fun y => SDL_RenderDrawLine 0 (y * cell_size_ g)
                   constants.screen_width (y * cell_size_ g))
  ++ lines (cells_width_ g)
       (fun x => SDL_RenderDrawLine (x * cell_size_ g) 0
                   (x * cell_size_ g) constants.screen_height).

(** The body of the loop of [RenderCells]; the calls made so far are
    the state of the loop. *)
Definition render_cell (board : list Cell) (i : Z) (drawn : list Draw)
    : result (list Draw) :=
  let* c := read_cell i board in
  Ok (if is_wall_ c
      then drawn ++ [SDL_SetRenderDrawColor 0 0 255 255; SDL_RenderFillRect (rect_ c)]
      else drawn).

Definition RenderCells (g : Game) : result (list Draw) :=
  for_range 0 (cells_width_ g * cells_height_ g) (render_cell (board_ g)) [].

(** The marker of the intersection, drawn under [marker_drawn]. *)
Definition collision_box (g : Game) : list Draw :=
  if marker_drawn g then
    let box_size := F32.of_int 10 in
    let half := F32.div box_size (F32.of_int 2) in
    [SDL_SetRenderDrawColor 255 255 255 255;
     SDL_RenderDrawRectF (F32.sub (SDL_FPoint.x (dda_intersection_ g)) half)
                         (F32.sub (SDL_FPoint.y (dda_intersection_ g)) half)
                         box_size box_size]
  else [].

(** The line from the centre of the player's box to the centre of the
    mouse box, drawn under [render_line_]. *)
Definition aim_line (g : Game) : list Draw :=
  if render_line_ g then
    let p := box_ (player_ g) in
    let m := mouse_box_ g in
    [SDL_SetRenderDrawColor 0 255 255 255;
     SDL_RenderDrawLine (SDL_Rect.x p + Z.quot (SDL_Rect.w p) 2)
                        (SDL_Rect.y p + Z.quot (SDL_Rect.h p) 2)
                        (SDL_Rect.x m + Z.quot (SDL_Rect.w m) 2)
                        (SDL_Rect.y m + Z.quot (SDL_Rect.h m) 2)]
  else [].

Definition Render (g : Game) : result (list Draw) :=
  let* cells := RenderCells g in
  Ok ([SDL_RenderSetViewport; SDL_SetRenderDrawColor 0 0 0 255; SDL_RenderClear]
      ++ RenderGrid g
      ++ cells
      ++ collision_box g
      ++ [SDL_SetRenderDrawColor 255 0 0 255; SDL_RenderFillRect (box_ (player_ g));
          SDL_SetRenderDrawColor 0 255 0 255; SDL_RenderFillRect (mouse_box_ g)]
      ++ aim_line g
      ++ [SDL_RenderPresent]).

(** ** Game.cpp: [Run] *)

(** [while (delta >= ms) Tick();] for a [delta] that allows [n] ticks. *)
Fixpoint ticks (cv : conversion) (n : nat) (g : Game) : result Game :=
  match n with
  | O => Ok g
  | S n' => let* g' := Tick cv g in ticks cv n' g'
  end.

(** What one pass of the main loop takes from outside: the events waiting
    in the queue and the number of ticks the clock allows. *)
Record Frame : Type := mkFrame {
  queue : list Polled;
  due : nat
}.

(** The passes of [while (running_)] over the given frames: the state
    and the frames drawn when the loop has ended, or when the given
    frames are used up. *)
Fixpoint main_loop (cv : conversion) (frames : list Frame) (g : Game)
    (drawn : list (list Draw)) : result (Game * list (list Draw)) :=
  match frames with
  | [] => Ok (g, drawn)
  | f :: rest =>
      if running_ g then
        let* g1 := HandleEvents (queue f) g in
        let* g2 := ticks cv (due f) g1 in
        let* d := Render g2 in
        main_loop cv rest g2 (drawn ++ [d])
      else Ok (g, drawn)
  end.

Definition Run (cv : conversion) (frames : list Frame) (g : Game)
    : result (Game * list (list Draw)) :=
  if negb (initialized_ g) then Ok (g, [])
  else main_loop cv frames (set_running g true) [].

(** The ticks the frames allow, all together. *)
Definition ticks_due (frames : list Frame) : nat :=
  foldr (fun f n => (due f + n)%nat) O frames.

(** ** What the main loop keeps *)

(** The player's box stands within [d] pixels, along each axis, of the
    place the constructor gave it. *)
Definition near (g : Game) (d : Z) : Prop :=
  Z.abs (SDL_Rect.x (box_ (player_ g)) - SDL_Rect.x (box_ (player_ (Game_new true)))) <= d
  /\ Z.abs (SDL_Rect.y (box_ (player_ g)) - SDL_Rect.y (box_ (player_ (Game_new true)))) <= d.

(** The ticks of the frames cannot carry the box further than the largest
    [int] less the width of the window. *)
Definition ticks_bounded (frames : list Frame) : Prop :=
  speed * Z.of_nat (ticks_due frames) <= int_max - constants.screen_width.

(** The player three pixels from the largest [int], moving right. *)
Definition scenario_edge : Game :=
  set_player (Game_new true) (mkPlayerBox (SDL_Rect.mk 2147483645 315 10 10) speed 0).

(** Every cursor position the frames report lies in the window. *)
Definition in_window (p : SDL_Point.t) : Prop :=
  0 <= SDL_Point.x p < constants.screen_width
  /\ 0 <= SDL_Point.y p < constants.screen_height.

Definition cursor_in_window (frames : list Frame) : Prop :=
  Forall (fun f => Forall (fun p => in_window (mouse_state p)) (queue f)) frames.

(** The grid of the constructor: sizes, the number of cells and their
    rectangles. *)
Definition grid_kept (g : Game) : Prop :=
  cell_size_ g = 32 /\ cells_width_ g = 30 /\ cells_height_ g = 20
  /\ rect_ <$> board_ g = rect_ <$> fresh_board 32 30 20.

(** The two boxes keep their size. *)
Definition boxes_kept (g : Game) : Prop :=
  SDL_Rect.w (box_ (player_ g)) = box_size /\ SDL_Rect.h (box_ (player_ g)) = box_size
  /\ SDL_Rect.w (mouse_box_ g) = box_size /\ SDL_Rect.h (mouse_box_ g) = box_size.

Definition velocity_ok (v : Z) : Prop := v = - speed \/ v = 0 \/ v = speed.

(** The line is drawn exactly while the left button is held, and without
    the button there is no intersection stored. *)
Definition aim_consistent (g : Game) : Prop :=
  render_line_ g = mouse_left_pressed_ g
  /\ (mouse_left_pressed_ g = false -> dda_intersection_ g = no_intersection).

(** Every highlight of [b] is still set in [b']. *)
Definition highlights_kept (b b' : list Cell) : Prop :=
  forall (i : nat) (c : Cell),
    b !! i = Some c -> highlighted_ c = true ->
    exists c', b' !! i = Some c' /\ highlighted_ c' = true.

(** The filled rectangles among the calls. *)
Definition filled (d : list Draw) : list SDL_Rect.t :=
  omap (fun c => match c with SDL_RenderFillRect r => Some r | _ => None end) d.

(** The rectangles of the wall cells, in board order. *)
Definition wall_rects (b : list Cell) : list SDL_Rect.t :=
  rect_ <$> List.filter is_wall_ b.

(** What every state of a run satisfies. *)
Definition state_inv (g : Game) : Prop :=
  grid_kept g /\ boxes_kept g
  /\ velocity_ok (vx_ (player_ g)) /\ velocity_ok (vy_ (player_ g))
  /\ aim_consistent g.

(** The calls [RenderCells] makes for the cells of [b], in board order. *)
Definition cell_calls (b : list Cell) : list Draw :=
  flat_map
    (fun c =>
       if is_wall_ c
       then [SDL_SetRenderDrawColor 0 0 255 255; SDL_RenderFillRect (rect_ c)]
       else [])
    b.

(** An outcome that is a value, or undefined only by the rules of the
    language ([IsoCpp]), never on a machine that fixes what the language
    leaves open, and never for want of fuel. *)
Definition ends {A : Type} (cv : conversion) (r : result A) : Prop :=
  match r with
  | Ok _ => True
  | Undefined => cv = IsoCpp
  | OutOfFuel => False
  end.

(** The wall of [scenario_hit], seen from the other side: a ray from
    (650, 176) toward (0, 176). *)
Definition scenario_hit_back : Game :=
  place (set_wall (Game_new true) 10 5) (650, 176) (0, 176).

(** ** A session *)

(** A frame in which the window is closed. *)
Definition closing : Frame :=
  mkFrame [mkPolled SDL_QUIT (SDL_Point.mk 700 40);
           mkPolled (SDL_KEYDOWN SDLK_a) (SDL_Point.mk 700 40)] 1.

(** The cursor moves to (100, 40) and the right button goes down there;
    the cursor is dragged to (140, 40) and the button is released; the
    left button goes down with the cursor at (700, 40), [d] is pressed,
    and three ticks are due; in the next frame the window is closed. *)
Definition session : list Frame :=
  [mkFrame [mkPolled SDL_MOUSEMOTION (SDL_Point.mk 100 40);
            mkPolled (SDL_MOUSEBUTTONDOWN SDL_BUTTON_RIGHT) (SDL_Point.mk 100 40);
            mkPolled SDL_MOUSEMOTION (SDL_Point.mk 140 40);
            mkPolled (SDL_MOUSEBUTTONUP SDL_BUTTON_RIGHT) (SDL_Point.mk 140 40)] 1;
   mkFrame [mkPolled SDL_MOUSEMOTION (SDL_Point.mk 700 40);
            mkPolled (SDL_MOUSEBUTTONDOWN SDL_BUTTON_LEFT) (SDL_Point.mk 700 40);
            mkPolled (SDL_KEYDOWN SDLK_d) (SDL_Point.mk 700 40)] 3;
   closing].

(** The value of an outcome that has one. *)
Definition value_or {A : Type} (r : result A) (otherwise : A) : A :=
  match r with
  | Ok a => a
  | _ => otherwise
  end.

(** The state and the frames at the end of the session. *)
Definition session_end : Game * list (list Draw) :=
  value_or (Run x86_64 session (Game_new true)) (Game_new true, []).

(** The wall flag of the cell the program's index formula selects for a
    cursor position; [None] when the index is not one of the board. *)
Definition wall_at (g : Game) (p : SDL_Point.t) : option bool :=
  let i := cell_index (cell_size_ g) (cells_width_ g)
                      (Vector2d.mk (SDL_Point.x p) (SDL_Point.y p)) in
  if 0 <=? i then is_wall_ <$> board_ g !! Z.to_nat i else None.

Definition right_down (p : SDL_Point.t) : Polled :=
  mkPolled (SDL_MOUSEBUTTONDOWN SDL_BUTTON_RIGHT) p.

Definition motion (p : SDL_Point.t) : Polled := mkPolled SDL_MOUSEMOTION p.

(** The constructor's state after a motion of the cursor to (700, 40). *)
Definition aimed : Game :=
  state_after (HandleEvents [mkPolled SDL_MOUSEMOTION (SDL_Point.mk 700 40)] (Game_new true))
              (Game_new true).

(** [session] replayed on the board a cast has highlighted a cell of. *)
Definition session_replay : Game * list (list Draw) :=
  value_or (Run x86_64 session scenario_hit_again) (scenario_hit_again, []).

(** ** Checks on the integers a guard lets through *)

Definition float_eqb (a b : float) : bool :=
  match a, b with
  | S754_zero s, S754_zero s' => Bool.eqb s s'
  | S754_infinity s, S754_infinity s' => Bool.eqb s s'
  | S754_nan, S754_nan => true
  | S754_finite s m e, S754_finite s' m' e' => Bool.eqb s s' && (m =? m')%positive && (e =? e')
  | _, _ => false
  end.

Definition vector_eqb (a b : Vector2d float) : bool :=
  float_eqb (Vector2d.x a) (Vector2d.x b) && float_eqb (Vector2d.y a) (Vector2d.y b).

Definition zero : float := S754_zero false.

Definition infinity : float := S754_infinity false.

(** [static_cast<float>(n)] is [n], held with an exponent between -23
    and -14, and negating [n] negates it. *)
Definition exact_int (n : Z) : bool :=
  match F32.of_int n with
  | S754_zero false => n =? 0
  | S754_finite s m e =>
      Bool.eqb s (n <? 0) && (-23 <=? e) && (e <=? -14) && (Zpos m =? Z.abs n * 2 ^ (- e))
      && float_eqb (F32.of_int (- n)) (S754_finite (negb s) m e)
  | _ => false
  end.

(** Rounding [n * 2^k * 2^-k] gives [static_cast<float>(n)], for the
    exponents two values of [exact_int] are aligned to. *)
Definition exact_sum (n : Z) : bool :=
  forallb
    (fun k => float_eqb (binary_normalize F32.prec F32.emax (n * 2 ^ k) (- k) false)
                        (F32.of_int n))
    (map Z.of_nat (seq 14 10)).

(** What the cast computes from a direction along the x axis of length
    [d], and from one along the y axis: the direction scaled to 32 and
    to 1. *)
Definition axis_direction_ok (d : Z) : bool :=
  (d =? 0)
  || (vector_eqb (Vector2d.SetLength (Vector2d.mk (F32.of_int d) zero) (F32.of_int 32))
                 (Vector2d.mk (F32.of_int (32 * Z.sgn d)) zero)
      && vector_eqb (Vector2d.SetLength (Vector2d.mk (F32.of_int d) zero) (F32.of_int 1))
                    (Vector2d.mk (F32.of_int (Z.sgn d)) zero)
      && vector_eqb (Vector2d.SetLength (Vector2d.mk zero (F32.of_int d)) (F32.of_int 32))
                    (Vector2d.mk zero (F32.of_int (32 * Z.sgn d)))
      && vector_eqb (Vector2d.SetLength (Vector2d.mk zero (F32.of_int d)) (F32.of_int 1))
                    (Vector2d.mk zero (F32.of_int (Z.sgn d)))).

(** What the set-up computes from the start coordinate [n] on the axis a
    ray runs along in the positive direction: the step, the distance to
    the first cell border, and the cell coordinate of that border. *)
Definition along_axis_ok (n : Z) : bool :=
  let cell := n - Z.rem n 32 in
  let a := axis_setup 32 (F32.of_int 32) (F32.of_int n) n cell (F32.of_int 32) in
  (fst a =? 32) && float_eqb (snd a) (F32.of_int (cell + 32 - n))
  && match F32.trunc (F32.add (F32.of_int n)
                        (F32.mul (F32.of_int 1) (F32.of_int (cell + 32 - n)))) with
     | Some z => z =? cell + 32
     | None => false
     end.

(** The same on the axis the ray runs along in the negative direction.
    The distance to the first border is the offset of [n] in its cell,
    and a whole cell when [n] lies on a border. *)
Definition first_border (n : Z) : Z :=
  if Z.rem n 32 =? 0 then 32 else Z.rem n 32.

Definition against_axis_ok (n : Z) : bool :=
  let cell := n - Z.rem n 32 in
  let a := axis_setup 32 (F32.of_int (-32)) (F32.of_int n) n cell (F32.of_int 32) in
  (fst a =? -32) && float_eqb (snd a) (F32.of_int (first_border n))
  && match F32.trunc (F32.add (F32.of_int n)
                        (F32.mul (F32.of_int (-1)) (F32.of_int (first_border n)))) with
     | Some z => z =? n - first_border n
     | None => false
     end.

(** On the axis the ray does not move along, the distance to the first
    border is infinite. *)
Definition across_axis_ok (n : Z) : bool :=
  let cell := n - Z.rem n 32 in
  let a := axis_setup 32 zero (F32.of_int n) n cell infinity in
  (fst a =? 32) && float_eqb (snd a) infinity.

(** A distance of [a] pixels along an axis: below the ceiling of the
    loop, unchanged by the factor 1 of the unit direction, wiped out by
    its factor 0 and negated by its factor -1. *)
Definition distance_ok (a : Z) : bool :=
  F32.ltb (F32.of_int a) infinity && F32.ltb (F32.of_int a) max_distance
  && float_eqb (F32.mul (F32.of_int 1) (F32.of_int a)) (F32.of_int a)
  && float_eqb (F32.mul zero (F32.of_int a)) zero
  && float_eqb (F32.add (F32.of_int a) zero) (F32.of_int a)
  && ((a =? 0) || float_eqb (F32.mul (F32.of_int (-1)) (F32.of_int a)) (F32.of_int (- a))).

(** The integers from [lo], [len] of them. *)
Definition range (lo : Z) (len : nat) : list Z :=
  map (fun i => lo + Z.of_nat i) (seq 0 len).

(** A coordinate the guards of the cast let through: not below 0 and
    not above the width of the world or, up to 640, its height. *)
Definition guard_ok (a : Z) : bool :=
  negb (F32.ltb (F32.of_int a) (F32.of_int 0))
  && negb (F32.gtb (F32.of_int a) (F32.of_int constants.screen_width))
  && ((640 <? a) || negb (F32.gtb (F32.of_int a) (F32.of_int constants.screen_height))).

(** The column left of which a ray toward smaller x tests cells: the
    column of the origin, and one less when the origin lies on a border
    between two cells. *)
Definition first_left (ox : Z) : Z := Z.quot (ox - first_border ox) 32.
(** * Rounding to binary32 *)

Lemma digits2_pos_bounds (m : positive) :
  2 ^ (Zpos (digits2_pos m) - 1) <= Zpos m < 2 ^ Zpos (digits2_pos m).
Proof.
  induction m as [p IH | p IH |]; simpl digits2_pos.
  - rewrite Pos2Z.inj_succ. change (Zpos p~1) with (2 * Zpos p + 1).
    replace (Z.succ (Zpos (digits2_pos p)) - 1) with (Z.succ (Zpos (digits2_pos p) - 1)) by lia.
    rewrite !Z.pow_succ_r by lia.
    generalize dependent (2 ^ (Zpos (digits2_pos p) - 1)).
    generalize (2 ^ Zpos (digits2_pos p)). lia.
  - rewrite Pos2Z.inj_succ. change (Zpos p~0) with (2 * Zpos p).
    replace (Z.succ (Zpos (digits2_pos p)) - 1) with (Z.succ (Zpos (digits2_pos p) - 1)) by lia.
    rewrite !Z.pow_succ_r by lia.
    generalize dependent (2 ^ (Zpos (digits2_pos p) - 1)).
    generalize (2 ^ Zpos (digits2_pos p)). lia.
  - simpl. lia.
Qed.

Lemma shr_1_m (mrs : shr_record) :
  0 <= shr_m mrs -> shr_m (shr_1 mrs) = Z.div2 (shr_m mrs).
Proof.
  destruct mrs as [m r s]. destruct m as [|[p|p|]|p]; simpl; intros H; try reflexivity; lia.
Qed.

Lemma iter_shr_m (n : positive) :
  forall mrs, 0 <= shr_m mrs ->
    shr_m (SpecFloat.iter_pos shr_1 n mrs) = Z.shiftr (shr_m mrs) (Zpos n).
Proof.
  induction n as [n IH | n IH |]; intros mrs Hm; cbn [SpecFloat.iter_pos].
  - assert (H1 : 0 <= shr_m (shr_1 mrs)).
    { rewrite shr_1_m by assumption. apply Z.div2_nonneg. assumption. }
    assert (H2 : 0 <= shr_m (SpecFloat.iter_pos shr_1 n (shr_1 mrs))).
    { rewrite IH by assumption. apply Z.shiftr_nonneg. assumption. }
    rewrite IH, IH, shr_1_m by assumption.
    rewrite Z.div2_spec, !Z.shiftr_shiftr by lia. f_equal. lia.
  - assert (H2 : 0 <= shr_m (SpecFloat.iter_pos shr_1 n mrs)).
    { rewrite IH by assumption. apply Z.shiftr_nonneg. assumption. }
    rewrite IH, IH by assumption.
    rewrite Z.shiftr_shiftr by lia. f_equal. lia.
  - rewrite shr_1_m by assumption. apply Z.div2_spec.
Qed.

Lemma shr_record_of_loc_m (m : Z) (l : location) : shr_m (shr_record_of_loc m l) = m.
Proof. destruct l as [|[]]; reflexivity. Qed.

(** What [shr_fexp] computes on a mantissa that is not negative. *)
Lemma shr_fexp_spec (M E : Z) (l : location) :
  0 <= M ->
  let n := fexp F32.prec F32.emax (Zdigits2 M + E) - E in
  shr_m (fst (shr_fexp F32.prec F32.emax M E l)) = (if 0 <? n then Z.shiftr M n else M)
  /\ snd (shr_fexp F32.prec F32.emax M E l) = (if 0 <? n then E + n else E).
Proof.
  intros HM n. unfold shr_fexp, shr. fold n.
  destruct n as [|p|p] eqn:Hn; simpl; rewrite ?shr_record_of_loc_m; try tauto.
  split; [|reflexivity].
  rewrite iter_shr_m; rewrite shr_record_of_loc_m; [reflexivity | assumption].
Qed.

Lemma Zdigits2_bounds (M : Z) :
  0 < M -> 2 ^ (Zdigits2 M - 1) <= M < 2 ^ Zdigits2 M.
Proof.
  destruct M as [|p|p]; try lia. intros _. apply digits2_pos_bounds.
Qed.

Lemma shiftl_mono (a b n : Z) : 0 <= a <= b -> Z.shiftl a n <= Z.shiftl b n.
Proof.
  intros H. destruct (Z.le_gt_cases 0 n) as [Hn | Hn].
  - rewrite !Z.shiftl_mul_pow2 by assumption.
    apply Z.mul_le_mono_nonneg_r; [apply Z.pow_nonneg|]; lia.
  - rewrite !Z.shiftl_div_pow2 by lia.
    apply Z.div_le_mono; [apply Z.pow_pos_nonneg|]; lia.
Qed.

(** The mantissa [shr_fexp] leaves has at most 24 bits. *)
Lemma shr_fexp_small (M E : Z) (l : location) :
  0 <= M ->
  0 <= shr_m (fst (shr_fexp F32.prec F32.emax M E l)) < 2 ^ 24.
Proof.
  intros HM. destruct (shr_fexp_spec M E l HM) as [-> _].
  set (n := fexp F32.prec F32.emax (Zdigits2 M + E) - E).
  assert (Hn : Zdigits2 M - 24 <= n).
  { unfold n, fexp, F32.prec. lia. }
  destruct (Z.eq_dec M 0) as [-> | HM0].
  { destruct (0 <? n); [rewrite Z.shiftr_0_l|]; lia. }
  pose proof (Zdigits2_bounds M ltac:(lia)) as [_ Hd].
  assert (Hdpos : 0 < Zdigits2 M) by (destruct M; simpl; lia).
  destruct (0 <? n) eqn:Hpos.
  - apply Z.ltb_lt in Hpos. rewrite Z.shiftr_div_pow2 by lia. split.
    + apply Z.div_pos; [lia | apply Z.pow_pos_nonneg; lia].
    + apply Z.div_lt_upper_bound; [apply Z.pow_pos_nonneg; lia|].
      rewrite <- Z.pow_add_r by lia.
      eapply Z.lt_le_trans; [exact Hd|]. apply Z.pow_le_mono_r; lia.
  - apply Z.ltb_ge in Hpos. split; [lia|].
    eapply Z.lt_le_trans; [exact Hd|]. apply Z.pow_le_mono_r; lia.
Qed.

(** [shr_fexp] never takes the value below a representable bound
    [t * 2^k] that the exact value reaches. *)
Lemma shr_fexp_lower (M E : Z) (l : location) (k t : Z) :
  0 <= M -> emin F32.prec F32.emax <= k -> 0 <= t < 2 ^ 24 ->
  t <= Z.shiftl M (E - k) ->
  t <= Z.shiftl (shr_m (fst (shr_fexp F32.prec F32.emax M E l)))
                (snd (shr_fexp F32.prec F32.emax M E l) - k).
Proof.
  intros HM Hk Ht Hle. destruct (shr_fexp_spec M E l HM) as [-> ->].
  set (n := fexp F32.prec F32.emax (Zdigits2 M + E) - E).
  destruct (0 <? n) eqn:Hpos; [|assumption].
  apply Z.ltb_lt in Hpos.
  destruct (Z.eq_dec M 0) as [-> | HM0].
  { rewrite Z.shiftr_0_l, Z.shiftl_0_l. rewrite Z.shiftl_0_l in Hle. assumption. }
  destruct (Z.le_gt_cases (E + n) k) as [Hc | Hc].
  - (* the bound is a multiple of the new unit *)
    rewrite <- (Z.shiftr_opp_r _ (E + n - k)).
    rewrite Z.shiftr_shiftr by lia.
    rewrite <- (Z.shiftr_opp_r _ (E - k)) in Hle.
    replace (n + - (E + n - k)) with (- (E - k)) by lia. assumption.
  - (* the new unit is coarser: the mantissa has its 24 bits *)
    assert (Hf : E + n = Zdigits2 M + E - 24).
    { unfold n, fexp, F32.prec in *. lia. }
    pose proof (Zdigits2_bounds M ltac:(lia)) as [Hd _].
    assert (H23 : 2 ^ 23 <= Z.shiftr M n).
    { rewrite Z.shiftr_div_pow2 by lia.
      apply Z.div_le_lower_bound; [apply Z.pow_pos_nonneg; lia|].
      rewrite <- Z.pow_add_r by lia.
      replace (n + 23) with (Zdigits2 M - 1) by lia. assumption. }
    rewrite Z.shiftl_mul_pow2 by lia.
    assert (2 <= 2 ^ (E + n - k)).
    { change 2 with (2 ^ 1) at 1. apply Z.pow_le_mono_r; lia. }
    nia.
Qed.

Lemma round_nearest_even_ge (m : Z) (l : location) :
  m <= round_nearest_even m l <= m + 1.
Proof.
  destruct l as [|[]]; simpl; try lia. destruct (Z.even m); lia.
Qed.

(** The outcomes of the rounding step on a mantissa that is not negative. *)
Lemma binary_round_aux_shape (sx : bool) (M E : Z) (l : location) :
  0 <= M ->
  match binary_round_aux F32.prec F32.emax sx M E l with
  | S754_zero s | S754_infinity s => s = sx
  | S754_finite s m e => s = sx /\ Zpos m < 2 ^ 24
  | S754_nan => False
  end.
Proof.
  intros HM. unfold binary_round_aux.
  destruct (shr_fexp F32.prec F32.emax M E l) as [mrs1 e1] eqn:H1.
  pose proof (shr_fexp_small M E l HM) as Hs1. rewrite H1 in Hs1. simpl in Hs1.
  set (m2 := round_nearest_even (shr_m mrs1) (loc_of_shr_record mrs1)).
  assert (Hm2 : 0 <= m2).
  { pose proof (round_nearest_even_ge (shr_m mrs1) (loc_of_shr_record mrs1)). lia. }
  destruct (shr_fexp F32.prec F32.emax m2 e1 loc_Exact) as [mrs2 e2] eqn:H2.
  pose proof (shr_fexp_small m2 e1 loc_Exact Hm2) as Hs2. rewrite H2 in Hs2. simpl in Hs2.
  destruct (shr_m mrs2) as [|p|p]; try lia; [reflexivity|].
  destruct (e2 <=? F32.emax - F32.prec); [split; [reflexivity | lia] | reflexivity].
Qed.

(** Rounding does not fall below a representable bound [t * 2^k] that
    the exact value [M * 2^E] reaches. *)
Lemma binary_round_aux_lower (sx : bool) (M E : Z) (l : location) (k t : Z) :
  0 <= M -> emin F32.prec F32.emax <= k -> 1 <= t < 2 ^ 24 ->
  t <= Z.shiftl M (E - k) ->
  at_least_s sx k t (binary_round_aux F32.prec F32.emax sx M E l).
Proof.
  intros HM Hk Ht Hle. unfold binary_round_aux.
  pose proof (shr_fexp_small M E l HM) as Hs1.
  pose proof (shr_fexp_lower M E l k t HM Hk ltac:(lia) Hle) as Hl1.
  destruct (shr_fexp F32.prec F32.emax M E l) as [mrs1 e1]. simpl in Hs1, Hl1.
  set (m2 := round_nearest_even (shr_m mrs1) (loc_of_shr_record mrs1)).
  assert (Hm2 : shr_m mrs1 <= m2).
  { pose proof (round_nearest_even_ge (shr_m mrs1) (loc_of_shr_record mrs1)). lia. }
  assert (Hl2 : t <= Z.shiftl m2 (e1 - k)).
  { eapply Z.le_trans; [exact Hl1|]. apply shiftl_mono. lia. }
  pose proof (shr_fexp_small m2 e1 loc_Exact ltac:(lia)) as Hs3.
  pose proof (shr_fexp_lower m2 e1 loc_Exact k t ltac:(lia) Hk ltac:(lia) Hl2) as Hl3.
  destruct (shr_fexp F32.prec F32.emax m2 e1 loc_Exact) as [mrs2 e2]. simpl in Hs3, Hl3.
  destruct (shr_m mrs2) as [|p|p]; try lia.
  - rewrite Z.shiftl_0_l in Hl3. lia.
  - destruct (e2 <=? F32.emax - F32.prec); simpl; [repeat split; [lia | assumption] | reflexivity].
Qed.

Lemma pos_iter_xO (m d : positive) : Zpos (Pos.iter xO m d) = Zpos m * 2 ^ Zpos d.
Proof.
  induction d as [|d IH] using Pos.peano_ind.
  - simpl. lia.
  - rewrite Pos.iter_succ, Pos2Z.inj_succ, Z.pow_succ_r by lia.
    change (Zpos (Pos.iter xO m d)~0) with (2 * Zpos (Pos.iter xO m d)). rewrite IH. lia.
Qed.

(** [shl_align] keeps the value and never raises the exponent. *)
Lemma shl_align_spec (mx : positive) (ex ex' : Z) :
  snd (shl_align mx ex ex') = Z.min ex ex'
  /\ Zpos (fst (shl_align mx ex ex')) = Z.shiftl (Zpos mx) (ex - snd (shl_align mx ex ex')).
Proof.
  unfold shl_align. destruct (ex' - ex) as [|d|d] eqn:Hd; simpl.
  - split; [lia|]. rewrite Z.sub_diag. reflexivity.
  - split; [lia|]. rewrite Z.sub_diag. reflexivity.
  - split; [lia|]. rewrite pos_iter_xO, Z.shiftl_mul_pow2 by lia. f_equal. f_equal. lia.
Qed.

Lemma shl_align_shiftl (mx : positive) (ex ex' k : Z) :
  Z.shiftl (Zpos (fst (shl_align mx ex ex'))) (snd (shl_align mx ex ex') - k)
  = Z.shiftl (Zpos mx) (ex - k).
Proof.
  destruct (shl_align_spec mx ex ex') as [Hs ->].
  rewrite Z.shiftl_shiftl by lia. f_equal. lia.
Qed.

Lemma binary_round_lower (sx : bool) (mx : positive) (ex k t : Z) :
  emin F32.prec F32.emax <= k -> 1 <= t < 2 ^ 24 ->
  t <= Z.shiftl (Zpos mx) (ex - k) ->
  at_least_s sx k t (binary_round F32.prec F32.emax sx mx ex).
Proof.
  intros Hk Ht Hle. unfold binary_round.
  pose proof (shl_align_shiftl mx ex
    (fexp F32.prec F32.emax (Zpos (digits2_pos mx) + ex)) k) as Ha.
  destruct (shl_align mx ex _) as [mz ez]. simpl in Ha.
  apply binary_round_aux_lower; try assumption; [lia|]. rewrite Ha. assumption.
Qed.

Lemma binary_round_shape (sx : bool) (mx : positive) (ex : Z) :
  match binary_round F32.prec F32.emax sx mx ex with
  | S754_zero s | S754_infinity s => s = sx
  | S754_finite s m e => s = sx /\ Zpos m < 2 ^ 24
  | S754_nan => False
  end.
Proof.
  unfold binary_round. destruct (shl_align mx ex _) as [mz ez].
  apply binary_round_aux_shape. lia.
Qed.

Lemma shiftl_add_le (a b n : Z) :
  0 <= a -> 0 <= b -> Z.shiftl a n + Z.shiftl b n <= Z.shiftl (a + b) n.
Proof.
  intros Ha Hb. destruct (Z.le_gt_cases 0 n) as [Hn | Hn].
  - rewrite !Z.shiftl_mul_pow2 by assumption. lia.
  - rewrite !Z.shiftl_div_pow2 by lia.
    assert (Hp : 0 < 2 ^ (- n)) by (apply Z.pow_pos_nonneg; lia).
    apply Z.div_le_lower_bound; [assumption|].
    pose proof (Z.mul_div_le a _ Hp). pose proof (Z.mul_div_le b _ Hp). lia.
Qed.

(** ** The operations of the routine *)

Lemma at_least_nonneg (k t : Z) (a : float) : at_least k t a -> nonneg a.
Proof.
  unfold at_least, at_least_s. destruct a as [| [] | | [] m e]; simpl; intuition congruence.
Qed.

Lemma at_least_weaken (k t t' : Z) (a : float) : t' <= t -> at_least k t a -> at_least k t' a.
Proof.
  intros Ht. unfold at_least, at_least_s.
  destruct a as [| [] | | [] m e]; simpl; intuition (try congruence; try lia).
Qed.

(** A square is a NaN or is not negative. *)
Lemma mul_self_nonneg (q : float) : nonneg (F32.mul q q).
Proof.
  destruct q as [[] | [] | | s m e]; simpl; try exact I.
  pose proof (binary_round_aux_shape (xorb s s) (Zpos (m * m)) (e + e) loc_Exact ltac:(lia)) as H.
  unfold F32.mul, SFmul.
  destruct (binary_round_aux F32.prec F32.emax (xorb s s) (Zpos (m * m)) (e + e) loc_Exact)
    as [s' | s' | | s' m' e']; destruct s; simpl in *; intuition (subst; simpl; auto; discriminate).
Qed.

(** The sum of two positive values reaches what its terms reach. *)
Lemma add_finite_lower (mx my : positive) (ex ey k t : Z) :
  emin F32.prec F32.emax <= k -> 1 <= t < 2 ^ 24 ->
  t <= Z.shiftl (Zpos mx) (ex - k) + Z.shiftl (Zpos my) (ey - k) ->
  at_least k t (F32.add (S754_finite false mx ex) (S754_finite false my ey)).
Proof.
  intros Hk Ht Hle. unfold F32.add, SFadd, cond_Zopp.
  pose proof (shl_align_spec mx ex (Z.min ex ey)) as [Hsx _].
  pose proof (shl_align_spec my ey (Z.min ex ey)) as [Hsy _].
  pose proof (shl_align_shiftl mx ex (Z.min ex ey) k) as Hax.
  pose proof (shl_align_shiftl my ey (Z.min ex ey) k) as Hay.
  destruct (shl_align mx ex (Z.min ex ey)) as [ax ez1].
  destruct (shl_align my ey (Z.min ex ey)) as [ay ez2].
  simpl in *. change (Zpos ax + Zpos ay) with (Zpos (ax + ay)).
  unfold binary_normalize. apply binary_round_lower; try assumption.
  eapply Z.le_trans; [exact Hle|].
  rewrite <- Hax, <- Hay.
  replace ez1 with (Z.min ex ey) by lia. replace ez2 with (Z.min ex ey) by lia.
  rewrite Pos2Z.inj_add. apply shiftl_add_le; lia.
Qed.

Lemma of_int_1 : F32.of_int 1 = S754_finite false 8388608 (-23).
Proof. reflexivity. Qed.

Lemma of_int_32 : F32.of_int 32 = S754_finite false 8388608 (-18).
Proof. reflexivity. Qed.

Lemma of_int_0 : F32.of_int 0 = S754_zero false.
Proof. reflexivity. Qed.

Lemma shiftl_nonneg_pos (m : positive) (n : Z) : 0 <= Z.shiftl (Zpos m) n.
Proof. apply Z.shiftl_nonneg. lia. Qed.

(** [1 + p] is a NaN or at least 1 when [p] is a NaN or not negative. *)
Lemma add_one_lower (p : float) :
  nonneg p -> F32.add (F32.of_int 1) p = S754_nan \/ at_least 0 1 (F32.add (F32.of_int 1) p).
Proof.
  rewrite of_int_1.
  destruct p as [[] | [] | | [] m e]; intros H; try contradiction.
  - right. vm_compute. intuition discriminate.
  - right. reflexivity.
  - left. reflexivity.
  - right. apply add_finite_lower; [unfold emin, F32.prec, F32.emax; lia | lia |].
    pose proof (shiftl_nonneg_pos m (e - 0)).
    change (Z.shiftl 8388608 (-23 - 0)) with 1. lia.
Qed.

(** The integer square root step keeps a value of at least 1 at least 1. *)
Lemma sqrt_core_lower (m : positive) (e : Z) :
  1 <= Z.shiftl (Zpos m) e ->
  0 <= fst (fst (SFsqrt_core_binary F32.prec F32.emax (Zpos m) e))
  /\ 1 <= Z.shiftl (fst (fst (SFsqrt_core_binary F32.prec F32.emax (Zpos m) e)))
                   (snd (fst (SFsqrt_core_binary F32.prec F32.emax (Zpos m) e))).
Proof.
  intros Hge. unfold SFsqrt_core_binary.
  set (e' := Z.min (fexp F32.prec F32.emax (Z.div2 (Zdigits2 (Zpos m) + e + 1))) (Z.div2 e)).
  assert (He' : 2 * e' <= e).
  { assert (2 * Z.div2 e <= e).
    { rewrite Z.div2_div. apply Z.mul_div_le. lia. }
    unfold e'. lia. }
  set (m' := match e - 2 * e' with
             | 0 => Zpos m
             | Zpos _ => Z.shiftl (Zpos m) (e - 2 * e')
             | Zneg _ => 0
             end).
  assert (Hm' : m' = Zpos m * 2 ^ (e - 2 * e')).
  { unfold m'. destruct (e - 2 * e') as [|p|p] eqn:Hs; try lia.
    rewrite Z.shiftl_mul_pow2 by lia. reflexivity. }
  clearbody m'.
  pose proof (Z.sqrtrem_sqrt m') as Hq.
  destruct (Z.sqrtrem m') as [q r]. simpl in Hq. subst q. simpl.
  assert (Hp : 0 < 2 ^ (e - 2 * e')) by (apply Z.pow_pos_nonneg; lia).
  assert (Hm1 : 1 <= m') by nia.
  split; [apply Z.sqrt_nonneg|].
  destruct (Z.le_gt_cases 0 e') as [Hpos | Hneg].
  - rewrite Z.shiftl_mul_pow2 by assumption.
    assert (1 <= Z.sqrt m').
    { change 1 with (Z.sqrt 1) at 1. apply Z.sqrt_le_mono. assumption. }
    assert (0 < 2 ^ e') by (apply Z.pow_pos_nonneg; lia). nia.
  - rewrite Z.shiftl_div_pow2 by lia.
    assert (Hpe : 0 < 2 ^ (- e')) by (apply Z.pow_pos_nonneg; lia).
    apply Z.div_le_lower_bound; [assumption|]. rewrite Z.mul_1_r.
    rewrite <- (Z.sqrt_square (2 ^ (- e'))) by lia.
    apply Z.sqrt_le_mono. rewrite <- Z.pow_add_r by lia. rewrite Hm'.
    destruct (Z.le_gt_cases 0 e) as [He | He].
    + assert (2 ^ (- e' + - e') <= 2 ^ (e - 2 * e')) by (apply Z.pow_le_mono_r; lia). nia.
    + rewrite Z.shiftl_div_pow2 in Hge by lia.
      assert (Hpe2 : 0 < 2 ^ (- e)) by (apply Z.pow_pos_nonneg; lia).
      assert (Hm2 : 2 ^ (- e) <= Zpos m).
      { destruct (Z.lt_ge_cases (Zpos m) (2 ^ (- e))) as [Hlt | Hle]; [|assumption].
        rewrite Z.div_small in Hge by lia. lia. }
      replace (- e' + - e') with (- e + (e - 2 * e')) by lia.
      rewrite Z.pow_add_r by lia. nia.
Qed.

Lemma sqrt_lower (z : float) : at_least 0 1 z -> at_least 0 1 (F32.sqrt z).
Proof.
  unfold at_least at 1, at_least_s.
  destruct z as [s | s | | s m e]; try contradiction.
  { intros ->. reflexivity. }
  intros (-> & _ & Hge). rewrite Z.sub_0_r in Hge.
  unfold F32.sqrt, SFsqrt.
  pose proof (sqrt_core_lower m e Hge) as [Hq Hl].
  destruct (SFsqrt_core_binary F32.prec F32.emax (Zpos m) e) as [[mz ez] lz]. simpl in Hq, Hl.
  apply binary_round_aux_lower; try assumption;
    [unfold emin, F32.prec, F32.emax; lia | lia | rewrite Z.sub_0_r; assumption].
Qed.

(** [sqrt(1 + q * q)] is a NaN or at least 1. *)
Lemma slope_length_lower (a b : float) :
  slope_length a b = S754_nan \/ at_least 0 1 (slope_length a b).
Proof.
  unfold slope_length.
  destruct (add_one_lower _ (mul_self_nonneg (F32.div a b))) as [-> | H].
  - left. reflexivity.
  - right. apply sqrt_lower. assumption.
Qed.

(** Scaling a value of at least 1 by the cell size gives at least 32. *)
Lemma mul_32_lower (w : float) : at_least 0 1 w -> at_least 5 1 (F32.mul w (F32.of_int 32)).
Proof.
  rewrite of_int_32.
  unfold at_least at 1, at_least_s.
  destruct w as [s | s | | s m e]; try contradiction.
  { intros ->. reflexivity. }
  intros (-> & _ & Hge). rewrite Z.sub_0_r in Hge.
  unfold F32.mul, SFmul. simpl xorb.
  apply binary_round_aux_lower; [lia | unfold emin, F32.prec, F32.emax; lia | lia |].
  rewrite Pos2Z.inj_mul. change (Zpos 8388608) with (2 ^ 23).
  rewrite <- Z.shiftl_mul_pow2 by lia.
  rewrite Z.shiftl_shiftl by lia.
  replace (23 + (e + -18 - 5)) with e by lia. assumption.
Qed.

Lemma ray_step_size_ok (rd : Vector2d float) :
  step_ok (Vector2d.x (compute_ray_step_size 32 rd))
  /\ step_ok (Vector2d.y (compute_ray_step_size 32 rd)).
Proof.
  unfold compute_ray_step_size, step_ok. simpl. split.
  - destruct (slope_length_lower (Vector2d.y rd) (Vector2d.x rd)) as [-> | H].
    + left. reflexivity.
    + right. apply mul_32_lower. assumption.
  - destruct (slope_length_lower (Vector2d.x rd) (Vector2d.y rd)) as [-> | H].
    + left. reflexivity.
    + right. apply mul_32_lower. assumption.
Qed.

(** A fraction of a cell times a step size is a NaN or not negative. *)
Lemma mul_fraction_nonneg (f s : float) :
  finite_nonneg f = true -> step_ok s -> nonneg (F32.mul f s).
Proof.
  intros Hf [-> | Hs].
  - destruct f as [[] | | | [] ? ?]; try discriminate; exact I.
  - unfold at_least, at_least_s in Hs.
    destruct f as [[] | | | [] mf ef]; try discriminate;
      destruct s as [ss | ss | | ss ms es]; try contradiction.
    + exact I.
    + destruct Hs as (-> & _). exact I.
    + subst ss. exact I.
    + destruct Hs as (-> & _). unfold F32.mul, SFmul. simpl xorb.
      pose proof (binary_round_aux_shape false (Zpos (mf * ms)) (ef + es) loc_Exact
                    ltac:(lia)) as H.
      destruct (binary_round_aux F32.prec F32.emax false (Zpos (mf * ms)) (ef + es) loc_Exact)
        as [s' | s' | | s' m' e']; simpl in *; intuition (subst; auto).
Qed.

Lemma step_ok_nonneg (s : float) : step_ok s -> nonneg s.
Proof. intros [-> | H]; [exact I | eapply at_least_nonneg; eassumption]. Qed.

Lemma max_distance_value : max_distance = S754_finite false 9830400 (-10).
Proof. reflexivity. Qed.

(** What [<] says of two positive finite values. *)
Lemma ltb_finite (m mc : positive) (e ec : Z) :
  SFltb (S754_finite false m e) (S754_finite false mc ec) = true ->
  e < ec \/ (e = ec /\ Zpos m < Zpos mc).
Proof.
  unfold SFltb, SFcompare.
  destruct (Z.compare_spec e ec) as [He | He | He]; try discriminate; [|tauto].
  destruct (Pos.compare_cont Eq m mc) eqn:Hc; try discriminate.
  intros _. right. split; [assumption | exact Hc].
Qed.

(** An accumulator below the ceiling has not used up its 300 cells. *)
Lemma below_ceiling (r : float) :
  nonneg r -> F32.ltb r max_distance = true ->
  match r with
  | S754_zero false => True
  | S754_finite false m e => Z.shiftl (Zpos m) (e - 5) < 300
  | _ => False
  end.
Proof.
  rewrite max_distance_value.
  destruct r as [[] | [] | | [] m e]; try contradiction; try discriminate; try tauto.
  intros Hm Hlt. apply ltb_finite in Hlt. unfold nonneg in Hm.
  rewrite Z.shiftl_div_pow2 by lia.
  assert (Hp : 0 < 2 ^ (- (e - 5))) by (apply Z.pow_pos_nonneg; lia).
  apply Z.div_lt_upper_bound; [assumption|].
  destruct Hlt as [He | [-> Hlt]].
  - assert (2 ^ 16 <= 2 ^ (- (e - 5))) by (apply Z.pow_le_mono_r; lia).
    change (2 ^ 16) with 65536 in *. change (2 ^ 24) with 16777216 in *. nia.
  - change (2 ^ (- (-10 - 5))) with 32768. lia.
Qed.

(** One addition of a step size moves an accumulator that is below the
    ceiling at least one cell further. *)
Lemma add_step_progress (r s : float) :
  nonneg r -> step_ok s -> F32.ltb r max_distance = true ->
  nonneg (F32.add r s) /\ progress r + 1 <= progress (F32.add r s).
Proof.
  intros Hr Hs Hlt. pose proof (below_ceiling r Hr Hlt) as Hb.
  destruct r as [[] | [] | | [] mr er]; try contradiction.
  - (* r = +0 *)
    destruct Hs as [-> | Hs]; [split; [exact I | simpl; lia]|].
    unfold at_least, at_least_s in Hs.
    destruct s as [ss | ss | | ss ms es]; try contradiction.
    + subst ss. split; [exact I | simpl; lia].
    + destruct Hs as (-> & Hm & Hge). simpl. split; [assumption | lia].
  - (* r finite *)
    destruct Hs as [-> | Hs]; [split; [exact I | simpl; lia]|].
    unfold at_least, at_least_s in Hs.
    destruct s as [ss | ss | | ss ms es]; try contradiction.
    + subst ss. split; [exact I | simpl; lia].
    + destruct Hs as (-> & Hm & Hge).
      pose proof (shiftl_nonneg_pos mr (er - 5)) as H0.
      assert (Ha : at_least 5 (Z.shiftl (Zpos mr) (er - 5) + 1)
                     (F32.add (S754_finite false mr er) (S754_finite false ms es))).
      { apply add_finite_lower; [unfold emin, F32.prec, F32.emax; lia | | lia].
        change (2 ^ 24) with 16777216. lia. }
      split; [eapply at_least_nonneg; eassumption|].
      unfold progress at 1. rewrite Z.min_r by lia.
      unfold at_least, at_least_s in Ha.
      destruct (F32.add (S754_finite false mr er) (S754_finite false ms es))
        as [sa | sa | | sa ma ea]; try contradiction.
      * subst sa. simpl. lia.
      * destruct Ha as (-> & _ & Hge'). simpl. lia.
Qed.

(** A finite value that reaches [t] compares above a smaller constant. *)
Lemma finite_above (mc m : positive) (ec e t : Z) :
  ec <= 0 -> Zpos m < 2 ^ 24 -> t <= Z.shiftl (Zpos m) e ->
  2 ^ 24 <= t * 2 ^ (1 - ec) -> Zpos mc < t * 2 ^ (- ec) ->
  SFltb (S754_finite false mc ec) (S754_finite false m e) = true.
Proof.
  intros Hec Hm Ht HA HB. unfold SFltb, SFcompare.
  destruct (Z.compare_spec ec e) as [<- | He | He]; try reflexivity.
  - pose proof (Pos.compare_spec mc m) as Hc. unfold Pos.compare in Hc.
    destruct Hc as [Heq | Hlt | Hgt]; try reflexivity; exfalso.
    + subst m. rewrite Z.shiftl_div_pow2 in Ht by lia.
      assert (Hp : 0 < 2 ^ (- ec)) by (apply Z.pow_pos_nonneg; lia).
      pose proof (Z.mul_div_le (Zpos mc) _ Hp). nia.
    + rewrite Z.shiftl_div_pow2 in Ht by lia.
      assert (Hp : 0 < 2 ^ (- ec)) by (apply Z.pow_pos_nonneg; lia).
      pose proof (Z.mul_div_le (Zpos m) _ Hp). nia.
  - exfalso. rewrite Z.shiftl_div_pow2 in Ht by lia.
    assert (Hp : 0 < 2 ^ (- e)) by (apply Z.pow_pos_nonneg; lia).
    assert (Hq : 2 ^ (1 - ec) <= 2 ^ (- e)) by (apply Z.pow_le_mono_r; lia).
    pose proof (Z.mul_div_le (Zpos m) _ Hp).
    assert (0 < 2 ^ (1 - ec)) by (apply Z.pow_pos_nonneg; lia).
    assert (0 <= Zpos m / 2 ^ (- e)) by (apply Z.div_pos; lia).
    nia.
Qed.

Lemma of_int_lower (n t : Z) : 1 <= t < 2 ^ 24 -> t <= n -> at_least 0 t (F32.of_int n).
Proof.
  intros Ht Hn. unfold F32.of_int, binary_normalize.
  destruct n as [|p|p]; try lia.
  apply binary_round_lower; [unfold emin, F32.prec, F32.emax; lia | assumption |].
  rewrite Z.shiftl_0_r. assumption.
Qed.

Lemma of_int_below_zero (n : Z) : n < 0 -> F32.ltb (F32.of_int n) (F32.of_int 0) = true.
Proof.
  intros Hn. unfold F32.of_int at 1, binary_normalize.
  destruct n as [|p|p]; try lia.
  pose proof (binary_round_lower true p 0 0 1 ltac:(unfold emin, F32.prec, F32.emax; lia)
                ltac:(change (2 ^ 24) with 16777216; lia)
                ltac:(rewrite Z.shiftl_0_r; lia)) as H.
  unfold at_least_s in H.
  destruct (binary_round F32.prec F32.emax true p 0) as [s | s | | s m e]; try contradiction.
  - subst s. reflexivity.
  - destruct H as (-> & _). reflexivity.
Qed.

Lemma of_int_above (n c : Z) (mc : positive) (ec : Z) :
  F32.of_int c = S754_finite false mc ec ->
  ec <= 0 -> 0 <= c -> c + 1 < 2 ^ 24 ->
  2 ^ 24 <= (c + 1) * 2 ^ (1 - ec) -> Zpos mc < (c + 1) * 2 ^ (- ec) ->
  c < n -> F32.gtb (F32.of_int n) (F32.of_int c) = true.
Proof.
  intros Hc Hec Hc0 Hc1 HA HB Hn.
  pose proof (of_int_lower n (c + 1) ltac:(lia) ltac:(lia)) as H.
  unfold F32.gtb, F32.ltb. rewrite Hc.
  unfold at_least, at_least_s in H.
  destruct (F32.of_int n) as [s | s | | s m e]; try contradiction.
  - subst s. reflexivity.
  - destruct H as (-> & Hm & Hge). rewrite Z.sub_0_r in Hge.
    eapply finite_above; eassumption.
Qed.

(** A coordinate that passes a guard is an integer of the world. *)
Lemma in_world_x (n : Z) :
  F32.ltb (F32.of_int n) (F32.of_int 0) = false ->
  F32.gtb (F32.of_int n) (F32.of_int constants.screen_width) = false ->
  0 <= n <= 960.
Proof.
  intros H0 H1. change constants.screen_width with 960 in H1. split.
  - destruct (Z.lt_ge_cases n 0) as [Hn | Hn]; [|assumption].
    rewrite of_int_below_zero in H0 by assumption. discriminate.
  - destruct (Z.lt_ge_cases 960 n) as [Hn | Hn]; [|lia].
    assert (H : F32.gtb (F32.of_int n) (F32.of_int 960) = true)
      by (apply (of_int_above n 960 15728640 (-14)); [reflexivity | lia ..]).
    congruence.
Qed.

Lemma in_world_y (n : Z) :
  F32.ltb (F32.of_int n) (F32.of_int 0) = false ->
  F32.gtb (F32.of_int n) (F32.of_int constants.screen_height) = false ->
  0 <= n <= 640.
Proof.
  intros H0 H1. change constants.screen_height with 640 in H1. split.
  - destruct (Z.lt_ge_cases n 0) as [Hn | Hn]; [|assumption].
    rewrite of_int_below_zero in H0 by assumption. discriminate.
  - destruct (Z.lt_ge_cases 640 n) as [Hn | Hn]; [|lia].
    assert (H : F32.gtb (F32.of_int n) (F32.of_int 640) = true)
      by (apply (of_int_above n 640 10485760 (-14)); [reflexivity | lia ..]).
    congruence.
Qed.

Lemma start_ok_table : forallb start_ok (map Z.of_nat (seq 0 961)) = true.
Proof. vm_compute. reflexivity. Qed.

Lemma start_ok_all (n : Z) : 0 <= n <= 960 -> start_ok n = true.
Proof.
  intros Hn. pose proof start_ok_table as H.
  rewrite forallb_forall in H. apply H.
  apply in_map_iff. exists (Z.to_nat n). split; [lia|].
  apply in_seq. lia.
Qed.

(** * The routine *)

(** ** Before the loop *)

Lemma axis_setup_nonneg (dir : float) (n : Z) (s : float) :
  0 <= n <= 960 -> step_ok s ->
  nonneg (snd (axis_setup 32 dir (F32.of_int n) n (n - Z.rem n 32) s)).
Proof.
  intros Hn Hs. pose proof (start_ok_all n Hn) as Hok. unfold start_ok in Hok.
  destruct (F32.trunc (F32.of_int n)) as [z|]; [|discriminate].
  apply andb_prop in Hok as [Hok H2]. apply andb_prop in Hok as [_ H1].
  unfold axis_setup. destruct (F32.ltb dir (F32.of_int 0)); simpl.
  - destruct (Z.rem n 32 =? 0).
    + apply step_ok_nonneg. assumption.
    + apply mul_fraction_nonneg; assumption.
  - apply mul_fraction_nonneg; assumption.
Qed.

Lemma to_int_of_int (cv : conversion) (n : Z) :
  0 <= n <= 960 -> to_int cv (F32.of_int n) = Ok n.
Proof.
  intros Hn. pose proof (start_ok_all n Hn) as Hok. unfold start_ok in Hok.
  unfold to_int. destruct (F32.trunc (F32.of_int n)) as [z|]; [|discriminate].
  apply andb_prop in Hok as [Hok _]. apply andb_prop in Hok as [Hz _].
  apply Z.eqb_eq in Hz. subst z. reflexivity.
Qed.

(** The integer coordinates of a point that passes a guard. *)
Lemma in_world (px py : Z) :
  out_of_world (Vector2d.mk (F32.of_int px) (F32.of_int py)) = false ->
  0 <= px <= 960 /\ 0 <= py <= 640.
Proof.
  unfold out_of_world. simpl. intros H.
  apply orb_false_elim in H as [H Hy1]. apply orb_false_elim in H as [H Hy0].
  apply orb_false_elim in H as [Hx0 Hx1].
  split; [apply in_world_x | apply in_world_y]; assumption.
Qed.

Lemma to_int_indefinite (v : Z) (a : float) : exists z, to_int (Indefinite v) a = Ok z.
Proof. unfold to_int. destruct (F32.trunc a); eauto. Qed.

Lemma to_int_fuel (cv : conversion) (a : float) : to_int cv a <> OutOfFuel.
Proof. unfold to_int. destruct (F32.trunc a); [|destruct cv]; discriminate. Qed.

Lemma bind_fuel {A B : Type} (m : result A) (k : A -> result B) :
  m <> OutOfFuel -> (forall a, k a <> OutOfFuel) -> bind m k <> OutOfFuel.
Proof. destruct m; simpl; auto. Qed.

Lemma bind_ok {A B : Type} (m : result A) (k : A -> result B) :
  (exists a, m = Ok a) -> (forall a, exists b, k a = Ok b) -> exists b, bind m k = Ok b.
Proof. intros [a ->] H. apply H. Qed.

Lemma initial_map_x_fuel cv cs d a : initial_map_x cv cs d a <> OutOfFuel.
Proof. unfold initial_map_x. apply bind_fuel; [apply to_int_fuel | discriminate]. Qed.

Lemma initial_map_y_fuel cv cs lx ly d i c a : initial_map_y cv cs lx ly d i c a <> OutOfFuel.
Proof.
  unfold initial_map_y. destruct (F32.ltb lx ly); [discriminate|].
  destruct (F32.ltb d _); [apply to_int_fuel | discriminate].
Qed.

Lemma initial_map_x_indefinite v cs d a : exists z, initial_map_x (Indefinite v) cs d a = Ok z.
Proof. unfold initial_map_x. apply bind_ok; [apply to_int_indefinite | eauto]. Qed.

Lemma initial_map_y_indefinite v cs lx ly d i c a :
  exists z, initial_map_y (Indefinite v) cs lx ly d i c a = Ok z.
Proof.
  unfold initial_map_y. destruct (F32.ltb lx ly); [eauto|].
  destruct (F32.ltb d _); [apply to_int_indefinite | eauto].
Qed.

Lemma int_rem_32 (a : Z) : int_rem a 32 = Ok (Z.rem a 32).
Proof. reflexivity. Qed.

Lemma int_rem_fuel (a b : Z) : int_rem a b <> OutOfFuel.
Proof. unfold int_rem. destruct (b =? 0); discriminate. Qed.

Lemma int_rem_defined (a b : Z) : b <> 0 -> exists z, int_rem a b = Ok z.
Proof. intros Hb. unfold int_rem. apply Z.eqb_neq in Hb. rewrite Hb. eauto. Qed.

(** What [setup] hands to the loop. *)
Lemma setup_inv (cv : conversion) (g : Game) (r : Ray) (t : Traversal) :
  cell_size_ g = 32 -> out_of_world (player_pos g) = false ->
  setup cv g = Ok (r, t) ->
  loop_inv r t /\ tile_found t = false /\ distance t = F32.of_int 0
  /\ ray_start r = player_pos g
  /\ ray_dir r = Vector2d.SetLength (direction g) (F32.of_int 32)
  /\ unit_ray_dir r = Vector2d.SetLength (direction g) (F32.of_int 1)
  /\ ray_step_size r = compute_ray_step_size 32 (ray_dir r).
Proof.
  intros Hcs Hw. unfold setup. cbv zeta. rewrite Hcs.
  set (px := SDL_Rect.x (box_ (player_ g)) + Z.quot (SDL_Rect.w (box_ (player_ g))) 2).
  set (py := SDL_Rect.y (box_ (player_ g)) + Z.quot (SDL_Rect.h (box_ (player_ g))) 2).
  change (Vector2d.x (player_pos g)) with (F32.of_int px).
  change (Vector2d.y (player_pos g)) with (F32.of_int py).
  destruct (in_world px py Hw) as [Hpx Hpy].
  rewrite (to_int_of_int cv px Hpx), (to_int_of_int cv py) by lia. cbn [bind].
  rewrite !int_rem_32. cbn [bind].
  set (rd := Vector2d.SetLength (direction g) (F32.of_int 32)).
  destruct (ray_step_size_ok rd) as [Hsx Hsy].
  pose proof (axis_setup_nonneg (Vector2d.x rd) px _ Hpx Hsx) as Hlx.
  pose proof (axis_setup_nonneg (Vector2d.y rd) py _ ltac:(lia) Hsy) as Hly.
  destruct (initial_map_x _ _ _ _) as [map_x | |]; cbn [bind]; try discriminate.
  destruct (initial_map_y _ _ _ _ _ _ _ _) as [map_y | |]; cbn [bind]; try discriminate.
  intros H. injection H as <- <-. unfold loop_inv. cbn. tauto.
Qed.

Lemma setup_fuel (cv : conversion) (g : Game) : setup cv g <> OutOfFuel.
Proof.
  unfold setup. cbv zeta.
  apply bind_fuel; [apply to_int_fuel | intros ix].
  apply bind_fuel; [apply to_int_fuel | intros iy].
  apply bind_fuel; [apply int_rem_fuel | intros rx].
  apply bind_fuel; [apply int_rem_fuel | intros ry].
  apply bind_fuel; [apply initial_map_x_fuel | intros mx].
  apply bind_fuel; [apply initial_map_y_fuel | intros my]. discriminate.
Qed.

Lemma setup_indefinite (v : Z) (g : Game) :
  cell_size_ g <> 0 -> exists rt, setup (Indefinite v) g = Ok rt.
Proof.
  intros Hcs. unfold setup. cbv zeta.
  apply bind_ok; [apply to_int_indefinite | intros ix].
  apply bind_ok; [apply to_int_indefinite | intros iy].
  apply bind_ok; [apply int_rem_defined; exact Hcs | intros rx].
  apply bind_ok; [apply int_rem_defined; exact Hcs | intros ry].
  apply bind_ok; [apply initial_map_x_indefinite | intros mx].
  apply bind_ok; [apply initial_map_y_indefinite | intros my]. eauto.
Qed.

Lemma setup_tile_found (cv : conversion) (g : Game) (r : Ray) (t : Traversal) :
  setup cv g = Ok (r, t) -> tile_found t = false.
Proof.
  unfold setup. cbv zeta.
  destruct (to_int cv (Vector2d.x (player_pos g))) as [ix | |]; cbn [bind]; try discriminate.
  destruct (to_int cv (Vector2d.y (player_pos g))) as [iy | |]; cbn [bind]; try discriminate.
  destruct (int_rem ix _) as [rx | |]; cbn [bind]; try discriminate.
  destruct (int_rem iy _) as [ry | |]; cbn [bind]; try discriminate.
  destruct (initial_map_x _ _ _ _) as [mx | |]; cbn [bind]; try discriminate.
  destruct (initial_map_y _ _ _ _ _ _ _ _) as [my | |]; cbn [bind]; try discriminate.
  intros H. injection H as _ <-. reflexivity.
Qed.

(** ** The loop ends *)

Section Loop.

Variables (cs cw : Z) (r : Ray).

Lemma progress_range (a : float) : 0 <= progress a <= 300.
Proof.
  destruct a as [s | s | | [] m e]; simpl; try lia.
  pose proof (shiftl_nonneg_pos m (e - 5)). lia.
Qed.

Lemma covered_range (t : Traversal) : 0 <= covered t <= 600.
Proof.
  unfold covered.
  pose proof (progress_range (Vector2d.x (ray_length t))).
  pose proof (progress_range (Vector2d.y (ray_length t))). lia.
Qed.

(** The wall test changes [tile_found] and the board, nothing else. *)
Lemma check_cell_cases (t : Traversal) (b : list Cell) :
  check_cell cs cw t b = (t, b)
  \/ exists c,
       0 <= cell_index cs cw (map_check t) < Z.of_nat (length b)
       /\ b !! Z.to_nat (cell_index cs cw (map_check t)) = Some c
       /\ is_wall_ c = true
       /\ check_cell cs cw t b
          = (mkTraversal (map_check t) (ray_length t) (distance t) true,
             <[Z.to_nat (cell_index cs cw (map_check t)) := highlight c]> b).
Proof.
  unfold check_cell.
  destruct ((0 <=? cell_index cs cw (map_check t))
            && (cell_index cs cw (map_check t) <? Z.of_nat (length b))) eqn:Hr; [|auto].
  destruct (b !! Z.to_nat (cell_index cs cw (map_check t))) as [c|] eqn:Hc; [|auto].
  destruct (is_wall_ c) eqn:Hw; [|auto].
  right. exists c. apply andb_prop in Hr as [H0 H1].
  apply Z.leb_le in H0. apply Z.ltb_lt in H1. auto.
Qed.

Lemma check_cell_fields (t : Traversal) (b : list Cell) :
  map_check (fst (check_cell cs cw t b)) = map_check t
  /\ ray_length (fst (check_cell cs cw t b)) = ray_length t
  /\ distance (fst (check_cell cs cw t b)) = distance t.
Proof.
  destruct (check_cell_cases t b) as [-> | (c & _ & _ & _ & ->)]; simpl; auto.
Qed.

(** A pass through the loop body that is followed by another one has
    covered one more cell. *)
Lemma loop_body_progress (t : Traversal) (b : list Cell) :
  loop_inv r t ->
  loop_test (fst (loop_body cs cw r (t, b))) = true ->
  loop_inv r (fst (loop_body cs cw r (t, b)))
  /\ covered t + 1 <= covered (fst (loop_body cs cw r (t, b))).
Proof.
  intros (Hsx & Hsy & Hlx & Hly) Ht.
  unfold loop_body, loop_test in *. cbn [fst snd] in *.
  destruct (check_cell_fields (advance r t) b) as (_ & Hl & Hd).
  apply andb_prop in Ht as [_ Ht]. rewrite Hd in Ht.
  unfold loop_inv, covered. rewrite Hl. clear Hl Hd.
  unfold advance in *.
  destruct (F32.ltb (Vector2d.x (ray_length t)) (Vector2d.y (ray_length t))); cbn in *.
  - destruct (add_step_progress _ _ Hlx Hsx Ht) as [Hn Hp]. repeat split; try assumption. lia.
  - destruct (add_step_progress _ _ Hly Hsy Ht) as [Hn Hp]. repeat split; try assumption. lia.
Qed.

Lemma traverse_S (n : nat) (s : Traversal * list Cell) :
  traverse (S n) cs cw r s
  = if loop_test (fst s) then traverse n cs cw r (loop_body cs cw r s) else Ok s.
Proof. reflexivity. Qed.

Lemma traverse_after (n : nat) :
  forall (t : Traversal) (b : list Cell),
    loop_inv r t -> 600 - covered t < Z.of_nat n ->
    exists s, traverse n cs cw r (loop_body cs cw r (t, b)) = Ok s.
Proof.
  induction n as [|n IH]; intros t b Hinv Hc.
  - pose proof (covered_range t). lia.
  - cbn [traverse].
    destruct (loop_test (fst (loop_body cs cw r (t, b)))) eqn:Ht; [|eauto].
    destruct (loop_body_progress t b Hinv Ht) as [Hinv' Hc'].
    destruct (loop_body cs cw r (t, b)) as [t2 b2]. cbn [fst] in *.
    apply IH; [assumption | lia].
Qed.

Lemma traverse_undefined_free (n : nat) :
  forall s, traverse n cs cw r s <> Undefined.
Proof.
  induction n as [|n IH]; intros s; cbn [traverse]; destruct (loop_test (fst s));
    try discriminate. apply IH.
Qed.

(** The loop ends within [traversal_fuel] passes. *)
Lemma traverse_ends (t : Traversal) (b : list Cell) :
  loop_inv r t -> exists s, traverse traversal_fuel cs cw r (t, b) = Ok s.
Proof.
  intros Hinv. change traversal_fuel with (S 601). rewrite traverse_S. cbn [fst].
  destruct (loop_test t); [|eauto].
  apply traverse_after; [assumption|]. pose proof (covered_range t). lia.
Qed.

(** ** What the loop does to the board *)

Lemma advance_tile_found (t : Traversal) :
  tile_found (advance r t) = tile_found t.
Proof. unfold advance. destruct (F32.ltb _ _); reflexivity. Qed.

Lemma traverse_stop (n : nat) (s : Traversal * list Cell) :
  loop_test (fst s) = false -> traverse n cs cw r s = Ok s.
Proof. intros H. destruct n; cbn [traverse]; rewrite H; reflexivity. Qed.

(** The loop leaves the board alone until it finds a wall, and then sets
    the highlight of the one cell it stopped on. *)
Lemma traverse_frame (n : nat) :
  forall (t : Traversal) (b : list Cell) (t' : Traversal) (b' : list Cell),
    tile_found t = false ->
    traverse n cs cw r (t, b) = Ok (t', b') ->
    (tile_found t' = false /\ b' = b)
    \/ (tile_found t' = true
        /\ exists c,
             0 <= cell_index cs cw (map_check t') < Z.of_nat (length b)
             /\ b !! Z.to_nat (cell_index cs cw (map_check t')) = Some c
             /\ is_wall_ c = true
             /\ b' = <[Z.to_nat (cell_index cs cw (map_check t')) := highlight c]> b).
Proof.
  induction n as [|n IH]; intros t b t' b' Hf H; cbn [traverse fst] in H;
    destruct (loop_test t) eqn:Ht; try discriminate;
    try (injection H as <- <-; left; split; [assumption | reflexivity]).
  unfold loop_body in H. cbn [fst snd] in H.
  destruct (check_cell_cases (advance r t) b) as [Hc | (c & Hr & Hl & Hw & Hc)];
    rewrite Hc in H.
  - apply IH in H; [assumption|]. rewrite advance_tile_found. assumption.
  - rewrite traverse_stop in H by reflexivity. injection H as <- <-.
    right. split; [reflexivity|]. exists c. cbn. auto.
Qed.

(** ** The loop reads the board through [is_wall_] alone *)

Lemma walls_agree_refl (b : list Cell) : walls_agree b b.
Proof. split; reflexivity. Qed.

Lemma walls_agree_sym (b b' : list Cell) : walls_agree b b' -> walls_agree b' b.
Proof. intros [Hl H]. split; [symmetry; assumption | intros i; symmetry; apply H]. Qed.

Lemma walls_agree_trans (b1 b2 b3 : list Cell) :
  walls_agree b1 b2 -> walls_agree b2 b3 -> walls_agree b1 b3.
Proof.
  intros [Hl1 H1] [Hl2 H2]. split; [congruence|]. intros i. rewrite H1. apply H2.
Qed.

Lemma walls_agree_highlight (b : list Cell) (i : nat) (c : Cell) :
  b !! i = Some c -> walls_agree b (<[i := highlight c]> b).
Proof.
  intros Hc. split; [rewrite length_insert; reflexivity|]. intros j.
  destruct (decide (i = j)) as [<- | Hne].
  - rewrite list_lookup_insert_eq by (eapply lookup_lt_Some; eassumption).
    rewrite Hc. reflexivity.
  - rewrite list_lookup_insert_ne by assumption. reflexivity.
Qed.

Lemma check_cell_walls_agree (t : Traversal) (b b' : list Cell) :
  walls_agree b b' ->
  fst (check_cell cs cw t b) = fst (check_cell cs cw t b')
  /\ walls_agree (snd (check_cell cs cw t b)) (snd (check_cell cs cw t b')).
Proof.
  intros Hs. pose proof Hs as [Hl Hw]. unfold check_cell. rewrite <- Hl.
  destruct ((0 <=? cell_index cs cw (map_check t))
            && (cell_index cs cw (map_check t) <? Z.of_nat (length b))); [|auto].
  specialize (Hw (Z.to_nat (cell_index cs cw (map_check t)))).
  destruct (b !! Z.to_nat (cell_index cs cw (map_check t))) as [c|] eqn:Hc;
    destruct (b' !! Z.to_nat (cell_index cs cw (map_check t))) as [c'|] eqn:Hc';
    try discriminate; [|auto].
  injection Hw as Hw. rewrite <- Hw.
  destruct (is_wall_ c); cbn [fst snd]; [|auto]. split; [reflexivity|].
  eapply walls_agree_trans; [apply walls_agree_sym, walls_agree_highlight; eassumption|].
  eapply walls_agree_trans; [exact Hs|]. apply walls_agree_highlight. assumption.
Qed.

Lemma traverse_walls_agree (n : nat) :
  forall (t : Traversal) (b b' : list Cell),
    walls_agree b b' ->
    result_map fst (traverse n cs cw r (t, b)) = result_map fst (traverse n cs cw r (t, b')).
Proof.
  induction n as [|n IH]; intros t b b' Hs; cbn [traverse fst];
    destruct (loop_test t); try reflexivity.
  unfold loop_body. cbn [fst snd].
  destruct (check_cell_walls_agree (advance r t) b b' Hs) as [Ht Hb].
  destruct (check_cell cs cw (advance r t) b) as [t1 b1].
  destruct (check_cell cs cw (advance r t) b') as [t2 b2].
  cbn [fst snd] in Ht, Hb. subst t2. apply IH. assumption.
Qed.

Lemma highlight_idem (c : Cell) : highlight (highlight c) = highlight c.
Proof. reflexivity. Qed.

(** Running the loop again on the board it left gives the same state. *)
Lemma traverse_again (n : nat) (t t' : Traversal) (b b' : list Cell) :
  tile_found t = false ->
  traverse n cs cw r (t, b) = Ok (t', b') ->
  traverse n cs cw r (t, b') = Ok (t', b').
Proof.
  intros Hf H.
  assert (Hs : walls_agree b b').
  { destruct (traverse_frame n t b t' b' Hf H)
      as [[_ ->] | (_ & c & _ & Hc & _ & ->)];
      [apply walls_agree_refl | apply walls_agree_highlight; assumption]. }
  pose proof (traverse_walls_agree n t b b' Hs) as He. rewrite H in He.
  destruct (traverse n cs cw r (t, b')) as [[t2 b2] | |] eqn:H2; try discriminate.
  cbn in He. injection He as <-. f_equal. f_equal.
  destruct (traverse_frame n t b t' b' Hf H)
    as [[Hnf ->] | (Hfound & c & Hr & Hc & _ & ->)];
    destruct (traverse_frame n t _ t' b2 Hf H2)
      as [[Hnf2 ->] | (Hfound2 & c2 & _ & Hc2 & _ & ->)];
    try congruence.
  rewrite list_lookup_insert_eq in Hc2 by (eapply lookup_lt_Some; eassumption).
  injection Hc2 as <-. rewrite highlight_idem. apply list_insert_insert_eq.
Qed.

(** The loop as a number of passes of its body. *)
Lemma traverse_iter (n : nat) :
  forall s s' : Traversal * list Cell,
    traverse n cs cw r s = Ok s' ->
    exists k : nat,
      (k <= n)%nat /\ s' = Nat.iter k (loop_body cs cw r) s /\ loop_test (fst s') = false.
Proof.
  induction n as [|n IH]; intros s s' H; cbn [traverse] in H;
    destruct (loop_test (fst s)) eqn:Ht; try discriminate;
    try (injection H as <-; exists 0%nat; split; [lia | split; [reflexivity | assumption]]).
  apply IH in H as (k & Hk & -> & Hs').
  exists (S k). split; [lia|]. split; [|assumption].
  rewrite Nat.iter_succ_r. reflexivity.
Qed.

End Loop.

(** ** The routine ends *)

(** The routine past its guards always comes to an end. *)
Lemma cast_ends (cv : conversion) (g : Game) :
  cell_size_ g = 32 -> cast cv g = Undefined \/ exists c, cast cv g = Ok c.
Proof.
  intros Hcs. unfold cast.
  destruct (out_of_world (player_pos g)) eqn:Hp; [eauto|].
  destruct (out_of_world (mouse_pos g)) eqn:Hm; [eauto|].
  destruct (setup cv g) as [[r t] | |] eqn:Hs; cbn [bind]; [| auto | ].
  - destruct (setup_inv cv g r t Hcs Hp Hs) as (Hinv & _).
    destruct (traverse_ends (cell_size_ g) (cells_width_ g) r t (board_ g) Hinv) as [s Hs'].
    cbn [fst snd]. rewrite Hs'. cbn [bind]. eauto.
  - exfalso. exact (setup_fuel cv g Hs).
Qed.

Lemma cast_indefinite (v : Z) (g : Game) :
  cell_size_ g = 32 -> exists c, cast (Indefinite v) g = Ok c.
Proof.
  intros Hcs. destruct (cast_ends (Indefinite v) g Hcs) as [H | H]; [|assumption].
  exfalso. unfold cast in H.
  destruct (out_of_world (player_pos g)); [discriminate|].
  destruct (out_of_world (mouse_pos g)); [discriminate|].
  destruct (setup_indefinite v g ltac:(lia)) as [[r t] Hs]. rewrite Hs in H. cbn [bind fst snd] in H.
  destruct (traverse _ _ _ _ _) as [s | |] eqn:Ht; cbn [bind] in H; try discriminate.
  pose proof (traverse_undefined_free (cell_size_ g) (cells_width_ g) r traversal_fuel
                (t, board_ g)) as Hu. congruence.
Qed.

Lemma same_walls_agree (b b' : list Cell) : same_walls b b' -> walls_agree b b'.
Proof.
  unfold same_walls. intros H. split.
  - rewrite <- (length_fmap is_wall_ b), <- (length_fmap is_wall_ b'), H. reflexivity.
  - intros i. rewrite <- !list_lookup_fmap, H. reflexivity.
Qed.

(** ** Zero-length rays where the conversion yields [INT_MIN] *)




Lemma add_nan_r (a : float) : F32.add a S754_nan = S754_nan.
Proof. destruct a as [[] | [] | | [] m e]; reflexivity. Qed.





(** * The properties of the specification *)

Lemma mul_comm (a b : float) : F32.mul a b = F32.mul b a.
Proof.
  unfold F32.mul, SFmul.
  destruct a as [[] | [] | | sa ma ea], b as [[] | [] | | sb mb eb]; try reflexivity;
    try (destruct sa; reflexivity); try (destruct sb; reflexivity).
  rewrite xorb_comm, Pos.mul_comm, Z.add_comm. reflexivity.
Qed.

Lemma cast_some (cv : conversion) (g : Game) (r : Ray) (t : Traversal) (b : list Cell) :
  cast cv g = Ok (Some (r, t, b)) ->
  out_of_world (player_pos g) = false /\ out_of_world (mouse_pos g) = false
  /\ exists t0, setup cv g = Ok (r, t0)
       /\ traverse traversal_fuel (cell_size_ g) (cells_width_ g) r (t0, board_ g) = Ok (t, b).
Proof.
  unfold cast.
  destruct (out_of_world (player_pos g)); [discriminate|].
  destruct (out_of_world (mouse_pos g)); [discriminate|].
  destruct (setup cv g) as [[r0 t0] | |]; cbn [bind fst snd]; try discriminate.
  destruct (traverse _ _ _ _ _) as [[t1 b1] | |] eqn:Ht; cbn [bind fst snd]; try discriminate.
  intros H. injection H as <- <- <-. eauto.
Qed.

Lemma cast_none (cv : conversion) (g : Game) :
  cast cv g = Ok None ->
  out_of_world (player_pos g) || out_of_world (mouse_pos g) = true.
Proof.
  unfold cast.
  destruct (out_of_world (player_pos g)); [reflexivity|].
  destruct (out_of_world (mouse_pos g)); [reflexivity|].
  destruct (setup cv g) as [[r0 t0] | |]; cbn [bind fst snd]; try discriminate.
  destruct (traverse _ _ _ _ _) as [[t1 b1] | |]; cbn [bind]; discriminate.
Qed.

Lemma cast_undefined (cv : conversion) (g : Game) :
  cell_size_ g = 32 -> cast cv g = Undefined -> cv = IsoCpp.
Proof.
  intros Hcs H. destruct cv as [|v]; [reflexivity|].
  destruct (cast_indefinite v g Hcs) as [c Hc]. congruence.
Qed.

(** C1. The reference scenario holds: on the 30 x 20 board with a wall at
    cell (10, 5), the ray from (0, 176) toward (640, 176) hits board
    index 160 = 5 * 30 + 10 at the point (320, 176), at distance 320.
    The cast does not return the first wall cell of every ray, though.
    On the board whose only wall is cell (1, 10) (index 301), the segment
    from (16, 16) to (46, 352) runs through that cell from top to bottom
    (at parameter 20/21 it is at x = 44.6, y = 336, the middle of the
    cell), and the cast returns Miss and leaves the game as it was: the
    block before the loop truncates [x_intersection.x] = 31.999998 to 31
    and starts the map cell at x = -1 instead of 0, so the x index stays
    one cell behind the ray. *)
Theorem first_wall_missed (cv : conversion) :
  Cast cv scenario_hit
  = Ok (Some (Hit 160 (SDL_FPoint.mk (F32.of_int 320) (F32.of_int 176)) (F32.of_int 320)))
  /\ wall_indices (board_ scenario_steep) = [301%nat]
  /\ segment_point_in_cell 32 (16, 16) (46, 352) 20 21 1 10 = true
  /\ setup cv scenario_steep = Ok steep_setup
  /\ map_check (snd steep_setup) = Vector2d.mk (-1) 0
  /\ Cast cv scenario_steep = Ok (Some Miss)
  /\ DigitalDifferentialAnalysis cv scenario_steep = Ok scenario_steep.
Proof. destruct cv; vm_compute; repeat split. Qed.

(** A vertical ray never hits: its x step size is infinite, the
    [x_intersection.x] of the block before the loop is 0 * inf = NaN, and
    its conversion to [int] is undefined or, as [INT_MIN], puts every
    index of the traversal below zero. *)
Lemma vertical_ray_misses :
  wall_indices (board_ scenario_vertical) = [183%nat]
  /\ segment_point_in_cell 32 (100, 100) (100, 200) 95 100 3 6 = true
  /\ Cast IsoCpp scenario_vertical = Undefined
  /\ Cast x86_64 scenario_vertical = Ok (Some Miss).
Proof. vm_compute. repeat split. Qed.

(** The spec's second scenario: no walls, the far diagonal; the loop
    runs to the ceiling and the cast is a Miss. *)
Lemma open_board_misses (cv : conversion) : Cast cv scenario_open = Ok (Some Miss).
Proof. destruct cv; vm_compute; reflexivity. Qed.

(** C2. The wall test is guarded by the flat index alone, so a map cell
    off the board can be taken for a cell of another row.  With the only
    wall at cell (0, 6), the horizontal ray of row 5 leaves the board on
    the right, reaches map cell (30, 5), whose column is not below
    [cells_width_] = 30, and there the index 5 * 30 + 30 = 180 selects
    cell (0, 6): the cast returns Hit at (960, 176) and highlights that
    cell. *)
Theorem off_board_cell_hit (cv : conversion) :
  match cast cv scenario_wrap with
  | Ok (Some (r, t, b)) =>
      tile_found t = true
      /\ map_check t = Vector2d.mk 960 160
      /\ (cells_width_ scenario_wrap
          <=? Z.quot (Vector2d.x (map_check t)) (cell_size_ scenario_wrap)) = true
      /\ cell_index (cell_size_ scenario_wrap) (cells_width_ scenario_wrap) (map_check t) = 180
      /\ b !! 180%nat = Some (mkCell (SDL_Rect.mk 0 192 32 32) true true)
  | _ => False
  end
  /\ Cast cv scenario_wrap
     = Ok (Some (Hit 180 (SDL_FPoint.mk (F32.of_int 960) (F32.of_int 176)) (F32.of_int 960))).
Proof. destruct cv; vm_compute; repeat split. Qed.

(** What the conversion of a NaN decides for a zero-length ray.  The
    routine has no guard for origin = target: it converts the NaN
    [x_intersection.x] to [int], which the C++ standard leaves undefined.
    Where the conversion yields [INT_MIN] (x86-64) the cast from
    (100, 100) to (100, 100) is a Miss, also with a wall at cell (0, 4);
    were it to yield 0, that wall would be hit, at a NaN point. *)
Lemma degenerate_ray_conversion :
  Cast IsoCpp scenario_degenerate = Undefined
  /\ Cast x86_64 (set_wall scenario_degenerate 0 4) = Ok (Some Miss)
  /\ Cast (Indefinite 0) (set_wall scenario_degenerate 0 4)
     = Ok (Some (Hit 120 (SDL_FPoint.mk S754_nan S754_nan) S754_nan)).
Proof. vm_compute. repeat split. Qed.



(** A cast that a guard stops leaves the whole game as it is, the last
    intersection point included. *)
Lemma guard_returns_early (cv : conversion) (g : Game) :
  out_of_world (player_pos g) || out_of_world (mouse_pos g) = true ->
  DigitalDifferentialAnalysis cv g = Ok g /\ Cast cv g = Ok None.
Proof.
  intros H. unfold DigitalDifferentialAnalysis, Cast, cast.
  destruct (out_of_world (player_pos g)); [split; reflexivity|].
  destruct (out_of_world (mouse_pos g)); [split; reflexivity | discriminate].
Qed.

(** C4. A cast whose origin lies outside the world returns at the guard
    without storing (-1, -1): what is reported is whatever the previous
    cast left.  The player of [scenario_walk] walks left with the button
    held; the first tick casts from (0, 176) and hits at (320, 176); the
    second tick casts from (-5, 176), the guard returns, and the
    intersection point (320, 176) stays and its marker is still drawn. *)
Theorem aborted_cast_keeps_marker (cv : conversion) :
  Tick cv scenario_walk = Ok walk_1
  /\ dda_intersection_ walk_1 = SDL_FPoint.mk (F32.of_int 320) (F32.of_int 176)
  /\ Tick cv walk_1 = Ok walk_2
  /\ player_pos walk_2 = Vector2d.mk (F32.of_int (-5)) (F32.of_int 176)
  /\ out_of_world (player_pos walk_2) = true
  /\ Cast cv walk_2 = Ok None
  /\ DigitalDifferentialAnalysis cv walk_2 = Ok walk_2
  /\ dda_intersection_ walk_2 = SDL_FPoint.mk (F32.of_int 320) (F32.of_int 176)
  /\ marker_drawn walk_2 = true.
Proof. destruct cv; vm_compute; repeat split. Qed.

(** C5. Every cast on a board of cell size 32 comes to an end: the loop
    stops within 602 passes, the routine never needs more, and only the
    conversion of a value that has no [int] can leave the result
    undefined (never so when the conversion yields a fixed integer).
    When the loop ends without a wall, the recorded distance is not
    below the ceiling 10 * max(960, 640) = 9600 and Miss is stored on an
    unmodified board. *)
Theorem cast_terminates (cv : conversion) (g : Game) :
  cell_size_ g = 32 -> terminates_as_specified cv g.
Proof.
  intros Hcs. unfold terminates_as_specified.
  destruct (cast cv g) as [[[[r t] b] |] | |] eqn:Hc.
  - destruct (cast_some cv g r t b Hc) as (_ & _ & t0 & Hs & Ht).
    destruct (traverse_iter _ _ _ _ _ _ Ht) as (k & Hk & Hi & Hl).
    exists t0, k. repeat split; try assumption.
    + unfold loop_test in Hl. cbn [fst] in Hl. rewrite H in Hl. exact Hl.
    + unfold DigitalDifferentialAnalysis. rewrite Hc. cbn [bind].
      unfold intersection_point. rewrite H.
      destruct (traverse_frame _ _ _ _ _ _ _ _ (setup_tile_found cv g r t0 Hs) Ht)
        as [[_ ->] | [Hf _]]; [reflexivity | congruence].
  - apply cast_none with cv. assumption.
  - apply cast_undefined with g; assumption.
  - destruct (cast_ends cv g Hcs) as [H | [c H]]; congruence.
Qed.

Lemma cast_terminates_witness :
  cell_size_ scenario_open = 32 /\ terminates_as_specified x86_64 scenario_open.
Proof.
  split; [reflexivity | apply (cast_terminates x86_64 scenario_open); reflexivity].
Defined.

Lemma highlight_only (b : list Cell) (i : Z) (c : Cell) :
  0 <= i < Z.of_nat (length b) -> b !! Z.to_nat i = Some c -> is_wall_ c = true ->
  only_highlights i b (<[Z.to_nat i := highlight c]> b).
Proof.
  intros Hr Hc Hw. exists c. repeat split; try assumption; try lia.
  - apply list_lookup_insert_eq. eapply lookup_lt_Some. eassumption.
  - apply length_insert.
  - intros j Hj. apply list_lookup_insert_ne. congruence.
Qed.

(** C6. A cast that returns Hit sets the highlight of the struck cell and
    changes nothing else on the board: that cell keeps its rectangle and
    its wall flag, every other cell is the same, and the board keeps its
    length.  A cast that returns Miss leaves the board as it was, and a
    cast stopped by a guard leaves the whole game as it was. *)
Theorem cast_frame (cv : conversion) (g : Game) :
  cell_size_ g = 32 -> frame_respected cv g.
Proof.
  intros Hcs. unfold frame_respected, DigitalDifferentialAnalysis, Cast.
  destruct (cast cv g) as [[[[r t] b] |] | |] eqn:Hc; cbn [bind].
  - destruct (cast_some cv g r t b Hc) as (_ & _ & t0 & Hs & Ht).
    destruct (traverse_frame _ _ _ _ _ _ _ _ (setup_tile_found cv g r t0 Hs) Ht)
      as [[-> ->] | (-> & c & Hr & Hl & Hw & ->)]; cbn.
    + reflexivity.
    + apply highlight_only; assumption.
  - reflexivity.
  - apply cast_undefined with g; assumption.
  - destruct (cast_ends cv g Hcs) as [H | [c H]]; congruence.
Qed.

Lemma cast_frame_witness :
  cell_size_ scenario_hit = 32 /\ frame_respected x86_64 scenario_hit.
Proof.
  split; [reflexivity | apply (cast_frame x86_64 scenario_hit); reflexivity].
Defined.

(** C7, as the code has it.  A pass of the loop advances the x axis when
    the x accumulator is less than the y accumulator, and the y axis in
    every other case: when y is less, on an exact tie, and when the two
    do not compare (a NaN).  The axis that advances has its map
    coordinate moved by its step, the value its accumulator had before
    the pass recorded as the distance, and its step size added to the
    accumulator; the other axis is left as it was. *)
Theorem advance_rule (r : Ray) (t : Traversal) :
  match SFcompare (Vector2d.x (ray_length t)) (Vector2d.y (ray_length t)) with
  | Some Lt => advance r t = advance_x r t
  | Some Eq | Some Gt | None => advance r t = advance_y r t
  end.
Proof.
  unfold advance, advance_x, advance_y, F32.ltb, SFltb.
  destruct (SFcompare _ _) as [[] |]; reflexivity.
Qed.

(** C7, as stated, fails on a tie.  The diagonal cast from (0, 0) toward
    (32, 32) enters the loop with equal accumulators; the first pass
    moves the y coordinate of the map cell by the y step and leaves the x
    coordinate where it was, although the x step is 32. *)
Lemma tie_advances_y_only :
  match setup x86_64 scenario_tie with
  | Ok (r, t) =>
      F32.eqb (Vector2d.x (ray_length t)) (Vector2d.y (ray_length t)) = true
      /\ Vector2d.x (step r) = 32
      /\ ~ x_axis_advanced r t (advance r t)
      /\ advance r t = advance_y r t
  | _ => False
  end.
Proof.
  vm_compute. repeat split. intros H. discriminate H.
Qed.


(** The step sizes and steps of [scenario_steep]: the ray goes right and
    down, both steps are +32. *)
Lemma step_sizes_steep :
  setup x86_64 scenario_steep = Ok steep_setup
  /\ ray_step_size (fst steep_setup) = spec_step_size 32 (ray_dir (fst steep_setup))
  /\ step (fst steep_setup) = Vector2d.mk 32 32.
Proof. vm_compute. repeat split. Qed.

Lemma setup_inputs (cv : conversion) (g g' : Game) :
  player_pos g = player_pos g' -> mouse_pos g = mouse_pos g' ->
  cell_size_ g = cell_size_ g' -> setup cv g = setup cv g'.
Proof.
  intros Hp Hm Hcs. unfold setup, direction. cbv zeta. rewrite Hp, Hm, Hcs. reflexivity.
Qed.

(** The result of a cast in terms of the loop's final variables. *)
Lemma Cast_by_traversal (cv : conversion) (g : Game) :
  Cast cv g
  = if out_of_world (player_pos g) then Ok None
    else if out_of_world (mouse_pos g) then Ok None
    else
      let* rt := setup cv g in
      let* t := result_map fst (traverse traversal_fuel (cell_size_ g) (cells_width_ g)
                                         (fst rt) (snd rt, board_ g)) in
      Ok (Some (if tile_found t
                then Hit (cell_index (cell_size_ g) (cells_width_ g) (map_check t))
                         (intersection_point (fst rt) t) (distance t)
                else Miss)).
Proof.
  unfold Cast, cast.
  destruct (out_of_world (player_pos g)); [reflexivity|].
  destruct (out_of_world (mouse_pos g)); [reflexivity|].
  destruct (setup cv g) as [[r t0] | |]; cbn [bind fst snd]; try reflexivity.
  destruct (traverse _ _ _ _ _) as [[t b] | |]; reflexivity.
Qed.

(** C9. The result of a cast is a function of the origin, the target, the
    cell size, the row length and the wall layout: two games that agree
    on these give the same result, whatever their highlights and their
    stored intersection points are.  In particular the cast repeated on
    the state the first cast left returns what the first returned. *)
Theorem cast_deterministic (cv : conversion) (g g' : Game) :
  same_inputs g g' -> Cast cv g = Cast cv g'.
Proof.
  intros (Hp & Hm & Hcs & Hcw & Hw). rewrite !Cast_by_traversal.
  rewrite <- Hp, <- Hm, <- Hcs, <- Hcw, <- (setup_inputs cv g g' Hp Hm Hcs).
  destruct (out_of_world (player_pos g)); [reflexivity|].
  destruct (out_of_world (mouse_pos g)); [reflexivity|].
  destruct (setup cv g) as [[r t0] | |]; cbn [bind fst snd]; try reflexivity.
  rewrite (traverse_walls_agree _ _ _ _ t0 _ _ (same_walls_agree _ _ Hw)). reflexivity.
Qed.

Lemma cast_deterministic_witness :
  same_inputs scenario_hit scenario_hit_again
  /\ highlighted_ <$> board_ scenario_hit !! 160%nat = Some false
  /\ highlighted_ <$> board_ scenario_hit_again !! 160%nat = Some true
  /\ Cast x86_64 scenario_hit = Cast x86_64 scenario_hit_again.
Proof.
  assert (H : same_inputs scenario_hit scenario_hit_again).
  { unfold same_inputs, same_walls.
    refine (conj _ (conj _ (conj _ (conj _ _)))); vm_compute; reflexivity. }
  split; [exact H|].
  split; [vm_compute; reflexivity|]. split; [vm_compute; reflexivity|].
  exact (cast_deterministic x86_64 scenario_hit scenario_hit_again H).
Defined.

(** The routine run on the state it left changes nothing more. *)
Lemma cast_twice (cv : conversion) (g g1 : Game) :
  DigitalDifferentialAnalysis cv g = Ok g1 -> DigitalDifferentialAnalysis cv g1 = Ok g1.
Proof.
  unfold DigitalDifferentialAnalysis.
  destruct (cast cv g) as [[[[r t] b] |] | |] eqn:Hc; cbn [bind]; try discriminate.
  - intros H. injection H as <-.
    destruct (cast_some cv g r t b Hc) as (Hp & Hm & t0 & Hs & Ht).
    pose proof (traverse_again _ _ _ _ _ _ _ _ (setup_tile_found cv g r t0 Hs) Ht) as Ha.
    unfold cast.
    change (player_pos (set_result g b (intersection_point r t))) with (player_pos g).
    change (mouse_pos (set_result g b (intersection_point r t))) with (mouse_pos g).
    rewrite Hp, Hm.
    change (setup cv (set_result g b (intersection_point r t))) with (setup cv g).
    rewrite Hs. cbn [bind fst snd set_result cell_size_ cells_width_ board_].
    rewrite Ha. reflexivity.
  - intros H. injection H as <-. rewrite Hc. reflexivity.
Qed.

(** C10. The target only gives the direction.  With the wall at cell
    (10, 5) and the target at (64, 176), 64 from the origin (0, 176),
    the cast goes on past the target and returns Hit on that wall at
    (320, 176), at distance 320 > 64. *)
Theorem hit_beyond_target (cv : conversion) :
  mouse_pos scenario_short = Vector2d.mk (F32.of_int 64) (F32.of_int 176)
  /\ Vector2d.GetLength (direction scenario_short) = F32.of_int 64
  /\ Cast cv scenario_short
     = Ok (Some (Hit 160 (SDL_FPoint.mk (F32.of_int 320) (F32.of_int 176)) (F32.of_int 320)))
  /\ F32.ltb (Vector2d.GetLength (direction scenario_short)) (F32.of_int 320) = true.
Proof. destruct cv; vm_compute; repeat split. Qed.

(** * The rest of the program: constructor, events, main loop, rendering *)

(** ** The constructor's loop *)

Lemma read_cell_lookup (i : Z) (b : list Cell) (c : Cell) :
  0 <= i -> b !! Z.to_nat i = Some c -> read_cell i b = Ok c.
Proof.
  intros Hi Hc. unfold read_cell.
  assert (Hl : (Z.to_nat i < length b)%nat) by (eapply lookup_lt_Some; eassumption).
  replace ((0 <=? i) && (i <? Z.of_nat (length b))) with true
    by (symmetry; apply andb_true_intro; split; [apply Z.leb_le | apply Z.ltb_lt]; lia).
  rewrite Hc. reflexivity.
Qed.

Lemma read_cell_ok (i : Z) (b : list Cell) (c : Cell) :
  read_cell i b = Ok c -> 0 <= i < Z.of_nat (length b) /\ b !! Z.to_nat i = Some c.
Proof.
  unfold read_cell.
  destruct ((0 <=? i) && (i <? Z.of_nat (length b))) eqn:Hr; [|discriminate].
  apply andb_prop in Hr as [H0 H1]. apply Z.leb_le in H0. apply Z.ltb_lt in H1.
  destruct (b !! Z.to_nat i) as [c'|]; [|discriminate].
  intros H. injection H as <-. auto.
Qed.

Lemma read_cell_outside (i : Z) (b : list Cell) :
  i < 0 \/ Z.of_nat (length b) <= i -> read_cell i b = Undefined.
Proof.
  intros H. unfold read_cell.
  replace ((0 <=? i) && (i <? Z.of_nat (length b))) with false; [reflexivity|].
  symmetry. apply andb_false_iff. rewrite Z.leb_gt, Z.ltb_ge. lia.
Qed.

Lemma read_cell_fuel (i : Z) (b : list Cell) : read_cell i b <> OutOfFuel.
Proof.
  unfold read_cell. destruct (_ && _); [|discriminate].
  destruct (b !! Z.to_nat i); discriminate.
Qed.

Lemma length_fresh_board (cs w h : Z) :
  length (fresh_board cs w h) = Z.to_nat (w * h).
Proof. unfold fresh_board. rewrite length_map, length_seq. reflexivity. Qed.

Lemma fresh_board_lookup (cs w h : Z) (i : nat) :
  (i < Z.to_nat (w * h))%nat -> fresh_board cs w h !! i = Some (fresh_cell cs w i).
Proof.
  intros Hi. unfold fresh_board.
  change (map (fresh_cell cs w) (seq 0 (Z.to_nat (w * h))))
    with (fresh_cell cs w <$> seq 0 (Z.to_nat (w * h))).
  rewrite list_lookup_fmap, lookup_seq_lt by assumption. reflexivity.
Qed.

(** The cell the loop body stores is the one [fresh_cell] describes. *)
Lemma init_cell_fresh (cs w x y : Z) (c : Cell) :
  0 <= x < w -> 0 <= y ->
  init_cell cs x y c = fresh_cell cs w (Z.to_nat (y * w + x)).
Proof.
  intros Hx Hy. unfold init_cell, fresh_cell. cbv zeta.
  rewrite Z2Nat.id by nia.
  replace ((y * w + x) mod w) with x
    by (rewrite Z.add_comm, Z.mod_add by lia; symmetry; apply Z.mod_small; lia).
  replace ((y * w + x) / w) with y
    by (rewrite Z.add_comm, Z.div_add by lia; rewrite Z.div_small by lia; lia).
  reflexivity.
Qed.

Section Constructor.

Variables (cs w h : Z).

Lemma stored_step (x y : Z) :
  0 <= x < w -> 0 <= y < h ->
  update_cell (y * w + x) (init_cell cs x y) (stored_cells cs w h (y * w + x))
  = Ok (stored_cells cs w h (y * w + x + 1)).
Proof.
  intros Hx Hy. set (k := y * w + x).
  assert (Hk : 0 <= k < w * h) by (unfold k; nia).
  assert (Hn : (Z.to_nat k < Z.to_nat (w * h))%nat) by lia.
  assert (Ht : length (take (Z.to_nat k) (fresh_board cs w h)) = Z.to_nat k).
  { rewrite length_take, length_fresh_board. lia. }
  assert (Hd : drop (Z.to_nat k) (resize (w * h))
               = mkCell (SDL_Rect.mk 0 0 0 0) false false
                   :: drop (S (Z.to_nat k)) (resize (w * h))).
  { unfold resize. rewrite !drop_replicate.
    replace (Z.to_nat (w * h) - Z.to_nat k)%nat
      with (S (Z.to_nat (w * h) - S (Z.to_nat k))) by lia.
    reflexivity. }
  unfold update_cell, stored_cells.
  rewrite (read_cell_lookup k _ (mkCell (SDL_Rect.mk 0 0 0 0) false false)); [|lia|].
  - cbn [bind]. f_equal.
    rewrite insert_app_r_alt by lia. rewrite Ht, Nat.sub_diag, Hd. cbn [insert list_insert].
    replace (Z.to_nat (k + 1)) with (S (Z.to_nat k)) by lia.
    rewrite (take_S_r _ _ (fresh_cell cs w (Z.to_nat k)))
      by (apply fresh_board_lookup; assumption).
    rewrite <- app_assoc. cbn [app]. f_equal. f_equal.
    apply init_cell_fresh; lia.
  - rewrite lookup_app_r by lia. rewrite Ht, Nat.sub_diag, Hd. reflexivity.
Qed.

Lemma row_stored (y : Z) (count : nat) :
  0 <= y < h ->
  forall x : Z,
    0 <= x -> x + Z.of_nat count <= w ->
    for_loop count x
      (fun x board => update_cell (y * w + x) (init_cell cs x y) board)
      (stored_cells cs w h (y * w + x))
    = Ok (stored_cells cs w h (y * w + x + Z.of_nat count)).
Proof.
  intros Hy. induction count as [|n IH]; intros x Hx Hc; cbn [for_loop].
  - rewrite Z.add_0_r. reflexivity.
  - rewrite stored_step by lia. cbn [bind].
    replace (y * w + x + 1) with (y * w + (x + 1)) by lia.
    rewrite IH by lia. f_equal. f_equal. lia.
Qed.

Lemma rows_stored (count : nat) :
  0 <= w ->
  forall y : Z,
    0 <= y -> y + Z.of_nat count <= h ->
    for_loop count y
      (fun y board =>
         for_range 0 w
           (fun x board => update_cell (y * w + x) (init_cell cs x y) board) board)
      (stored_cells cs w h (y * w))
    = Ok (stored_cells cs w h ((y + Z.of_nat count) * w)).
Proof.
  intros Hw.
  set (body := fun (y : Z) (board : list Cell) =>
                 for_range 0 w
                   (fun x board => update_cell (y * w + x) (init_cell cs x y) board) board).
  induction count as [|n IH]; intros y Hy Hc; cbn [for_loop].
  - rewrite Z.add_0_r. reflexivity.
  - assert (Hb : body y (stored_cells cs w h (y * w)) = Ok (stored_cells cs w h ((y + 1) * w))).
    { unfold body, for_range. rewrite Z.sub_0_r.
      pose proof (row_stored y (Z.to_nat w) ltac:(lia) 0 ltac:(lia) ltac:(lia)) as Hr.
      rewrite Z.add_0_r in Hr. rewrite Hr. f_equal. f_equal. lia. }
    rewrite Hb. cbn [bind]. rewrite IH by lia. f_equal. f_equal. lia.
Qed.

Lemma construct_board_stored :
  0 <= w -> 0 <= h -> construct_board cs w h = Ok (fresh_board cs w h).
Proof.
  intros Hw Hh. unfold construct_board. unfold for_range at 1. rewrite Z.sub_0_r.
  assert (H0 : resize (w * h) = stored_cells cs w h (0 * w)).
  { unfold stored_cells. rewrite Z.mul_0_l. reflexivity. }
  rewrite H0, (rows_stored (Z.to_nat h) Hw 0) by lia. f_equal.
  unfold stored_cells.
  replace (Z.to_nat ((0 + Z.of_nat (Z.to_nat h)) * w)) with (Z.to_nat (w * h))
    by (f_equal; lia).
  rewrite take_ge by (rewrite length_fresh_board; lia).
  rewrite drop_ge by (unfold resize; rewrite length_replicate; lia).
  apply app_nil_r.
Qed.

End Constructor.

(** ** Cells and points *)

Lemma quot_cell (p cs n : Z) :
  0 < cs -> 0 <= p < n * cs ->
  0 <= Z.quot p cs < n /\ Z.quot p cs * cs <= p < Z.quot p cs * cs + cs.
Proof.
  intros Hcs Hp. rewrite Z.quot_div_nonneg by lia.
  pose proof (Z.div_mod p cs ltac:(lia)) as Hd.
  pose proof (Z.mod_pos_bound p cs Hcs) as Hm.
  assert (0 <= p / cs) by (apply Z.div_pos; lia).
  assert (p / cs < n) by (apply Z.div_lt_upper_bound; lia).
  lia.
Qed.

(** The cell of the constructor's board under an on-board point. *)
Lemma fresh_board_under (cs w h px py : Z) :
  0 < cs -> 0 <= px < w * cs -> 0 <= py < h * cs ->
  0 <= cell_index cs w (Vector2d.mk px py) < w * h
  /\ fresh_board cs w h !! Z.to_nat (cell_index cs w (Vector2d.mk px py))
     = Some (mkCell (SDL_Rect.mk (Z.quot px cs * cs) (Z.quot py cs * cs) cs cs) false false).
Proof.
  intros Hcs Hx Hy. unfold cell_index. cbn [Vector2d.x Vector2d.y].
  destruct (quot_cell px cs w Hcs Hx) as [Hqx _].
  destruct (quot_cell py cs h Hcs Hy) as [Hqy _].
  split; [nia|].
  rewrite fresh_board_lookup by nia.
  rewrite <- (init_cell_fresh cs w _ _ (mkCell (SDL_Rect.mk 0 0 0 0) false false)) by lia.
  reflexivity.
Qed.

(** ** Events *)

(** A write through [update_cell] that keeps the rectangle keeps the
    rectangles of the board. *)
Lemma update_cell_rects (i : Z) (f : Cell -> Cell) (b b' : list Cell) :
  (forall c, rect_ (f c) = rect_ c) ->
  update_cell i f b = Ok b' -> rect_ <$> b' = rect_ <$> b.
Proof.
  intros Hf. unfold update_cell.
  destruct (read_cell i b) as [c | |] eqn:Hr; cbn [bind]; try discriminate.
  intros H. injection H as <-. apply read_cell_ok in Hr as [_ Hc].
  rewrite list_fmap_insert, Hf. apply list_insert_id.
  rewrite list_lookup_fmap, Hc. reflexivity.
Qed.

Lemma update_cell_lookup (i : Z) (f : Cell -> Cell) (b b' : list Cell) :
  update_cell i f b = Ok b' ->
  exists c,
    0 <= i < Z.of_nat (length b) /\ b !! Z.to_nat i = Some c
    /\ b' = <[Z.to_nat i := f c]> b.
Proof.
  unfold update_cell.
  destruct (read_cell i b) as [c | |] eqn:Hr; cbn [bind]; try discriminate.
  intros H. injection H as <-. apply read_cell_ok in Hr as [Hi Hc]. eauto.
Qed.

Lemma grid_kept_length (g : Game) : grid_kept g -> length (board_ g) = 600%nat.
Proof.
  intros (_ & _ & _ & H).
  rewrite <- (length_fmap rect_ (board_ g)), H, length_fmap, length_fresh_board. reflexivity.
Qed.

(** On the constructor's grid a cursor in the window is over a cell of
    the board, and [cursor_index] is the index of that cell. *)
Lemma cursor_cell (g : Game) :
  grid_kept g -> in_window (mouse_position_ g) ->
  exists (i : Z) (c : Cell),
    cursor_index g = Ok i /\ 0 <= i < 600 /\ board_ g !! Z.to_nat i = Some c
    /\ i = Z.quot (SDL_Point.y (mouse_position_ g)) 32 * 30
           + Z.quot (SDL_Point.x (mouse_position_ g)) 32
    /\ in_rect (rect_ c) (SDL_Point.x (mouse_position_ g)) (SDL_Point.y (mouse_position_ g)).
Proof.
  intros Hg [Hx Hy]. pose proof (grid_kept_length g Hg) as Hl.
  destruct Hg as (Hcs & Hcw & Hch & Hr).
  unfold cursor_index. rewrite Hcs, Hcw. cbn [Z.eqb].
  set (px := SDL_Point.x (mouse_position_ g)) in *.
  set (py := SDL_Point.y (mouse_position_ g)) in *.
  change constants.screen_width with (30 * 32) in Hx.
  change constants.screen_height with (20 * 32) in Hy.
  destruct (fresh_board_under 32 30 20 px py ltac:(lia) Hx Hy) as [Hi Hf].
  unfold cell_index in Hi, Hf. cbn [Vector2d.x Vector2d.y] in Hi, Hf.
  set (i := Z.quot py 32 * 30 + Z.quot px 32) in *.
  destruct (board_ g !! Z.to_nat i) as [c|] eqn:Hc.
  - exists i, c. split; [reflexivity|]. split; [lia|]. split; [exact Hc|].
    split; [reflexivity|].
    assert (Hrc : rect_ c = SDL_Rect.mk (Z.quot px 32 * 32) (Z.quot py 32 * 32) 32 32).
    { assert (H : (rect_ <$> board_ g) !! Z.to_nat i
                  = (rect_ <$> fresh_board 32 30 20) !! Z.to_nat i) by (rewrite Hr; reflexivity).
      rewrite !list_lookup_fmap, Hc, Hf in H. cbn in H. congruence. }
    rewrite Hrc. unfold in_rect. cbn [SDL_Rect.x SDL_Rect.y SDL_Rect.w SDL_Rect.h].
    destruct (quot_cell px 32 30 ltac:(lia) Hx) as [_ Hbx].
    destruct (quot_cell py 32 20 ltac:(lia) Hy) as [_ Hby]. lia.
  - apply lookup_ge_None in Hc. lia.
Qed.

Lemma toggle_wall_rect (c : Cell) : rect_ (toggle_wall c) = rect_ c.
Proof. reflexivity. Qed.

Lemma paint_wall_rect (v : bool) (c : Cell) : rect_ (paint_wall v c) = rect_ c.
Proof. reflexivity. Qed.

Lemma mouse_buttons_inv (e : SDL_Event) (g g' : Game) :
  state_inv g -> mouse_buttons e g = Ok g' ->
  state_inv g' /\ mouse_position_ g' = mouse_position_ g.
Proof.
  intros (Hg & Hb & Hvx & Hvy & Ha & Hm).
  destruct e as [| [] | [] | | k | k |]; cbn [mouse_buttons]; intros H;
    try (injection H as <-; repeat split; try apply Hg; try apply Hb;
         try assumption; try reflexivity; cbn; congruence).
  unfold right_button_down in H. cbv zeta in H.
  destruct (cursor_index _) as [i | |]; cbn [bind] in H; try discriminate.
  destruct (read_cell i _) as [c | |]; cbn [bind] in H; try discriminate.
  destruct (update_cell i toggle_wall _) as [b | |] eqn:Hu; cbn [bind] in H; try discriminate.
  injection H as <-. apply update_cell_rects in Hu; [|apply toggle_wall_rect].
  cbn in Hu. destruct Hg as (? & ? & ? & Hr).
  repeat split; try apply Hb; try assumption. cbn. congruence.
Qed.

Lemma mouse_motion_inv (e : SDL_Event) (g g' : Game) :
  state_inv g -> mouse_motion e g = Ok g' ->
  state_inv g' /\ mouse_position_ g' = mouse_position_ g.
Proof.
  intros (Hg & Hb & Hvx & Hvy & Ha & Hm).
  destruct e as [| b | b | | k | k |]; cbn [mouse_motion]; intros H;
    try (injection H as <-; repeat split; try apply Hg; try apply Hb; assumption).
  cbv zeta in H. cbn [mouse_right_pressed_ set_mouse_box] in H.
  destruct (mouse_right_pressed_ g).
  - destruct (cursor_index _) as [i | |]; cbn [bind] in H; try discriminate.
    destruct (update_cell i _ _) as [b | |] eqn:Hu; cbn [bind] in H; try discriminate.
    injection H as <-. apply update_cell_rects in Hu; [|apply paint_wall_rect].
    cbn in Hu. destruct Hg as (? & ? & ? & Hr).
    repeat split; try apply Hb; try assumption. cbn. congruence.
  - injection H as <-. repeat split; try apply Hg; try apply Hb; assumption.
Qed.

Lemma keys_inv (e : SDL_Event) (g : Game) :
  state_inv g -> state_inv (keys e g) /\ mouse_position_ (keys e g) = mouse_position_ g.
Proof.
  intros (Hg & Hb & Hvx & Hvy & Ha & Hm).
  destruct e as [| b | b | | [] | [] |]; cbn [keys];
    repeat split; try apply Hg; try apply Hb; try assumption;
    unfold velocity_ok; cbn; auto.
Qed.

Lemma handle_event_inv (e : SDL_Event) (g g' : Game) :
  state_inv g -> handle_event e g = Ok g' ->
  state_inv g' /\ mouse_position_ g' = mouse_position_ g.
Proof.
  intros Hi. unfold handle_event.
  destruct (mouse_buttons e g) as [g1 | |] eqn:H1; cbn [bind]; try discriminate.
  destruct (mouse_motion e g1) as [g2 | |] eqn:H2; cbn [bind]; try discriminate.
  intros H. injection H as <-.
  destruct (mouse_buttons_inv e g g1 Hi H1) as [Hi1 Hp1].
  destruct (mouse_motion_inv e g1 g2 Hi1 H2) as [Hi2 Hp2].
  destruct (keys_inv e g2 Hi2) as [Hi3 Hp3]. split; [assumption | congruence].
Qed.

Lemma set_mouse_position_inv (g : Game) (p : SDL_Point.t) :
  state_inv g -> state_inv (set_mouse_position g p).
Proof. intros H. exact H. Qed.

Lemma set_running_inv (g : Game) (v : bool) : state_inv g -> state_inv (set_running g v).
Proof. intros H. exact H. Qed.

Lemma HandleEvents_inv (q : list Polled) :
  forall g g', state_inv g -> HandleEvents q g = Ok g' -> state_inv g'.
Proof.
  induction q as [|[e p] q IH]; intros g g' Hi; cbn [HandleEvents event mouse_state].
  - intros H. injection H as <-. assumption.
  - destruct e as [| b | b | | k | k |];
      try (destruct (handle_event _ _) as [g1 | |] eqn:H1; cbn [bind]; try discriminate;
           apply IH; eapply handle_event_inv; [|eassumption];
           apply set_mouse_position_inv; assumption).
    intros H. injection H as <-. assumption.
Qed.

(** On the constructor's grid no event indexes outside the board while
    the cursor is in the window. *)
Lemma handle_event_defined (e : SDL_Event) (g : Game) :
  grid_kept g -> in_window (mouse_position_ g) -> exists g', handle_event e g = Ok g'.
Proof.
  intros Hg Hw. unfold handle_event.
  destruct e as [| [] | [] | | k | k |]; cbn [mouse_buttons mouse_motion bind]; eauto.
  - unfold right_button_down. cbv zeta.
    destruct (cursor_cell (set_mouse_right_pressed g true) Hg Hw)
      as (i & c & Hi & Hr & Hc & _).
    rewrite Hi. cbn [bind]. unfold update_cell.
    cbn [board_ set_setting_walls set_mouse_right_pressed set_mouse_box] in Hc |- *.
    rewrite !(read_cell_lookup i _ c) by (assumption || lia). cbn [bind]. eauto.
  - cbv zeta. cbn [mouse_right_pressed_ set_mouse_box].
    destruct (mouse_right_pressed_ g); cbn [bind]; eauto.
    match goal with |- context [cursor_index ?g1] =>
      destruct (cursor_cell g1 Hg Hw) as (i & c & Hi & Hr & Hc & _) end.
    rewrite Hi. cbn [bind]. unfold update_cell.
    cbn [board_ set_setting_walls set_mouse_right_pressed set_mouse_box] in Hc |- *.
    rewrite !(read_cell_lookup i _ c) by (assumption || lia). cbn [bind]. eauto.
Qed.

Lemma HandleEvents_defined (q : list Polled) :
  forall g,
    state_inv g -> Forall (fun p => in_window (mouse_state p)) q ->
    exists g', HandleEvents q g = Ok g'.
Proof.
  induction q as [|[e p] q IH]; intros g Hi Hq; cbn [HandleEvents event mouse_state];
    [eauto|].
  apply Forall_cons in Hq as [Hp Hq]. cbn [mouse_state] in Hp.
  destruct (handle_event_defined e (set_mouse_position g p) (proj1 Hi) Hp) as [g1 H1].
  assert (Hi1 : state_inv g1)
    by (eapply handle_event_inv; [|eassumption]; exact Hi).
  destruct e as [| b | b | | k | k |]; eauto; rewrite H1; cbn [bind]; apply IH; assumption.
Qed.

(** ** Ticks *)

Lemma set_result_same (g : Game) : set_result g (board_ g) (dda_intersection_ g) = g.
Proof. destruct g. reflexivity. Qed.

(** What a cast leaves of the state: everything but the intersection
    and, after a hit, the highlight of one wall cell. *)
Lemma DigitalDifferentialAnalysis_frame (cv : conversion) (g g' : Game) :
  DigitalDifferentialAnalysis cv g = Ok g' ->
  g' = set_result g (board_ g') (dda_intersection_ g')
  /\ (board_ g' = board_ g
      \/ exists (i : nat) (c : Cell),
           board_ g !! i = Some c /\ is_wall_ c = true
           /\ board_ g' = <[i := highlight c]> (board_ g)).
Proof.
  unfold DigitalDifferentialAnalysis.
  destruct (cast cv g) as [[[[r t] b] |] | |] eqn:Hc; cbn [bind]; try discriminate;
    intros H; injection H as <-.
  - split; [reflexivity|]. cbn [board_ set_result].
    destruct (cast_some cv g r t b Hc) as (_ & _ & t0 & Hs & Ht).
    destruct (traverse_frame _ _ _ _ _ _ _ _ (setup_tile_found cv g r t0 Hs) Ht)
      as [[_ ->] | (_ & c & _ & Hl & Hw & ->)]; [left; reflexivity|].
    right. eauto.
  - split; [symmetry; apply set_result_same | left; reflexivity].
Qed.

Lemma highlight_rects (b : list Cell) (i : nat) (c : Cell) :
  b !! i = Some c -> rect_ <$> <[i := highlight c]> b = rect_ <$> b.
Proof.
  intros Hc. rewrite list_fmap_insert. apply list_insert_id.
  rewrite list_lookup_fmap, Hc. reflexivity.
Qed.

(** [int] addition: a value is the sum modulo 2^32 and lies in the range
    of [int]; by the rules of the language it is the sum itself. *)
Lemma wrap_in_int (z : Z) : in_int z = true -> wrap z = z.
Proof.
  unfold in_int, wrap, int_min, int_max. intros H.
  apply andb_true_iff in H as [H1 H2]. apply Z.leb_le in H1, H2.
  rewrite Z.mod_small by lia. lia.
Qed.

Lemma in_int_wrap (z : Z) : in_int (wrap z) = true.
Proof.
  unfold in_int, wrap, int_min, int_max.
  pose proof (Z.mod_pos_bound (z - -2147483648) (2 ^ 32) ltac:(lia)) as H.
  apply andb_true_iff. split; apply Z.leb_le; lia.
Qed.

Lemma wrap_add (a b : Z) : wrap (wrap a + b) = wrap (a + b).
Proof.
  unfold wrap. f_equal.
  replace ((a - int_min) mod 2 ^ 32 + int_min + b - int_min)
    with ((a - int_min) mod 2 ^ 32 + b) by lia.
  replace (a + b - int_min) with ((a - int_min) + b) by lia.
  rewrite Z.add_mod_idemp_l by lia. reflexivity.
Qed.

Lemma int_add_ok (cv : conversion) (a b c : Z) :
  int_add cv a b = Ok c ->
  c = wrap (a + b) /\ in_int c = true /\ (cv = IsoCpp -> c = a + b).
Proof.
  unfold int_add. destruct (in_int (a + b)) eqn:Hi.
  - intros H. injection H as <-. rewrite wrap_in_int by assumption. auto.
  - destruct cv as [|v]; [discriminate|]. intros H. injection H as <-.
    split; [reflexivity|]. split; [apply in_int_wrap | discriminate].
Qed.

Lemma int_add_in_range (cv : conversion) (a b : Z) :
  in_int (a + b) = true -> int_add cv a b = Ok (a + b).
Proof. unfold int_add. intros ->. reflexivity. Qed.

Lemma int_add_ends (cv : conversion) (a b : Z) : ends cv (int_add cv a b).
Proof.
  unfold int_add, ends. destruct (in_int (a + b)); [exact I|].
  destruct cv; [reflexivity | exact I].
Qed.

(** A tick that returns has moved the box by the velocity on [int] and,
    under the left button, cast from the new place. *)
Lemma Tick_cases (cv : conversion) (g g' : Game) :
  Tick cv g = Ok g' ->
  exists x y : Z,
    int_add cv (SDL_Rect.x (box_ (player_ g))) (vx_ (player_ g)) = Ok x
    /\ int_add cv (SDL_Rect.y (box_ (player_ g))) (vy_ (player_ g)) = Ok y
    /\ (let moved :=
          set_player g
            (mkPlayerBox (SDL_Rect.mk x y (SDL_Rect.w (box_ (player_ g)))
                                     (SDL_Rect.h (box_ (player_ g))))
                         (vx_ (player_ g)) (vy_ (player_ g))) in
        if mouse_left_pressed_ g then DigitalDifferentialAnalysis cv moved = Ok g'
        else g' = moved).
Proof.
  unfold Tick. cbv zeta.
  destruct (int_add cv (SDL_Rect.x (box_ (player_ g))) (vx_ (player_ g))) as [x | |];
    cbn [bind]; try discriminate.
  destruct (int_add cv (SDL_Rect.y (box_ (player_ g))) (vy_ (player_ g))) as [y | |];
    cbn [bind]; try discriminate.
  intros H. exists x, y. split; [reflexivity|]. split; [reflexivity|].
  unfold set_player. destruct (mouse_left_pressed_ g); [exact H | congruence].
Qed.

Lemma Tick_moved (cv : conversion) (g g' : Game) :
  Tick cv g = Ok g' ->
  exists x y : Z,
    int_add cv (SDL_Rect.x (box_ (player_ g))) (vx_ (player_ g)) = Ok x
    /\ int_add cv (SDL_Rect.y (box_ (player_ g))) (vy_ (player_ g)) = Ok y
    /\ g' = set_result
              (set_player g
                 (mkPlayerBox (SDL_Rect.mk x y (SDL_Rect.w (box_ (player_ g)))
                                          (SDL_Rect.h (box_ (player_ g))))
                              (vx_ (player_ g)) (vy_ (player_ g))))
              (board_ g') (dda_intersection_ g')
    /\ (board_ g' = board_ g
        \/ exists (i : nat) (c : Cell),
             board_ g !! i = Some c /\ is_wall_ c = true
             /\ board_ g' = <[i := highlight c]> (board_ g))
    /\ (mouse_left_pressed_ g = false -> dda_intersection_ g' = dda_intersection_ g).
Proof.
  intros H. apply Tick_cases in H as (x & y & Hx & Hy & H). cbv zeta in H.
  exists x, y. split; [exact Hx|]. split; [exact Hy|].
  destruct (mouse_left_pressed_ g).
  - apply DigitalDifferentialAnalysis_frame in H as [Hg' Hb]. cbn [board_ set_player] in Hb.
    split; [exact Hg'|]. split; [exact Hb | discriminate].
  - subst g'. cbn [board_ dda_intersection_ set_player].
    split; [reflexivity|]. split; [left; reflexivity | reflexivity].
Qed.

Lemma Tick_inv (cv : conversion) (g g' : Game) :
  state_inv g -> Tick cv g = Ok g' -> state_inv g'.
Proof.
  intros (Hg & Hb & Hvx & Hvy & Ha & Hm) H.
  apply Tick_moved in H as (x & y & _ & _ & Hg' & Hbd & Hd).
  assert (Hr' : rect_ <$> board_ g' = rect_ <$> fresh_board 32 30 20).
  { destruct Hg as (_ & _ & _ & Hr).
    destruct Hbd as [-> | (i & c & Hc & _ & ->)]; [assumption|].
    rewrite highlight_rects; assumption. }
  rewrite Hg'. unfold set_result, set_player.
  repeat split; try apply Hg; try apply Hb; try assumption; cbn.
  intros Hp. rewrite Hd by exact Hp. auto.
Qed.

Lemma ticks_inv (cv : conversion) (n : nat) :
  forall g g', state_inv g -> ticks cv n g = Ok g' -> state_inv g'.
Proof.
  induction n as [|n IH]; intros g g' Hi; cbn [ticks].
  - intros H. injection H as <-. assumption.
  - destruct (Tick cv g) as [g1 | |] eqn:H1; cbn [bind]; try discriminate.
    apply IH. eapply Tick_inv; eassumption.
Qed.

(** A tick ends; it is undefined only by the rules of the language: the
    conversion of a float that has no [int], or a sum that leaves the
    range of [int]. *)
Lemma Tick_ends (cv : conversion) (g : Game) :
  cell_size_ g = 32 -> ends cv (Tick cv g).
Proof.
  intros Hcs. unfold Tick. cbv zeta.
  pose proof (int_add_ends cv (SDL_Rect.x (box_ (player_ g))) (vx_ (player_ g))) as Hx.
  destruct (int_add cv (SDL_Rect.x (box_ (player_ g))) (vx_ (player_ g))) as [x | |];
    cbn [bind]; try exact Hx.
  pose proof (int_add_ends cv (SDL_Rect.y (box_ (player_ g))) (vy_ (player_ g))) as Hy.
  destruct (int_add cv (SDL_Rect.y (box_ (player_ g))) (vy_ (player_ g))) as [y | |];
    cbn [bind]; try exact Hy.
  unfold ends. destruct (mouse_left_pressed_ g); [|exact I].
  unfold DigitalDifferentialAnalysis.
  match goal with |- context [cast cv ?g1] =>
    pose proof (cast_ends cv g1 Hcs) as He; pose proof (cast_undefined cv g1 Hcs) as Hu;
    destruct (cast cv g1) as [[[[r t] b] |] | |]; cbn [bind] end.
  - exact I.
  - exact I.
  - auto.
  - destruct He as [He | [c He]]; discriminate.
Qed.

Lemma ticks_ends (cv : conversion) (n : nat) :
  forall g,
    state_inv g -> ends cv (ticks cv n g).
Proof.
  induction n as [|n IH]; intros g Hi; cbn [ticks]; [exact I|].
  pose proof (Tick_ends cv g (proj1 (proj1 Hi))) as He. unfold ends in He.
  destruct (Tick cv g) as [g1 | |] eqn:H1; cbn [bind]; try assumption.
  apply IH. eapply Tick_inv; eassumption.
Qed.

(** ** Rendering *)

Lemma cell_calls_snoc (b : list Cell) (k : nat) (c : Cell) :
  b !! k = Some c ->
  cell_calls (take (S k) b)
  = cell_calls (take k b)
    ++ (if is_wall_ c
        then [SDL_SetRenderDrawColor 0 0 255 255; SDL_RenderFillRect (rect_ c)]
        else []).
Proof.
  intros Hc. unfold cell_calls. rewrite (take_S_r _ _ c Hc), flat_map_app. cbn [flat_map].
  rewrite app_nil_r. reflexivity.
Qed.

(** The loop of [RenderCells] over indices of the board. *)
Lemma render_cells_prefix (b : list Cell) (count : nat) :
  forall k : nat,
    (k + count <= length b)%nat ->
    for_loop count (Z.of_nat k) (render_cell b) (cell_calls (take k b))
    = Ok (cell_calls (take (k + count) b)).
Proof.
  induction count as [|n IH]; intros k Hk; cbn [for_loop].
  - rewrite Nat.add_0_r. reflexivity.
  - destruct (b !! k) as [c|] eqn:Hc; [|apply lookup_ge_None in Hc; lia].
    unfold render_cell at 1.
    rewrite (read_cell_lookup (Z.of_nat k) b c) by (rewrite ?Nat2Z.id; assumption || lia).
    cbn [bind].
    replace (if is_wall_ c then _ else _) with (cell_calls (take (S k) b))
      by (rewrite (cell_calls_snoc b k c Hc); destruct (is_wall_ c);
          [reflexivity | apply app_nil_r]).
    replace (Z.of_nat k + 1) with (Z.of_nat (S k)) by lia.
    rewrite IH by lia. f_equal. f_equal. f_equal. lia.
Qed.

(** The loop of [RenderCells] when it runs past the end of the board. *)
Lemma render_cells_past (b : list Cell) (count : nat) :
  forall (k : nat) (drawn : list Draw),
    (k <= length b < k + count)%nat ->
    for_loop count (Z.of_nat k) (render_cell b) drawn = Undefined.
Proof.
  induction count as [|n IH]; intros k drawn Hk; [lia|]. cbn [for_loop].
  unfold render_cell at 1.
  destruct (b !! k) as [c|] eqn:Hc.
  - rewrite (read_cell_lookup (Z.of_nat k) b c) by (rewrite ?Nat2Z.id; assumption || lia).
    cbn [bind]. apply lookup_lt_Some in Hc.
    replace (Z.of_nat k + 1) with (Z.of_nat (S k)) by lia. apply IH. lia.
  - apply lookup_ge_None in Hc. rewrite read_cell_outside by lia. reflexivity.
Qed.

Lemma filled_cell_calls (b : list Cell) : filled (cell_calls b) = wall_rects b.
Proof.
  unfold wall_rects. induction b as [|c b IH]; [reflexivity|].
  cbn [cell_calls flat_map List.filter]. fold (cell_calls b).
  destruct (is_wall_ c); cbn; rewrite <- IH; reflexivity.
Qed.

Lemma RenderCells_calls (g : Game) :
  (Z.to_nat (cells_width_ g * cells_height_ g) <= length (board_ g))%nat ->
  RenderCells g
  = Ok (cell_calls (take (Z.to_nat (cells_width_ g * cells_height_ g)) (board_ g))).
Proof.
  intros Hl. unfold RenderCells, for_range. rewrite Z.sub_0_r.
  exact (render_cells_prefix (board_ g) _ 0%nat Hl).
Qed.

Lemma state_inv_render (g : Game) : state_inv g -> exists d, Render g = Ok d.
Proof.
  intros [Hg _]. pose proof (grid_kept_length g Hg) as Hl.
  destruct Hg as (_ & Hcw & Hch & _). unfold Render.
  rewrite RenderCells_calls by (rewrite Hcw, Hch, Hl; vm_compute; lia).
  cbn [bind]. eauto.
Qed.

(** ** The main loop *)

Lemma Game_new_inv (i : bool) : state_inv (Game_new i).
Proof.
  repeat split; try reflexivity; unfold velocity_ok; cbn; auto.
Qed.

Lemma main_loop_inv (cv : conversion) (frames : list Frame) :
  forall g drawn g' drawn',
    state_inv g -> main_loop cv frames g drawn = Ok (g', drawn') -> state_inv g'.
Proof.
  induction frames as [|f frames IH]; intros g drawn g' drawn' Hi; cbn [main_loop].
  - intros H. injection H as <- _. assumption.
  - destruct (running_ g); [|intros H; injection H as <- _; assumption].
    destruct (HandleEvents (queue f) g) as [g1 | |] eqn:H1; cbn [bind]; try discriminate.
    destruct (ticks cv (due f) g1) as [g2 | |] eqn:H2; cbn [bind]; try discriminate.
    destruct (Render g2) as [d | |]; cbn [bind]; try discriminate.
    apply IH. eapply ticks_inv; [|eassumption]. eapply HandleEvents_inv; eassumption.
Qed.

Lemma main_loop_ends (cv : conversion) (frames : list Frame) :
  forall g drawn,
    state_inv g -> cursor_in_window frames -> ends cv (main_loop cv frames g drawn).
Proof.
  induction frames as [|f frames IH]; intros g drawn Hi Hw; cbn [main_loop]; [exact I|].
  apply Forall_cons in Hw as [Hf Hw].
  destruct (running_ g); [|exact I].
  destruct (HandleEvents_defined (queue f) g Hi Hf) as [g1 H1]. rewrite H1. cbn [bind].
  assert (Hi1 : state_inv g1) by (eapply HandleEvents_inv; eassumption).
  pose proof (ticks_ends cv (due f) g1 Hi1) as He. unfold ends in He.
  destruct (ticks cv (due f) g1) as [g2 | |] eqn:H2; cbn [bind]; try assumption.
  assert (Hi2 : state_inv g2) by (eapply ticks_inv; eassumption).
  destruct (state_inv_render g2 Hi2) as [d ->]. cbn [bind].
  apply IH; assumption.
Qed.

Lemma Run_inv (cv : conversion) (frames : list Frame) (i : bool) (g : Game)
    (drawn : list (list Draw)) :
  Run cv frames (Game_new i) = Ok (g, drawn) -> state_inv g.
Proof.
  unfold Run. destruct i; cbn [negb initialized_ Game_new].
  - apply main_loop_inv. apply set_running_inv, Game_new_inv.
  - intros H. injection H as <- _. apply Game_new_inv.
Qed.

(** ** Highlights *)

Lemma highlights_kept_refl (b : list Cell) : highlights_kept b b.
Proof. intros i c Hc Hh. eauto. Qed.

Lemma highlights_kept_trans (b1 b2 b3 : list Cell) :
  highlights_kept b1 b2 -> highlights_kept b2 b3 -> highlights_kept b1 b3.
Proof.
  intros H12 H23 i c Hc Hh. destruct (H12 i c Hc Hh) as (c2 & Hc2 & Hh2). eauto.
Qed.

Lemma highlights_kept_insert (b : list Cell) (i : nat) (c c' : Cell) :
  b !! i = Some c -> (highlighted_ c = true -> highlighted_ c' = true) ->
  highlights_kept b (<[i := c']> b).
Proof.
  intros Hc Hh j d Hd Hhd. destruct (decide (j = i)) as [-> | Hj].
  - exists c'. split.
    + apply list_lookup_insert_eq. eapply lookup_lt_Some. eassumption.
    + apply Hh. congruence.
  - exists d. rewrite list_lookup_insert_ne by congruence. auto.
Qed.

Lemma update_cell_highlights (i : Z) (f : Cell -> Cell) (b b' : list Cell) :
  (forall c, highlighted_ (f c) = highlighted_ c) ->
  update_cell i f b = Ok b' -> highlights_kept b b'.
Proof.
  intros Hf Hu. apply update_cell_lookup in Hu as (c & _ & Hc & ->).
  apply (highlights_kept_insert b _ c); [assumption|]. rewrite Hf. auto.
Qed.

Lemma handle_event_highlights (e : SDL_Event) (g g' : Game) :
  handle_event e g = Ok g' -> highlights_kept (board_ g) (board_ g').
Proof.
  unfold handle_event.
  destruct e as [| [] | [] | | [] | [] |]; cbn [mouse_buttons mouse_motion bind keys];
    try (intros H; injection H as <-; apply highlights_kept_refl).
  - unfold right_button_down. cbv zeta.
    destruct (cursor_index _) as [i | |]; cbn [bind]; try discriminate.
    destruct (read_cell i _) as [c | |]; cbn [bind]; try discriminate.
    destruct (update_cell i toggle_wall _) as [b | |] eqn:Hu; cbn [bind]; try discriminate.
    intros H. injection H as <-. cbn.
    apply (update_cell_highlights i toggle_wall); [reflexivity | exact Hu].
  - cbv zeta. cbn [mouse_right_pressed_ set_mouse_box].
    destruct (mouse_right_pressed_ g); cbn [bind].
    + destruct (cursor_index _) as [i | |]; cbn [bind]; try discriminate.
      destruct (update_cell i _ _) as [b | |] eqn:Hu; cbn [bind]; try discriminate.
      intros H. injection H as <-. cbn.
      eapply update_cell_highlights; [|exact Hu]. reflexivity.
    + intros H. injection H as <-. apply highlights_kept_refl.
Qed.

Lemma HandleEvents_highlights (q : list Polled) :
  forall g g', HandleEvents q g = Ok g' -> highlights_kept (board_ g) (board_ g').
Proof.
  induction q as [|[e p] q IH]; intros g g'; cbn [HandleEvents event mouse_state].
  - intros H. injection H as <-. apply highlights_kept_refl.
  - destruct e as [| b | b | | k | k |];
      try (destruct (handle_event _ _) as [g1 | |] eqn:H1; cbn [bind]; try discriminate;
           intros H; apply handle_event_highlights in H1; apply IH in H;
           eapply highlights_kept_trans; [exact H1 | exact H]).
    intros H. injection H as <-. apply highlights_kept_refl.
Qed.

Lemma Tick_highlights (cv : conversion) (g g' : Game) :
  Tick cv g = Ok g' -> highlights_kept (board_ g) (board_ g').
Proof.
  intros H. apply Tick_moved in H as (x & y & _ & _ & _ & Hb & _).
  destruct Hb as [-> | (i & c & Hc & _ & ->)]; [apply highlights_kept_refl|].
  apply (highlights_kept_insert _ _ c); [assumption | reflexivity].
Qed.

Lemma ticks_highlights (cv : conversion) (n : nat) :
  forall g g', ticks cv n g = Ok g' -> highlights_kept (board_ g) (board_ g').
Proof.
  induction n as [|n IH]; intros g g'; cbn [ticks].
  - intros H. injection H as <-. apply highlights_kept_refl.
  - destruct (Tick cv g) as [g1 | |] eqn:H1; cbn [bind]; try discriminate.
    intros H. apply Tick_highlights in H1. apply IH in H.
    eapply highlights_kept_trans; eassumption.
Qed.

Lemma main_loop_highlights (cv : conversion) (frames : list Frame) :
  forall g drawn g' drawn',
    main_loop cv frames g drawn = Ok (g', drawn') ->
    highlights_kept (board_ g) (board_ g').
Proof.
  induction frames as [|f frames IH]; intros g drawn g' drawn'; cbn [main_loop].
  - intros H. injection H as <- _. apply highlights_kept_refl.
  - destruct (running_ g); [|intros H; injection H as <- _; apply highlights_kept_refl].
    destruct (HandleEvents (queue f) g) as [g1 | |] eqn:H1; cbn [bind]; try discriminate.
    destruct (ticks cv (due f) g1) as [g2 | |] eqn:H2; cbn [bind]; try discriminate.
    destruct (Render g2) as [d | |]; cbn [bind]; try discriminate.
    intros H. apply IH in H. apply HandleEvents_highlights in H1.
    apply ticks_highlights in H2.
    eapply highlights_kept_trans; [|exact H].
    eapply highlights_kept_trans; eassumption.
Qed.

(** ** Editing walls *)

Lemma cursor_index_cell_index (g : Game) (p : SDL_Point.t) :
  cell_size_ g <> 0 ->
  cursor_index (set_mouse_position g p)
  = Ok (cell_index (cell_size_ g) (cells_width_ g)
          (Vector2d.mk (SDL_Point.x p) (SDL_Point.y p))).
Proof.
  intros Hcs. unfold cursor_index, cell_index. cbn.
  destruct (Z.eqb_spec (cell_size_ g) 0); [contradiction | reflexivity].
Qed.

Lemma wall_at_insert (g g' : Game) (i : Z) (c c' : Cell) (q : SDL_Point.t) (v : bool) :
  cell_size_ g' = cell_size_ g -> cells_width_ g' = cells_width_ g ->
  0 <= i -> board_ g !! Z.to_nat i = Some c ->
  board_ g' = <[Z.to_nat i := c']> (board_ g) -> is_wall_ c' = v ->
  (cell_index (cell_size_ g) (cells_width_ g)
     (Vector2d.mk (SDL_Point.x q) (SDL_Point.y q)) = i
   \/ wall_at g q = Some v) ->
  wall_at g' q = Some v.
Proof.
  intros Hcs Hcw Hi Hc Hb Hv Hq. unfold wall_at in *. cbv zeta in *.
  rewrite Hcs, Hcw, Hb.
  set (j := cell_index (cell_size_ g) (cells_width_ g)
              (Vector2d.mk (SDL_Point.x q) (SDL_Point.y q))) in *.
  assert (Hl : (Z.to_nat i < length (board_ g))%nat) by (eapply lookup_lt_Some; eassumption).
  destruct (Z.eq_dec j i) as [-> | Hne].
  - replace (0 <=? i) with true by (symmetry; apply Z.leb_le; lia).
    rewrite list_lookup_insert_eq by assumption. cbn. congruence.
  - destruct Hq as [Hq | Hq]; [contradiction|].
    destruct (Z.leb_spec 0 j) as [Hj | Hj]; [|discriminate].
    rewrite list_lookup_insert_ne by lia. assumption.
Qed.

(** A motion with the right button held, on the constructor's grid and
    with the cursor in the window. *)
Lemma motion_paints (g : Game) (p : SDL_Point.t) :
  grid_kept g -> mouse_right_pressed_ g = true -> in_window p ->
  exists g1,
    handle_event SDL_MOUSEMOTION (set_mouse_position g p) = Ok g1
    /\ grid_kept g1 /\ mouse_right_pressed_ g1 = true
    /\ setting_walls_ g1 = setting_walls_ g
    /\ wall_at g1 p = Some (setting_walls_ g)
    /\ forall q, wall_at g q = Some (setting_walls_ g) ->
                 wall_at g1 q = Some (setting_walls_ g).
Proof.
  intros Hg Hp Hw.
  destruct (cursor_cell (set_mouse_position g p) Hg Hw) as (i & c & Hi & Hr & Hc & Hie & _).
  cbn [board_ set_mouse_position mouse_position_] in Hc, Hie.
  assert (Hcs : cell_size_ g <> 0) by (destruct Hg as (-> & _); lia).
  rewrite cursor_index_cell_index in Hi by assumption. injection Hi as Hi.
  unfold handle_event. cbn [mouse_buttons mouse_motion bind]. cbv zeta.
  cbn [mouse_right_pressed_ set_mouse_box set_mouse_position]. rewrite Hp.
  match goal with |- context [cursor_index ?g1] =>
    change (cursor_index g1) with (cursor_index (set_mouse_position g p)) end.
  rewrite cursor_index_cell_index, Hi by assumption. cbn [bind].
  unfold update_cell. cbn [board_ setting_walls_].
  rewrite (read_cell_lookup i _ c) by (assumption || lia). cbn [bind keys].
  eexists. split; [reflexivity|].
  split.
  { destruct Hg as (H1 & H2 & H3 & H4). repeat split; try assumption.
    cbn. rewrite list_fmap_insert. cbn [paint_wall rect_]. rewrite list_insert_id; [assumption|].
    rewrite list_lookup_fmap, Hc. reflexivity. }
  split; [exact Hp|]. split; [reflexivity|].
  split.
  - eapply (wall_at_insert g _ i c); try reflexivity; try lia; assumption.
  - intros q Hq.
    eapply (wall_at_insert g _ i c); try reflexivity; try lia; try assumption.
    right. assumption.
Qed.

(** The same for a run of motions. *)
Lemma motions_paint (ps : list SDL_Point.t) :
  forall g,
    grid_kept g -> mouse_right_pressed_ g = true -> Forall in_window ps ->
    exists g',
      HandleEvents (motion <$> ps) g = Ok g'
      /\ setting_walls_ g' = setting_walls_ g
      /\ Forall (fun p => wall_at g' p = Some (setting_walls_ g)) ps
      /\ forall q, wall_at g q = Some (setting_walls_ g) ->
                   wall_at g' q = Some (setting_walls_ g).
Proof.
  induction ps as [|p ps IH]; intros g Hg Hp Hw.
  - exists g. repeat split; auto.
  - apply Forall_cons in Hw as [Hwp Hw].
    destruct (motion_paints g p Hg Hp Hwp) as (g1 & H1 & Hg1 & Hp1 & Hs1 & Hat & Hkeep).
    destruct (IH g1 Hg1 Hp1 Hw) as (g' & H' & Hs' & Hall & Hkeep').
    rewrite Hs1 in *.
    exists g'. cbn [fmap list_fmap HandleEvents event mouse_state motion].
    rewrite H1. cbn [bind]. split; [exact H'|]. split; [assumption|].
    split; [|auto]. apply Forall_cons. split; [auto | assumption].
Qed.

(** A right click on the constructor's grid with the cursor in the
    window. *)
Lemma right_click (g : Game) (p : SDL_Point.t) :
  grid_kept g -> in_window p ->
  exists (i : Z) (c : Cell),
    0 <= i /\ board_ g !! Z.to_nat i = Some c
    /\ i = cell_index (cell_size_ g) (cells_width_ g)
             (Vector2d.mk (SDL_Point.x p) (SDL_Point.y p))
    /\ in_rect (rect_ c) (SDL_Point.x p) (SDL_Point.y p)
    /\ handle_event (SDL_MOUSEBUTTONDOWN SDL_BUTTON_RIGHT) (set_mouse_position g p)
       = Ok (set_board
               (set_setting_walls
                  (set_mouse_right_pressed (set_mouse_position g p) true)
                  (negb (is_wall_ c)))
               (<[Z.to_nat i := toggle_wall c]> (board_ g))).
Proof.
  intros Hg Hw.
  destruct (cursor_cell (set_mouse_position g p) Hg Hw) as (i & c & Hi & Hr & Hc & _ & Hin).
  cbn [board_ set_mouse_position mouse_position_] in Hc, Hin.
  assert (Hcs : cell_size_ g <> 0) by (destruct Hg as (-> & _); lia).
  pose proof Hi as Hi'. rewrite cursor_index_cell_index in Hi' by assumption.
  injection Hi' as Hi'.
  exists i, c. split; [lia|]. split; [assumption|]. split; [congruence|].
  split; [assumption|].
  unfold handle_event. cbn [mouse_buttons]. unfold right_button_down. cbv zeta.
  change (cursor_index (set_mouse_right_pressed (set_mouse_position g p) true))
    with (cursor_index (set_mouse_position g p)).
  rewrite Hi. cbn [bind]. unfold update_cell.
  cbn [board_ set_setting_walls set_mouse_right_pressed set_mouse_position].
  rewrite !(read_cell_lookup i _ c) by (assumption || lia). reflexivity.
Qed.

(** ** Quitting *)

Lemma HandleEvents_quit (q1 : list Polled) (p : SDL_Point.t) (q2 : list Polled) :
  forall g,
    HandleEvents (q1 ++ mkPolled SDL_QUIT p :: q2) g
    = HandleEvents (q1 ++ [mkPolled SDL_QUIT p]) g
    /\ forall g', HandleEvents (q1 ++ [mkPolled SDL_QUIT p]) g = Ok g' -> running_ g' = false.
Proof.
  induction q1 as [|[e p1] q1 IH]; intros g; cbn [app HandleEvents event mouse_state].
  - split; [reflexivity|]. intros g' H. injection H as <-. reflexivity.
  - destruct e as [| b | b | | k | k |];
      try (destruct (handle_event _ _) as [g1 | |]; cbn [bind];
           [apply IH | split; [reflexivity | discriminate] ..]).
    split; [reflexivity|]. intros g' H. injection H as <-. reflexivity.
Qed.

(** ** Ticks and the player *)

Lemma Tick_player (cv : conversion) (g g' : Game) :
  Tick cv g = Ok g' ->
  exists x y : Z,
    int_add cv (SDL_Rect.x (box_ (player_ g))) (vx_ (player_ g)) = Ok x
    /\ int_add cv (SDL_Rect.y (box_ (player_ g))) (vy_ (player_ g)) = Ok y
    /\ player_ g'
       = mkPlayerBox (SDL_Rect.mk x y (SDL_Rect.w (box_ (player_ g)))
                                 (SDL_Rect.h (box_ (player_ g))))
                     (vx_ (player_ g)) (vy_ (player_ g)).
Proof.
  intros H. apply Tick_moved in H as (x & y & Hx & Hy & -> & _).
  exists x, y. split; [exact Hx|]. split; [exact Hy | reflexivity].
Qed.

(** ** What [RenderCells] reads of the board *)

Lemma for_loop_ext {A : Type} (body body' : Z -> A -> result A) (count : nat) :
  (forall i a, body i a = body' i a) ->
  forall i a, for_loop count i body a = for_loop count i body' a.
Proof.
  intros He. induction count as [|n IH]; intros i a; cbn [for_loop]; [reflexivity|].
  rewrite He. destruct (body' i a); cbn [bind]; auto.
Qed.

Lemma render_cell_highlight (b : list Cell) (j : nat) (c : Cell) (i : Z)
    (drawn : list Draw) :
  b !! j = Some c ->
  render_cell (<[j := highlight c]> b) i drawn = render_cell b i drawn.
Proof.
  intros Hc. unfold render_cell, read_cell. rewrite length_insert.
  destruct ((0 <=? i) && (i <? Z.of_nat (length b))); [|reflexivity].
  destruct (decide (Z.to_nat i = j)) as [-> | Hne].
  - rewrite list_lookup_insert_eq by (eapply lookup_lt_Some; eassumption).
    rewrite Hc. reflexivity.
  - rewrite list_lookup_insert_ne by congruence. reflexivity.
Qed.

Lemma RenderCells_highlight (g g' : Game) (j : nat) (c : Cell) :
  cells_width_ g' = cells_width_ g -> cells_height_ g' = cells_height_ g ->
  board_ g !! j = Some c -> board_ g' = <[j := highlight c]> (board_ g) ->
  RenderCells g' = RenderCells g.
Proof.
  intros Hw Hh Hc Hb. unfold RenderCells, for_range. rewrite Hw, Hh, Hb.
  apply for_loop_ext. intros i a. apply render_cell_highlight. assumption.
Qed.

(** [n] ticks that return: the box has moved [n] times the velocity,
    modulo 2^32; by the rules of the language no sum has left the range
    of [int]. *)
Lemma ticks_player (cv : conversion) (n : nat) :
  forall g g',
    in_int (SDL_Rect.x (box_ (player_ g))) = true ->
    in_int (SDL_Rect.y (box_ (player_ g))) = true ->
    ticks cv n g = Ok g' ->
    player_ g'
    = mkPlayerBox
        (SDL_Rect.mk (wrap (SDL_Rect.x (box_ (player_ g)) + Z.of_nat n * vx_ (player_ g)))
                     (wrap (SDL_Rect.y (box_ (player_ g)) + Z.of_nat n * vy_ (player_ g)))
                     (SDL_Rect.w (box_ (player_ g))) (SDL_Rect.h (box_ (player_ g))))
        (vx_ (player_ g)) (vy_ (player_ g))
    /\ (cv = IsoCpp ->
        forall k : nat, (k <= n)%nat ->
          in_int (SDL_Rect.x (box_ (player_ g)) + Z.of_nat k * vx_ (player_ g)) = true
          /\ in_int (SDL_Rect.y (box_ (player_ g)) + Z.of_nat k * vy_ (player_ g)) = true).
Proof.
  induction n as [|n IH]; intros g g' Hxi Hyi; cbn [ticks].
  - intros H. injection H as <-. destruct (player_ g) as [[x y w h] vx vy].
    cbn [player_ box_ vx_ vy_ SDL_Rect.x SDL_Rect.y SDL_Rect.w SDL_Rect.h] in *.
    rewrite !Z.mul_0_l, !Z.add_0_r, !wrap_in_int by assumption.
    split; [reflexivity|]. intros _ k Hk. assert (k = O) by lia. subst k.
    rewrite !Z.mul_0_l, !Z.add_0_r. auto.
  - destruct (Tick cv g) as [g1 | |] eqn:H1; cbn [bind]; try discriminate.
    intros H. apply Tick_player in H1 as (x1 & y1 & Hx & Hy & Hp1).
    apply int_add_ok in Hx as (Hx & Hxr & Hxe), Hy as (Hy & Hyr & Hye).
    destruct (player_ g) as [[x y w h] vx vy].
    cbn [player_ box_ vx_ vy_ SDL_Rect.x SDL_Rect.y SDL_Rect.w SDL_Rect.h] in *.
    apply IH in H;
      [| rewrite Hp1; exact Hxr | rewrite Hp1; exact Hyr].
    rewrite Hp1 in H. cbn [player_ box_ vx_ vy_ SDL_Rect.x SDL_Rect.y SDL_Rect.w SDL_Rect.h] in H.
    destruct H as [H Hk]. split.
    + rewrite H, Hx, Hy, !wrap_add. f_equal. f_equal; f_equal; lia.
    + intros Hcv k Hle. specialize (Hxe Hcv). specialize (Hye Hcv).
      destruct k as [|k].
      * rewrite !Z.mul_0_l, !Z.add_0_r. auto.
      * destruct (Hk Hcv k ltac:(lia)) as [Ha Hb].
        replace (x + Z.of_nat (S k) * vx) with (x + vx + Z.of_nat k * vx) by lia.
        replace (y + Z.of_nat (S k) * vy) with (y + vy + Z.of_nat k * vy) by lia.
        rewrite <- Hxe, <- Hye. auto.
Qed.

(** ** Exact arithmetic on small integers *)

Lemma float_eqb_eq (a b : float) : float_eqb a b = true -> a = b.
Proof.
  destruct a as [s | s | | s m e], b as [s' | s' | | s' m' e']; cbn [float_eqb];
    try discriminate; try reflexivity.
  - intros H. apply eqb_prop in H. congruence.
  - intros H. apply eqb_prop in H. congruence.
  - intros H. apply andb_prop in H as [H He]. apply andb_prop in H as [Hs Hm].
    apply eqb_prop in Hs. apply Pos.eqb_eq in Hm. apply Z.eqb_eq in He. congruence.
Qed.

Lemma vector_eqb_eq (a b : Vector2d float) : vector_eqb a b = true -> a = b.
Proof.
  destruct a, b. unfold vector_eqb. cbn [Vector2d.x Vector2d.y].
  intros H. apply andb_prop in H as [Hx Hy].
  apply float_eqb_eq in Hx, Hy. congruence.
Qed.

Lemma range_all (f : Z -> bool) (lo : Z) (len : nat) :
  forallb f (range lo len) = true ->
  forall n, lo <= n < lo + Z.of_nat len -> f n = true.
Proof.
  intros H n Hn. rewrite forallb_forall in H. apply H. unfold range.
  apply in_map_iff. exists (Z.to_nat (n - lo)). split; [lia|]. apply in_seq. lia.
Qed.

Lemma exact_int_table : forallb exact_int (range (-960) 1921) = true.
Proof. vm_compute. reflexivity. Qed.

Lemma exact_sum_table : forallb exact_sum (range (-1920) 3841) = true.
Proof. vm_compute. reflexivity. Qed.

Lemma axis_direction_table : forallb axis_direction_ok (range (-960) 1921) = true.
Proof. vm_compute. reflexivity. Qed.

Lemma along_axis_table : forallb along_axis_ok (range 0 961) = true.
Proof. vm_compute. reflexivity. Qed.

Lemma against_axis_table : forallb against_axis_ok (range 0 961) = true.
Proof. vm_compute. reflexivity. Qed.

Lemma across_axis_table : forallb across_axis_ok (range 0 961) = true.
Proof. vm_compute. reflexivity. Qed.

Lemma distance_table : forallb distance_ok (range 0 961) = true.
Proof. vm_compute. reflexivity. Qed.

(** The shape of [static_cast<float>(n)] for a small [n] that is not 0. *)
Lemma of_int_shape (n : Z) :
  -960 <= n <= 960 -> n <> 0 ->
  exists (m : positive) (e : Z),
    F32.of_int n = S754_finite (n <? 0) m e
    /\ -23 <= e <= -14 /\ Zpos m = Z.abs n * 2 ^ (- e)
    /\ F32.of_int (- n) = S754_finite (negb (n <? 0)) m e.
Proof.
  intros Hn H0. pose proof (range_all _ _ _ exact_int_table n ltac:(lia)) as H.
  unfold exact_int in H.
  destruct (F32.of_int n) as [[] | | | s m e]; try discriminate.
  - apply Z.eqb_eq in H. contradiction.
  - apply andb_prop in H as [H Ho]. apply andb_prop in H as [H Hm].
    apply andb_prop in H as [H He1]. apply andb_prop in H as [Hs He0].
    apply eqb_prop in Hs. apply Z.leb_le in He0, He1. apply Z.eqb_eq in Hm.
    apply float_eqb_eq in Ho. subst s. exists m, e. auto.
Qed.

(** A mantissa of [of_int_shape], aligned to a smaller exponent. *)
Lemma aligned (n : Z) (m : positive) (e ez : Z) :
  Zpos m = Z.abs n * 2 ^ (- e) -> ez <= e -> e <= 0 ->
  cond_Zopp (n <? 0) (Zpos (fst (shl_align m e ez))) = n * 2 ^ (- ez).
Proof.
  intros Hm Hz He. destruct (shl_align_spec m e ez) as [Hs ->]. rewrite Hs.
  replace (Z.min e ez) with ez by lia.
  rewrite Z.shiftl_mul_pow2 by lia. rewrite Hm.
  replace (- ez) with (- e + (e - ez)) by lia. rewrite Z.pow_add_r by lia.
  unfold cond_Zopp. destruct (Z.ltb_spec n 0); nia.
Qed.

Lemma normalize_exact (n k : Z) :
  -1920 <= n <= 1920 -> 14 <= k <= 23 ->
  binary_normalize F32.prec F32.emax (n * 2 ^ k) (- k) false = F32.of_int n.
Proof.
  intros Hn Hk. pose proof (range_all _ _ _ exact_sum_table n ltac:(lia)) as H.
  unfold exact_sum in H. rewrite forallb_forall in H.
  apply float_eqb_eq, (H k). apply in_map_iff. exists (Z.to_nat k). split; [lia|].
  apply in_seq. lia.
Qed.

Lemma add_of_int (a b : Z) :
  -960 <= a <= 960 -> -960 <= b <= 960 ->
  F32.add (F32.of_int a) (F32.of_int b) = F32.of_int (a + b).
Proof.
  intros Ha Hb.
  destruct (Z.eq_dec a 0) as [-> | Ha0]; [|destruct (Z.eq_dec b 0) as [-> | Hb0]].
  - rewrite of_int_0, Z.add_0_l.
    destruct (Z.eq_dec b 0) as [-> | Hb0]; [reflexivity|].
    destruct (of_int_shape b Hb Hb0) as (m & e & -> & _). reflexivity.
  - rewrite of_int_0, Z.add_0_r.
    destruct (of_int_shape a Ha Ha0) as (m & e & -> & _). reflexivity.
  - destruct (of_int_shape a Ha Ha0) as (ma & ea & -> & Hea & Hma & _).
    destruct (of_int_shape b Hb Hb0) as (mb & eb & -> & Heb & Hmb & _).
    unfold F32.add, SFadd. cbv zeta.
    rewrite (aligned a ma ea _ Hma) by lia. rewrite (aligned b mb eb _ Hmb) by lia.
    rewrite <- Z.mul_add_distr_r.
    replace (Z.min ea eb) with (- - Z.min ea eb) at 2 by lia.
    apply normalize_exact; lia.
Qed.

Lemma sub_of_int (a b : Z) :
  -960 <= a <= 960 -> -960 <= b <= 960 ->
  F32.sub (F32.of_int a) (F32.of_int b) = F32.of_int (a - b).
Proof.
  intros Ha Hb.
  destruct (Z.eq_dec a 0) as [-> | Ha0]; [|destruct (Z.eq_dec b 0) as [-> | Hb0]].
  - rewrite of_int_0, Z.sub_0_l.
    destruct (Z.eq_dec b 0) as [-> | Hb0]; [reflexivity|].
    destruct (of_int_shape b Hb Hb0) as (m & e & -> & _ & _ & ->). reflexivity.
  - rewrite of_int_0, Z.sub_0_r.
    destruct (of_int_shape a Ha Ha0) as (m & e & -> & _). reflexivity.
  - destruct (of_int_shape a Ha Ha0) as (ma & ea & -> & Hea & Hma & _).
    destruct (of_int_shape b Hb Hb0) as (mb & eb & -> & Heb & Hmb & _).
    unfold F32.sub, SFsub. cbv zeta.
    rewrite (aligned a ma ea _ Hma) by lia. rewrite (aligned b mb eb _ Hmb) by lia.
    rewrite <- Z.mul_sub_distr_r.
    replace (Z.min ea eb) with (- - Z.min ea eb) at 2 by lia.
    apply normalize_exact; lia.
Qed.

(** ** Rays along an axis *)

Lemma along_axis (n : Z) :
  0 <= n <= 960 ->
  axis_setup 32 (F32.of_int 32) (F32.of_int n) n (n - Z.rem n 32) (F32.of_int 32)
  = (32, F32.of_int (n - Z.rem n 32 + 32 - n))
  /\ F32.trunc (F32.add (F32.of_int n)
                  (F32.mul (F32.of_int 1) (F32.of_int (n - Z.rem n 32 + 32 - n))))
     = Some (n - Z.rem n 32 + 32).
Proof.
  intros Hn. pose proof (range_all _ _ _ along_axis_table n ltac:(lia)) as H.
  unfold along_axis_ok in H. cbv zeta in H.
  apply andb_prop in H as [H Ht]. apply andb_prop in H as [Hs Hl].
  apply Z.eqb_eq in Hs. apply float_eqb_eq in Hl. split.
  - rewrite (surjective_pairing (axis_setup _ _ _ _ _ _)), Hs, Hl. reflexivity.
  - destruct (F32.trunc _) as [z|]; [|discriminate]. apply Z.eqb_eq in Ht. congruence.
Qed.

Lemma across_axis (n : Z) :
  0 <= n <= 960 ->
  axis_setup 32 zero (F32.of_int n) n (n - Z.rem n 32) infinity = (32, infinity).
Proof.
  intros Hn. pose proof (range_all _ _ _ across_axis_table n ltac:(lia)) as H.
  unfold across_axis_ok in H. cbv zeta in H. apply andb_prop in H as [Hs Hl].
  apply Z.eqb_eq in Hs. apply float_eqb_eq in Hl.
  rewrite (surjective_pairing (axis_setup _ _ _ _ _ _)), Hs, Hl. reflexivity.
Qed.

Lemma distance_facts (a : Z) :
  0 <= a <= 960 ->
  F32.ltb (F32.of_int a) infinity = true /\ F32.ltb (F32.of_int a) max_distance = true
  /\ F32.mul (F32.of_int 1) (F32.of_int a) = F32.of_int a
  /\ F32.mul zero (F32.of_int a) = zero
  /\ F32.add (F32.of_int a) zero = F32.of_int a
  /\ (a <> 0 -> F32.mul (F32.of_int (-1)) (F32.of_int a) = F32.of_int (- a)).
Proof.
  intros Ha. pose proof (range_all _ _ _ distance_table a ltac:(lia)) as H.
  unfold distance_ok in H.
  apply andb_prop in H as [H H6]. apply andb_prop in H as [H H5].
  apply andb_prop in H as [H H4]. apply andb_prop in H as [H H3].
  apply andb_prop in H as [H1 H2].
  apply float_eqb_eq in H3, H4, H5. repeat split; try assumption.
  intros H0. apply orb_prop in H6 as [H6 | H6]; [apply Z.eqb_eq in H6; contradiction|].
  apply float_eqb_eq. assumption.
Qed.

Lemma axis_directions (d : Z) :
  -960 <= d <= 960 -> d <> 0 ->
  Vector2d.SetLength (Vector2d.mk (F32.of_int d) zero) (F32.of_int 32)
  = Vector2d.mk (F32.of_int (32 * Z.sgn d)) zero
  /\ Vector2d.SetLength (Vector2d.mk (F32.of_int d) zero) (F32.of_int 1)
     = Vector2d.mk (F32.of_int (Z.sgn d)) zero
  /\ Vector2d.SetLength (Vector2d.mk zero (F32.of_int d)) (F32.of_int 32)
     = Vector2d.mk zero (F32.of_int (32 * Z.sgn d))
  /\ Vector2d.SetLength (Vector2d.mk zero (F32.of_int d)) (F32.of_int 1)
     = Vector2d.mk zero (F32.of_int (Z.sgn d)).
Proof.
  intros Hd H0. pose proof (range_all _ _ _ axis_direction_table d ltac:(lia)) as H.
  unfold axis_direction_ok in H. apply orb_prop in H as [H | H].
  - apply Z.eqb_eq in H. contradiction.
  - apply andb_prop in H as [H H4]. apply andb_prop in H as [H H3].
    apply andb_prop in H as [H1 H2].
    apply vector_eqb_eq in H1, H2, H3, H4. auto.
Qed.

Lemma rem_cell (n : Z) : 0 <= n -> 0 <= n - Z.rem n 32 <= n /\ 1 <= n - Z.rem n 32 + 32 - n <= 32.
Proof.
  intros Hn. pose proof (Z.rem_bound_pos n 32 Hn ltac:(lia)).
  pose proof (Z.rem_le n 32 Hn ltac:(lia)). lia.
Qed.

(** What [setup] hands to the loop for a ray along the x axis toward
    larger x. *)
Lemma setup_rightward (cv : conversion) (g : Game) (ox oy tx : Z) :
  cell_size_ g = 32 ->
  player_pos g = Vector2d.mk (F32.of_int ox) (F32.of_int oy) ->
  mouse_pos g = Vector2d.mk (F32.of_int tx) (F32.of_int oy) ->
  0 <= ox < tx -> tx <= 960 -> 0 <= oy <= 640 ->
  setup cv g
  = Ok (mkRay (Vector2d.mk (F32.of_int ox) (F32.of_int oy))
              (Vector2d.mk (F32.of_int 32) zero) (Vector2d.mk (F32.of_int 1) zero)
              (Vector2d.mk (F32.of_int 32) infinity) (Vector2d.mk 32 32),
        mkTraversal (Vector2d.mk (ox - Z.rem ox 32) (oy - Z.rem oy 32))
                    (Vector2d.mk (F32.of_int (ox - Z.rem ox 32 + 32 - ox)) infinity)
                    (F32.of_int 0) false).
Proof.
  intros Hcs Hp Hm Hx Ht Hy.
  assert (Hd : direction g = Vector2d.mk (F32.of_int (tx - ox)) zero).
  { unfold direction. rewrite Hp, Hm. cbn [Vector2d.x Vector2d.y].
    rewrite !sub_of_int by lia. rewrite Z.sub_diag. reflexivity. }
  destruct (axis_directions (tx - ox) ltac:(lia) ltac:(lia)) as (H32 & H1 & _).
  rewrite Z.sgn_pos in H32, H1 by lia. change (32 * 1) with 32 in H32.
  destruct (along_axis ox ltac:(lia)) as [Hax Htx].
  pose proof (across_axis oy ltac:(lia)) as Hay.
  destruct (rem_cell ox ltac:(lia)) as [_ Hk].
  destruct (distance_facts (ox - Z.rem ox 32 + 32 - ox) ltac:(lia)) as (Hinf & _).
  unfold setup. cbv zeta. rewrite Hcs, Hd, Hp, H32, H1. cbn [Vector2d.x Vector2d.y].
  rewrite (to_int_of_int cv ox), (to_int_of_int cv oy) by lia. cbn [bind].
  rewrite !int_rem_32. cbn [bind].
  replace (compute_ray_step_size 32 (Vector2d.mk (F32.of_int 32) zero))
    with (Vector2d.mk (F32.of_int 32) infinity) by (vm_compute; reflexivity).
  cbn [Vector2d.x Vector2d.y]. rewrite Hax, Hay. cbn [fst snd SDL_FPoint.x SDL_FPoint.y].
  unfold initial_map_x, to_int. rewrite Htx. cbn [bind].
  replace (F32.gtb (F32.of_int 32) (F32.of_int 0)) with true by (vm_compute; reflexivity).
  unfold initial_map_y. rewrite Hinf.
  replace (F32.ltb zero (F32.of_int 0)) with false by (vm_compute; reflexivity).
  rewrite andb_false_r. cbn [bind].
  replace (ox - Z.rem ox 32 + 32 - 32) with (ox - Z.rem ox 32) by lia.
  reflexivity.
Qed.

Lemma check_cell_wall (t : Traversal) (b : list Cell) (i : Z) (w : Cell) :
  cell_index 32 30 (map_check t) = i -> 0 <= i ->
  b !! Z.to_nat i = Some w -> is_wall_ w = true ->
  check_cell 32 30 t b
  = (mkTraversal (map_check t) (ray_length t) (distance t) true,
     <[Z.to_nat i := highlight w]> b).
Proof.
  intros Hi H0 Hw Hwall. unfold check_cell. cbv zeta. rewrite Hi.
  assert (Hl : (Z.to_nat i < length b)%nat) by (eapply lookup_lt_Some; eassumption).
  replace ((0 <=? i) && (i <? Z.of_nat (length b))) with true
    by (symmetry; apply andb_true_intro; split; [apply Z.leb_le | apply Z.ltb_lt]; lia).
  rewrite Hw, Hwall. reflexivity.
Qed.

Lemma check_cell_open (t : Traversal) (b : list Cell) :
  (forall c, 0 <= cell_index 32 30 (map_check t) ->
             b !! Z.to_nat (cell_index 32 30 (map_check t)) = Some c -> is_wall_ c = false) ->
  check_cell 32 30 t b = (t, b).
Proof.
  intros H. unfold check_cell. cbv zeta.
  destruct ((0 <=? cell_index 32 30 (map_check t))
            && (cell_index 32 30 (map_check t) <? Z.of_nat (length b))) eqn:Hr; [|reflexivity].
  apply andb_prop in Hr as [H0 _]. apply Z.leb_le in H0.
  destruct (b !! Z.to_nat (cell_index 32 30 (map_check t))) as [c|] eqn:Hc; [|reflexivity].
  rewrite (H c H0 eq_refl). reflexivity.
Qed.

(** The passes of the loop for a ray along the x axis toward larger x,
    from the cell of column [m] to the first wall of the row, in column
    [c]. *)
Lemma rightward_passes (start : Vector2d float) (ox row c : Z) (w : Cell) (b : list Cell) :
  0 <= row -> c <= 29 ->
  b !! Z.to_nat (row * 30 + c) = Some w -> is_wall_ w = true ->
  forall (n : nat) (m : Z) (dist : float) (fuel : nat),
    0 <= m -> 0 <= ox < 32 * (m + 1) ->
    c = m + 1 + Z.of_nat n ->
    F32.ltb dist max_distance = true ->
    (forall k cell, m < k < c -> b !! Z.to_nat (row * 30 + k) = Some cell ->
                    is_wall_ cell = false) ->
    (n < fuel)%nat ->
    traverse fuel 32 30
      (mkRay start (Vector2d.mk (F32.of_int 32) zero) (Vector2d.mk (F32.of_int 1) zero)
             (Vector2d.mk (F32.of_int 32) infinity) (Vector2d.mk 32 32))
      (mkTraversal (Vector2d.mk (32 * m) (32 * row))
                   (Vector2d.mk (F32.of_int (32 * (m + 1) - ox)) infinity) dist false, b)
    = Ok (mkTraversal (Vector2d.mk (32 * c) (32 * row))
                      (Vector2d.mk (F32.of_int (32 * (c + 1) - ox)) infinity)
                      (F32.of_int (32 * c - ox)) true,
          <[Z.to_nat (row * 30 + c) := highlight w]> b).
Proof.
  intros Hrow Hc Hw Hwall.
  induction n as [|n IH]; intros m dist fuel Hm Hox Hcm Hdist Hopen Hfuel;
    (destruct fuel as [|fuel]; [lia|]); rewrite traverse_S; cbn [fst];
    unfold loop_test at 1; cbn [tile_found distance negb andb]; rewrite Hdist;
    unfold loop_body, advance; cbn [fst snd ray_length map_check Vector2d.x Vector2d.y
                                     ray_step_size step distance tile_found];
    destruct (distance_facts (32 * (m + 1) - ox) ltac:(lia)) as (Hinf & Hmax & _);
    rewrite Hinf, add_of_int by lia;
    replace (32 * (m + 1) - ox + 32) with (32 * (m + 1 + 1) - ox) by lia;
    replace (32 * m + 32) with (32 * (m + 1)) by lia.
  - replace (m + 1) with c in * by lia.
    rewrite (check_cell_wall _ b (row * 30 + c) w); try assumption; try nia.
    + apply traverse_stop. reflexivity.
    + unfold cell_index. cbn [map_check Vector2d.x Vector2d.y].
      rewrite !(Z.mul_comm 32), !Z.quot_mul by lia. reflexivity.
  - rewrite check_cell_open.
    + apply IH; try assumption; try lia.
      intros k cell Hk. apply Hopen. lia.
    + intros cell _. unfold cell_index. cbn [map_check Vector2d.x Vector2d.y].
      rewrite !(Z.mul_comm 32), !Z.quot_mul by lia. apply Hopen. lia.
Qed.

Lemma guard_table : forallb guard_ok (range 0 961) = true.
Proof. vm_compute. reflexivity. Qed.

(** A point with integer coordinates in the world passes the guards. *)
Lemma inside_world (px py : Z) :
  0 <= px <= 960 -> 0 <= py <= 640 ->
  out_of_world (Vector2d.mk (F32.of_int px) (F32.of_int py)) = false.
Proof.
  intros Hx Hy.
  pose proof (range_all _ _ _ guard_table px ltac:(lia)) as Hgx.
  pose proof (range_all _ _ _ guard_table py ltac:(lia)) as Hgy.
  unfold guard_ok in Hgx, Hgy.
  apply andb_prop in Hgx as [Hgx _]. apply andb_prop in Hgx as [Hx0 Hx1].
  apply andb_prop in Hgy as [Hgy Hy1]. apply andb_prop in Hgy as [Hy0 _].
  apply orb_prop in Hy1 as [Hy1 | Hy1]; [apply Z.ltb_lt in Hy1; lia|].
  apply negb_true_iff in Hx0, Hx1, Hy0, Hy1.
  unfold out_of_world. cbn [Vector2d.x Vector2d.y]. rewrite Hx0, Hx1, Hy0, Hy1. reflexivity.
Qed.

Lemma cell_corner (n : Z) : n - Z.rem n 32 = 32 * Z.quot n 32.
Proof. pose proof (Z.quot_rem' n 32). lia. Qed.

Lemma quot_range (n : Z) : 0 <= n -> 0 <= Z.quot n 32 /\ 32 * Z.quot n 32 <= n < 32 * (Z.quot n 32 + 1).
Proof.
  intros Hn. pose proof (Z.quot_rem' n 32). pose proof (Z.rem_bound_pos n 32 Hn ltac:(lia)).
  assert (0 <= Z.quot n 32) by (apply Z.quot_pos; lia). lia.
Qed.

(** The whole cast for a ray along the x axis toward larger x that
    meets a wall of its row. *)
Lemma cast_rightward (cv : conversion) (g : Game) (ox oy tx c : Z) (w : Cell) :
  cell_size_ g = 32 -> cells_width_ g = 30 ->
  player_pos g = Vector2d.mk (F32.of_int ox) (F32.of_int oy) ->
  mouse_pos g = Vector2d.mk (F32.of_int tx) (F32.of_int oy) ->
  0 <= ox < tx -> tx <= 960 -> 0 <= oy <= 640 ->
  Z.quot ox 32 < c <= 29 ->
  board_ g !! Z.to_nat (Z.quot oy 32 * 30 + c) = Some w -> is_wall_ w = true ->
  (forall k cell, Z.quot ox 32 < k < c ->
                  board_ g !! Z.to_nat (Z.quot oy 32 * 30 + k) = Some cell ->
                  is_wall_ cell = false) ->
  cast cv g
  = Ok (Some (mkRay (Vector2d.mk (F32.of_int ox) (F32.of_int oy))
                    (Vector2d.mk (F32.of_int 32) zero) (Vector2d.mk (F32.of_int 1) zero)
                    (Vector2d.mk (F32.of_int 32) infinity) (Vector2d.mk 32 32),
              mkTraversal (Vector2d.mk (32 * c) (32 * Z.quot oy 32))
                          (Vector2d.mk (F32.of_int (32 * (c + 1) - ox)) infinity)
                          (F32.of_int (32 * c - ox)) true,
              <[Z.to_nat (Z.quot oy 32 * 30 + c) := highlight w]> (board_ g))).
Proof.
  intros Hcs Hcw Hp Hm Hx Ht Hy Hc Hw Hwall Hopen.
  destruct (quot_range ox ltac:(lia)) as [Hq0 Hq]. destruct (quot_range oy ltac:(lia)) as [Hr0 _].
  unfold cast. rewrite Hp, Hm, !inside_world by lia.
  rewrite <- Hp. rewrite (setup_rightward cv g ox oy tx) by assumption.
  cbn [bind fst snd]. rewrite Hcs, Hcw, !cell_corner.
  replace (32 * Z.quot ox 32 + 32 - ox) with (32 * (Z.quot ox 32 + 1) - ox) by lia.
  rewrite (rightward_passes _ ox (Z.quot oy 32) c w (board_ g) Hr0 (proj2 Hc) Hw Hwall
             (Z.to_nat (c - Z.quot ox 32 - 1)) (Z.quot ox 32) (F32.of_int 0) traversal_fuel);
    try assumption; try lia.
  - rewrite Hp. reflexivity.
  - vm_compute. reflexivity.
  - unfold traversal_fuel. lia.
Qed.

Lemma first_border_range (n : Z) : 0 <= n -> 1 <= first_border n <= 32.
Proof.
  intros Hn. unfold first_border. pose proof (Z.rem_bound_pos n 32 Hn ltac:(lia)).
  destruct (Z.eqb_spec (Z.rem n 32) 0); lia.
Qed.

Lemma against_axis (n : Z) :
  0 <= n <= 960 ->
  axis_setup 32 (F32.of_int (-32)) (F32.of_int n) n (n - Z.rem n 32) (F32.of_int 32)
  = (-32, F32.of_int (first_border n))
  /\ F32.trunc (F32.add (F32.of_int n)
                  (F32.mul (F32.of_int (-1)) (F32.of_int (first_border n))))
     = Some (n - first_border n).
Proof.
  intros Hn. pose proof (range_all _ _ _ against_axis_table n ltac:(lia)) as H.
  unfold against_axis_ok in H. cbv zeta in H.
  apply andb_prop in H as [H Ht]. apply andb_prop in H as [Hs Hl].
  apply Z.eqb_eq in Hs. apply float_eqb_eq in Hl. split.
  - rewrite (surjective_pairing (axis_setup _ _ _ _ _ _)), Hs, Hl. reflexivity.
  - destruct (F32.trunc _) as [z|]; [|discriminate]. apply Z.eqb_eq in Ht. congruence.
Qed.

Lemma ltb_infinity (a : float) : F32.ltb infinity a = false.
Proof. destruct a as [[] | [] | | [] m e]; reflexivity. Qed.

(** The direction of a ray along the y axis, scaled to 32 and to 1, and
    the step sizes computed from it. *)
Lemma vertical_direction (g : Game) (ox oy ty : Z) :
  player_pos g = Vector2d.mk (F32.of_int ox) (F32.of_int oy) ->
  mouse_pos g = Vector2d.mk (F32.of_int ox) (F32.of_int ty) ->
  0 <= ox <= 960 -> 0 <= oy <= 640 -> 0 <= ty <= 640 -> oy <> ty ->
  exists s : Z,
    (s = 1 \/ s = -1)
    /\ Vector2d.SetLength (direction g) (F32.of_int 32)
       = Vector2d.mk zero (F32.of_int (32 * s))
    /\ Vector2d.SetLength (direction g) (F32.of_int 1) = Vector2d.mk zero (F32.of_int s)
    /\ compute_ray_step_size 32 (Vector2d.mk zero (F32.of_int (32 * s)))
       = Vector2d.mk infinity (F32.of_int 32).
Proof.
  intros Hp Hm Hx Hy Ht Hne.
  assert (Hd : direction g = Vector2d.mk zero (F32.of_int (ty - oy))).
  { unfold direction. rewrite Hp, Hm. cbn [Vector2d.x Vector2d.y].
    rewrite !sub_of_int by lia. rewrite Z.sub_diag. reflexivity. }
  destruct (axis_directions (ty - oy) ltac:(lia) ltac:(lia)) as (_ & _ & H32 & H1).
  exists (Z.sgn (ty - oy)). rewrite Hd, H32, H1.
  destruct (Z.lt_total oy ty) as [Hlt | [Heq | Hgt]]; [|contradiction|].
  - rewrite Z.sgn_pos by lia. repeat split; auto.
  - rewrite Z.sgn_neg by lia. repeat split; auto.
Qed.

(** For a ray along the y axis the conversion of a NaN decides: under
    the rules of the language [setup] is undefined. *)
Lemma setup_vertical_iso (g : Game) (ox oy ty : Z) :
  cell_size_ g = 32 ->
  player_pos g = Vector2d.mk (F32.of_int ox) (F32.of_int oy) ->
  mouse_pos g = Vector2d.mk (F32.of_int ox) (F32.of_int ty) ->
  0 <= ox <= 960 -> 0 <= oy <= 640 -> 0 <= ty <= 640 -> oy <> ty ->
  setup IsoCpp g = Undefined.
Proof.
  intros Hcs Hp Hm Hx Hy Ht Hne.
  destruct (vertical_direction g ox oy ty Hp Hm Hx Hy Ht Hne) as (s & Hs & H32 & H1 & Hstep).
  pose proof (across_axis ox ltac:(lia)) as Hax.
  unfold setup. cbv zeta. rewrite Hcs, H32, H1, Hstep, Hp. cbn [Vector2d.x Vector2d.y].
  rewrite (to_int_of_int IsoCpp ox), (to_int_of_int IsoCpp oy) by lia. cbn [bind].
  rewrite !int_rem_32. cbn [bind].
  rewrite Hax. cbn [fst snd SDL_FPoint.x SDL_FPoint.y].
  replace (F32.mul zero infinity) with S754_nan by (vm_compute; reflexivity).
  rewrite add_nan_r. reflexivity.
Qed.

(** Where that conversion yields [INT_MIN], the loop starts with the x
    coordinate of its cell at [INT_MIN] and an infinite accumulator for
    the x axis. *)
Lemma setup_vertical_x86 (g : Game) (ox oy ty : Z) :
  cell_size_ g = 32 ->
  player_pos g = Vector2d.mk (F32.of_int ox) (F32.of_int oy) ->
  mouse_pos g = Vector2d.mk (F32.of_int ox) (F32.of_int ty) ->
  0 <= ox <= 960 -> 0 <= oy <= 640 -> 0 <= ty <= 640 -> oy <> ty ->
  exists (r : Ray) (t : Traversal),
    setup x86_64 g = Ok (r, t)
    /\ Vector2d.x (map_check t) = -2147483648
    /\ -32 <= Vector2d.y (map_check t) <= 960
    /\ Vector2d.x (ray_length t) = infinity
    /\ tile_found t = false
    /\ -32 <= Vector2d.y (step r) <= 32.
Proof.
  intros Hcs Hp Hm Hx Hy Ht Hne.
  destruct (vertical_direction g ox oy ty Hp Hm Hx Hy Ht Hne) as (s & Hs & H32 & H1 & Hstep).
  pose proof (across_axis ox ltac:(lia)) as Hax.
  destruct (rem_cell oy ltac:(lia)) as [Hcell _].
  unfold setup. cbv zeta. rewrite Hcs, H32, H1, Hstep, Hp. cbn [Vector2d.x Vector2d.y].
  rewrite (to_int_of_int x86_64 ox), (to_int_of_int x86_64 oy) by lia. cbn [bind].
  rewrite !int_rem_32. cbn [bind].
  rewrite Hax. cbn [fst snd SDL_FPoint.x SDL_FPoint.y].
  replace (F32.mul zero infinity) with S754_nan by (vm_compute; reflexivity).
  rewrite add_nan_r.
  replace (initial_map_x x86_64 32 zero S754_nan) with (@Ok Z (-2147483648))
    by (vm_compute; reflexivity).
  cbn [bind]. unfold initial_map_y. rewrite ltb_infinity.
  destruct Hs as [-> | ->].
  - replace (F32.ltb (F32.of_int (32 * 1)) (F32.of_int 0)) with false
      by (vm_compute; reflexivity).
    cbn [bind]. do 2 eexists. split; [reflexivity|].
    cbn [map_check ray_length tile_found step Vector2d.x Vector2d.y fst].
    repeat split; try lia.
    + unfold axis_setup. replace (F32.ltb (F32.of_int (32 * 1)) (F32.of_int 0)) with false
        by (vm_compute; reflexivity). cbn [fst]. lia.
    + unfold axis_setup. replace (F32.ltb (F32.of_int (32 * 1)) (F32.of_int 0)) with false
        by (vm_compute; reflexivity). cbn [fst]. lia.
  - replace (F32.ltb (F32.of_int (32 * -1)) (F32.of_int 0)) with true
      by (vm_compute; reflexivity).
    destruct (against_axis oy ltac:(lia)) as (Hay & Htr).
    pose proof (first_border_range oy ltac:(lia)) as Hfb.
    change (32 * -1) with (-32). rewrite Hay. cbn [fst snd].
    unfold to_int. rewrite Htr. cbn [bind].
    do 2 eexists. split; [reflexivity|].
    cbn [map_check ray_length tile_found step Vector2d.x Vector2d.y fst].
    repeat split; lia.
Qed.

(** With the x coordinate of the cell at [INT_MIN] every index the loop
    computes is below zero: it finds no wall and leaves the board. *)
Lemma vertical_passes (r : Ray) (b : list Cell) :
  -32 <= Vector2d.y (step r) <= 32 ->
  forall (fuel : nat) (t t' : Traversal) (b' : list Cell),
    Vector2d.x (map_check t) = -2147483648 ->
    Z.abs (Vector2d.y (map_check t)) + 32 * Z.of_nat fuel <= 30000 ->
    Vector2d.x (ray_length t) = infinity ->
    tile_found t = false ->
    traverse fuel 32 30 r (t, b) = Ok (t', b') ->
    tile_found t' = false /\ b' = b.
Proof.
  intros Hstep. induction fuel as [|fuel IH]; intros t t' b' Hmx Hmy Hl Hf;
    cbn [traverse fst]; destruct (loop_test t) eqn:Hlt; try discriminate;
    try (intros H; injection H as <- <-; auto).
  unfold loop_body. cbn [fst snd].
  assert (Ha : advance r t = advance_y r t).
  { unfold advance, advance_y. rewrite Hl, ltb_infinity. reflexivity. }
  rewrite Ha. rewrite check_cell_open.
  - apply IH; unfold advance_y; cbn [map_check ray_length tile_found Vector2d.x Vector2d.y];
      try assumption. lia.
  - intros c H0. exfalso. revert H0. unfold advance_y, cell_index.
    cbn [map_check Vector2d.x Vector2d.y]. rewrite Hmx.
    change (Z.quot (-2147483648) 32) with (-67108864).
    set (y := Vector2d.y (map_check t) + Vector2d.y (step r)).
    assert (Hq : Z.abs (Z.quot y 32) <= Z.abs y).
    { rewrite <- (Z.quot_abs y 32) by lia. change (Z.abs 32) with 32.
      apply Z.quot_le_upper_bound; lia. }
    unfold y in *. lia.
Qed.

Lemma first_left_corner (ox : Z) : 0 <= ox -> ox - first_border ox = 32 * first_left ox.
Proof.
  intros Hx. unfold first_left, first_border.
  pose proof (Z.quot_rem' ox 32) as Hq.
  destruct (Z.eqb_spec (Z.rem ox 32) 0) as [H0 | H0].
  - replace (ox - 32) with ((Z.quot ox 32 - 1) * 32) by lia.
    rewrite Z.quot_mul by lia. lia.
  - replace (ox - Z.rem ox 32) with (Z.quot ox 32 * 32) by lia.
    rewrite Z.quot_mul by lia. lia.
Qed.

(** What [setup] hands to the loop for a ray along the x axis toward
    smaller x. *)
Lemma setup_leftward (cv : conversion) (g : Game) (ox oy tx : Z) :
  cell_size_ g = 32 ->
  player_pos g = Vector2d.mk (F32.of_int ox) (F32.of_int oy) ->
  mouse_pos g = Vector2d.mk (F32.of_int tx) (F32.of_int oy) ->
  0 <= tx < ox -> ox <= 960 -> 0 <= oy <= 640 ->
  setup cv g
  = Ok (mkRay (Vector2d.mk (F32.of_int ox) (F32.of_int oy))
              (Vector2d.mk (F32.of_int (-32)) zero) (Vector2d.mk (F32.of_int (-1)) zero)
              (Vector2d.mk (F32.of_int 32) infinity) (Vector2d.mk (-32) 32),
        mkTraversal (Vector2d.mk (ox - first_border ox) (oy - Z.rem oy 32))
                    (Vector2d.mk (F32.of_int (first_border ox)) infinity)
                    (F32.of_int 0) false).
Proof.
  intros Hcs Hp Hm Hx Ht Hy.
  assert (Hd : direction g = Vector2d.mk (F32.of_int (tx - ox)) zero).
  { unfold direction. rewrite Hp, Hm. cbn [Vector2d.x Vector2d.y].
    rewrite !sub_of_int by lia. rewrite Z.sub_diag. reflexivity. }
  destruct (axis_directions (tx - ox) ltac:(lia) ltac:(lia)) as (H32 & H1 & _).
  rewrite Z.sgn_neg in H32, H1 by lia. change (32 * -1) with (-32) in H32.
  destruct (against_axis ox ltac:(lia)) as [Hax Htx].
  pose proof (across_axis oy ltac:(lia)) as Hay.
  pose proof (first_border_range ox ltac:(lia)) as Hk.
  destruct (distance_facts (first_border ox) ltac:(lia)) as (Hinf & _).
  unfold setup. cbv zeta. rewrite Hcs, Hd, Hp, H32, H1. cbn [Vector2d.x Vector2d.y].
  rewrite (to_int_of_int cv ox), (to_int_of_int cv oy) by lia. cbn [bind].
  rewrite !int_rem_32. cbn [bind].
  replace (compute_ray_step_size 32 (Vector2d.mk (F32.of_int (-32)) zero))
    with (Vector2d.mk (F32.of_int 32) infinity) by (vm_compute; reflexivity).
  cbn [Vector2d.x Vector2d.y]. rewrite Hax, Hay. cbn [fst snd SDL_FPoint.x SDL_FPoint.y].
  unfold initial_map_x, to_int. rewrite Htx. cbn [bind].
  replace (F32.gtb (F32.of_int (-32)) (F32.of_int 0)) with false by (vm_compute; reflexivity).
  unfold initial_map_y. rewrite Hinf.
  replace (F32.ltb zero (F32.of_int 0)) with false by (vm_compute; reflexivity).
  rewrite andb_false_r. reflexivity.
Qed.

(** The passes of the loop for a ray along the x axis toward smaller x,
    from the cell of column [m] to the first wall of the row, in column
    [c]. *)
Lemma leftward_passes (start : Vector2d float) (ox row c : Z) (w : Cell) (b : list Cell) :
  0 <= row -> 0 <= c -> ox <= 960 ->
  b !! Z.to_nat (row * 30 + c) = Some w -> is_wall_ w = true ->
  forall (n : nat) (m : Z) (dist : float) (fuel : nat),
    32 * m <= ox ->
    c = m - 1 - Z.of_nat n ->
    F32.ltb dist max_distance = true ->
    (forall k cell, c < k < m -> b !! Z.to_nat (row * 30 + k) = Some cell ->
                    is_wall_ cell = false) ->
    (n < fuel)%nat ->
    traverse fuel 32 30
      (mkRay start (Vector2d.mk (F32.of_int (-32)) zero) (Vector2d.mk (F32.of_int (-1)) zero)
             (Vector2d.mk (F32.of_int 32) infinity) (Vector2d.mk (-32) 32))
      (mkTraversal (Vector2d.mk (32 * m) (32 * row))
                   (Vector2d.mk (F32.of_int (ox - 32 * m)) infinity) dist false, b)
    = Ok (mkTraversal (Vector2d.mk (32 * c) (32 * row))
                      (Vector2d.mk (F32.of_int (ox - 32 * c)) infinity)
                      (F32.of_int (ox - 32 * (c + 1))) true,
          <[Z.to_nat (row * 30 + c) := highlight w]> b).
Proof.
  intros Hrow Hc Hox Hw Hwall.
  induction n as [|n IH]; intros m dist fuel Hm Hcm Hdist Hopen Hfuel;
    (destruct fuel as [|fuel]; [lia|]); rewrite traverse_S; cbn [fst];
    unfold loop_test at 1; cbn [tile_found distance negb andb]; rewrite Hdist;
    unfold loop_body, advance; cbn [fst snd ray_length map_check Vector2d.x Vector2d.y
                                     ray_step_size step distance tile_found];
    destruct (distance_facts (ox - 32 * m) ltac:(lia)) as (Hinf & Hmax & _);
    rewrite Hinf, add_of_int by lia;
    replace (ox - 32 * m + 32) with (ox - 32 * (m - 1)) by lia;
    replace (32 * m + -32) with (32 * (m - 1)) by lia.
  - assert (Hmc : m = c + 1) by lia. subst m. replace (c + 1 - 1) with c by lia.
    rewrite (check_cell_wall _ b (row * 30 + c) w); try assumption; try nia.
    + apply traverse_stop. reflexivity.
    + unfold cell_index. cbn [map_check Vector2d.x Vector2d.y].
      rewrite !(Z.mul_comm 32), !Z.quot_mul by lia. reflexivity.
  - rewrite check_cell_open.
    + apply IH; try assumption; try lia.
      intros k cell Hk. apply Hopen. lia.
    + intros cell _. unfold cell_index. cbn [map_check Vector2d.x Vector2d.y].
      rewrite !(Z.mul_comm 32), !Z.quot_mul by lia. apply Hopen. lia.
Qed.

Lemma cast_leftward (cv : conversion) (g : Game) (ox oy tx c : Z) (w : Cell) :
  cell_size_ g = 32 -> cells_width_ g = 30 ->
  player_pos g = Vector2d.mk (F32.of_int ox) (F32.of_int oy) ->
  mouse_pos g = Vector2d.mk (F32.of_int tx) (F32.of_int oy) ->
  0 <= tx < ox -> ox <= 960 -> 0 <= oy <= 640 ->
  0 <= c < first_left ox ->
  board_ g !! Z.to_nat (Z.quot oy 32 * 30 + c) = Some w -> is_wall_ w = true ->
  (forall k cell, c < k < first_left ox ->
                  board_ g !! Z.to_nat (Z.quot oy 32 * 30 + k) = Some cell ->
                  is_wall_ cell = false) ->
  cast cv g
  = Ok (Some (mkRay (Vector2d.mk (F32.of_int ox) (F32.of_int oy))
                    (Vector2d.mk (F32.of_int (-32)) zero) (Vector2d.mk (F32.of_int (-1)) zero)
                    (Vector2d.mk (F32.of_int 32) infinity) (Vector2d.mk (-32) 32),
              mkTraversal (Vector2d.mk (32 * c) (32 * Z.quot oy 32))
                          (Vector2d.mk (F32.of_int (ox - 32 * c)) infinity)
                          (F32.of_int (ox - 32 * (c + 1))) true,
              <[Z.to_nat (Z.quot oy 32 * 30 + c) := highlight w]> (board_ g))).
Proof.
  intros Hcs Hcw Hp Hm Hx Ht Hy Hc Hw Hwall Hopen.
  destruct (quot_range oy ltac:(lia)) as [Hr0 _].
  pose proof (first_left_corner ox ltac:(lia)) as Hfl.
  pose proof (first_border_range ox ltac:(lia)) as Hfb.
  unfold cast. rewrite Hp, Hm, !inside_world by lia.
  rewrite <- Hp. rewrite (setup_leftward cv g ox oy tx) by assumption.
  cbn [bind fst snd]. rewrite Hcs, Hcw, cell_corner, Hfl.
  replace (first_border ox) with (ox - 32 * first_left ox) by lia.
  rewrite (leftward_passes _ ox (Z.quot oy 32) c w (board_ g) Hr0 (proj1 Hc) Ht Hw Hwall
             (Z.to_nat (first_left ox - 1 - c)) (first_left ox) (F32.of_int 0)
             traversal_fuel);
    try assumption; try lia.
  - rewrite Hp. reflexivity.
  - vm_compute. reflexivity.
  - unfold traversal_fuel. lia.
Qed.

(** ** [Vector2d] *)

Lemma add_nonneg (a b : float) : nonneg a -> nonneg b -> nonneg (F32.add a b).
Proof.
  destruct a as [[] | [] | | [] ma ea], b as [[] | [] | | [] mb eb]; cbn [nonneg];
    intros Ha Hb; try contradiction; try exact I; try assumption.
  unfold F32.add, SFadd, cond_Zopp. cbv zeta.
  change (Zpos (fst (shl_align ma ea (Z.min ea eb)))
          + Zpos (fst (shl_align mb eb (Z.min ea eb))))
    with (Zpos (fst (shl_align ma ea (Z.min ea eb)) + fst (shl_align mb eb (Z.min ea eb)))).
  cbn [binary_normalize].
  pose proof (binary_round_shape false
                (fst (shl_align ma ea (Z.min ea eb)) + fst (shl_align mb eb (Z.min ea eb)))
                (Z.min ea eb)) as H.
  destruct (binary_round _ _ _ _ _) as [s | s | | s m e]; cbn [nonneg].
  - subst s. exact I.
  - subst s. exact I.
  - exact I.
  - destruct H as [-> H]. exact H.
Qed.

Lemma sqrt_nonneg (a : float) : nonneg a -> nonneg (F32.sqrt a).
Proof.
  destruct a as [[] | [] | | [] m e]; cbn [nonneg]; intros Ha; try contradiction;
    try exact I.
  unfold F32.sqrt, SFsqrt.
  assert (Hq : 0 <= fst (fst (SFsqrt_core_binary F32.prec F32.emax (Zpos m) e))).
  { unfold SFsqrt_core_binary. cbv zeta.
    match goal with |- context [Z.sqrtrem ?x] =>
      pose proof (Z.sqrtrem_sqrt x) as Hs; destruct (Z.sqrtrem x) as [q r] end.
    cbn [fst] in *. subst q. apply Z.sqrt_nonneg. }
  destruct (SFsqrt_core_binary F32.prec F32.emax (Zpos m) e) as [[mz ez] lz].
  cbn [fst] in Hq.
  pose proof (binary_round_aux_shape false mz ez lz Hq) as H.
  destruct (binary_round_aux _ _ _ _ _ _) as [s | s | | s m' e']; cbn [nonneg].
  - subst s. exact I.
  - subst s. exact I.
  - exact I.
  - destruct H as [-> H]. exact H.
Qed.

(** ** Ticks and the range of [int] *)

Lemma mouse_buttons_box (e : SDL_Event) (g g' : Game) :
  mouse_buttons e g = Ok g' -> box_ (player_ g') = box_ (player_ g).
Proof.
  destruct e as [| [] | [] | | k | k |]; cbn [mouse_buttons]; intros H;
    try (injection H as <-; reflexivity).
  unfold right_button_down in H. cbv zeta in H.
  destruct (cursor_index _) as [i | |]; cbn [bind] in H; try discriminate.
  destruct (read_cell i _) as [c | |]; cbn [bind] in H; try discriminate.
  destruct (update_cell i toggle_wall _) as [b | |]; cbn [bind] in H; try discriminate.
  injection H as <-. reflexivity.
Qed.

Lemma mouse_motion_box (e : SDL_Event) (g g' : Game) :
  mouse_motion e g = Ok g' -> box_ (player_ g') = box_ (player_ g).
Proof.
  destruct e as [| b | b | | k | k |]; cbn [mouse_motion]; intros H;
    try (injection H as <-; reflexivity).
  cbv zeta in H. cbn [mouse_right_pressed_ set_mouse_box] in H.
  destruct (mouse_right_pressed_ g).
  - destruct (cursor_index _) as [i | |]; cbn [bind] in H; try discriminate.
    destruct (update_cell i _ _) as [b | |]; cbn [bind] in H; try discriminate.
    injection H as <-. reflexivity.
  - injection H as <-. reflexivity.
Qed.

Lemma keys_box (e : SDL_Event) (g : Game) : box_ (player_ (keys e g)) = box_ (player_ g).
Proof. destruct e as [| b | b | | [] | [] |]; reflexivity. Qed.

Lemma handle_event_box (e : SDL_Event) (g g' : Game) :
  handle_event e g = Ok g' -> box_ (player_ g') = box_ (player_ g).
Proof.
  unfold handle_event.
  destruct (mouse_buttons e g) as [g1 | |] eqn:H1; cbn [bind]; try discriminate.
  destruct (mouse_motion e g1) as [g2 | |] eqn:H2; cbn [bind]; try discriminate.
  intros H. injection H as <-.
  rewrite keys_box, (mouse_motion_box e g1 g2 H2). exact (mouse_buttons_box e g g1 H1).
Qed.

(** No event moves the player's box. *)
Lemma HandleEvents_box (q : list Polled) :
  forall g g', HandleEvents q g = Ok g' -> box_ (player_ g') = box_ (player_ g).
Proof.
  induction q as [|[e p] q IH]; intros g g'; cbn [HandleEvents event mouse_state].
  - intros H. injection H as <-. reflexivity.
  - destruct e as [| b | b | | k | k |];
      try (destruct (handle_event _ _) as [g1 | |] eqn:H1; cbn [bind]; try discriminate;
           intros H; apply IH in H; apply handle_event_box in H1;
           rewrite H, H1; reflexivity).
    intros H. injection H as <-. reflexivity.
Qed.

Lemma velocity_ok_abs (v : Z) : velocity_ok v -> Z.abs v <= speed.
Proof. unfold velocity_ok, speed. lia. Qed.

(** Ticks too few to carry the box out of the range of [int] carry it
    at most [speed] pixels each, and no sum wraps. *)
Lemma ticks_near (cv : conversion) (n : nat) (g g' : Game) (d : Z) :
  state_inv g -> near g d ->
  d + speed * Z.of_nat n <= int_max - constants.screen_width ->
  ticks cv n g = Ok g' ->
  near g' (d + speed * Z.of_nat n).
Proof.
  intros (_ & _ & Hvx & Hvy & _) [Hx Hy] Hd H.
  apply velocity_ok_abs in Hvx, Hvy. unfold near.
  change (SDL_Rect.x (box_ (player_ (Game_new true)))) with 315 in *.
  change (SDL_Rect.y (box_ (player_ (Game_new true)))) with 315 in *.
  change (int_max - constants.screen_width) with 2147482687 in Hd.
  change speed with 5 in *.
  apply ticks_player in H as [H _];
    [| unfold in_int, int_min, int_max; apply andb_true_iff; split; apply Z.leb_le; lia ..].
  rewrite H. cbn [box_ SDL_Rect.x SDL_Rect.y].
  rewrite !wrap_in_int
    by (unfold in_int, int_min, int_max; apply andb_true_iff; split; apply Z.leb_le; nia).
  split; nia.
Qed.

Lemma main_loop_near (cv : conversion) (frames : list Frame) :
  forall g drawn g' drawn' d,
    state_inv g -> near g d ->
    d + speed * Z.of_nat (ticks_due frames) <= int_max - constants.screen_width ->
    main_loop cv frames g drawn = Ok (g', drawn') ->
    near g' (d + speed * Z.of_nat (ticks_due frames)).
Proof.
  induction frames as [|f frames IH]; intros g drawn g' drawn' d Hi Hn Hd;
    cbn [main_loop ticks_due foldr] in *.
  - intros H. injection H as <- _. rewrite Z.mul_0_r, Z.add_0_r. exact Hn.
  - fold (ticks_due frames) in *.
    assert (Hmono : forall e, d <= e -> near g e) by (intros e He; unfold near in *; lia).
    destruct (running_ g).
    + destruct (HandleEvents (queue f) g) as [g1 | |] eqn:H1; cbn [bind]; try discriminate.
      destruct (ticks cv (due f) g1) as [g2 | |] eqn:H2; cbn [bind]; try discriminate.
      destruct (Render g2) as [dr | |]; cbn [bind]; try discriminate.
      intros H.
      assert (Hi1 : state_inv g1) by (eapply HandleEvents_inv; eassumption).
      assert (Hn1 : near g1 d)
        by (unfold near; rewrite (HandleEvents_box _ _ _ H1); exact Hn).
      assert (Hn2 : near g2 (d + speed * Z.of_nat (due f)))
        by (apply (ticks_near cv (due f) g1 g2 d Hi1 Hn1); [unfold speed in *; lia | exact H2]).
      assert (Hi2 : state_inv g2) by (eapply ticks_inv; eassumption).
      apply (IH g2 _ g' drawn' _ Hi2 Hn2) in H; [|unfold speed in *; lia].
      replace (d + speed * Z.of_nat (due f + ticks_due frames))
        with (d + speed * Z.of_nat (due f) + speed * Z.of_nat (ticks_due frames))
        by (unfold speed; lia).
      exact H.
    + intros H. injection H as <- _. apply Hmono. unfold speed. lia.
Qed.

(** A [Tick] on the edge of the range: the sum 2147483645 + 5 is
    undefined by the rules of the language and -2147483646 on x86-64. *)
Lemma Tick_on_the_edge :
  Tick IsoCpp scenario_edge = Undefined
  /\ Tick x86_64 scenario_edge
     = Ok (set_player scenario_edge
             (mkPlayerBox (SDL_Rect.mk (-2147483646) 315 10 10) speed 0)).
Proof. split; vm_compute; reflexivity. Qed.

(** ** Ticks and [running_] *)


(** * The direction of the ray and the sign of its steps *)

(** ** Rounding that stays finite *)






(** ** Values that are finite and at least 1 *)








(** ** A quotient that does not vanish *)




(** ** The rescaled direction *)








(** ** The step sizes and the steps of a cast *)




(** * Properties of the constructor, the events, the main loop and the renderer *)

(** X1. The constructor's [resize] and its two nested loops never index
    outside the vector, and they leave the board with the cell of grid
    position (x, y) at index [y * cells_width + x], its rectangle at
    [(x * cell_size, y * cell_size)] with both sides [cell_size], not a
    wall and not highlighted: the board [Game_new] starts from. *)
Theorem constructor_fills_board (cs w h : Z) :
  0 <= w -> 0 <= h -> construct_board cs w h = Ok (fresh_board cs w h).
Proof. apply construct_board_stored. Qed.

Lemma constructor_fills_board_witness :
  0 <= 30 /\ 0 <= 20 /\ construct_board 32 30 20 = Ok (board_ (Game_new true)).
Proof.
  split; [lia|]. split; [lia|]. apply (constructor_fills_board 32 30 20); lia.
Defined.

(** X2. On the constructor's board the flat index the program computes
    for a point of the board, [(y / cell_size) * cells_width + x / cell_size],
    is an index of the board, and the cell stored there is the one whose
    rectangle contains the point. *)
Theorem cell_under_point (cs w h px py : Z) :
  0 < cs -> 0 <= px < w * cs -> 0 <= py < h * cs ->
  0 <= cell_index cs w (Vector2d.mk px py) < Z.of_nat (length (fresh_board cs w h))
  /\ exists c,
       fresh_board cs w h !! Z.to_nat (cell_index cs w (Vector2d.mk px py)) = Some c
       /\ in_rect (rect_ c) px py.
Proof.
  intros Hcs Hx Hy. destruct (fresh_board_under cs w h px py Hcs Hx Hy) as [Hi Hc].
  split; [rewrite length_fresh_board; lia|].
  eexists. split; [exact Hc|]. unfold in_rect. cbn.
  destruct (quot_cell px cs w Hcs Hx) as [_ Hbx].
  destruct (quot_cell py cs h Hcs Hy) as [_ Hby]. lia.
Qed.

Lemma cell_under_point_witness :
  0 < 32 /\ 0 <= 333 < 30 * 32 /\ 0 <= 176 < 20 * 32
  /\ 0 <= cell_index 32 30 (Vector2d.mk 333 176)
       < Z.of_nat (length (board_ (Game_new true)))
  /\ exists c,
       board_ (Game_new true) !! Z.to_nat (cell_index 32 30 (Vector2d.mk 333 176)) = Some c
       /\ in_rect (rect_ c) 333 176.
Proof.
  split; [lia|]. split; [lia|]. split; [lia|].
  apply (cell_under_point 32 30 20 333 176); lia.
Defined.

(** X3. On the constructor's grid, a right button press with the cursor
    in the window toggles the wall flag of the cell whose rectangle
    contains the cursor, remembers the new flag in [setting_walls_], and
    changes no other cell. *)
Theorem right_click_toggles (g : Game) (p : SDL_Point.t) :
  grid_kept g -> in_window p ->
  exists (i : nat) (c : Cell),
    board_ g !! i = Some c
    /\ in_rect (rect_ c) (SDL_Point.x p) (SDL_Point.y p)
    /\ HandleEvents [right_down p] g
       = Ok (set_board
               (set_setting_walls
                  (set_mouse_right_pressed (set_mouse_position g p) true)
                  (negb (is_wall_ c)))
               (<[i := mkCell (rect_ c) (negb (is_wall_ c)) (highlighted_ c)]> (board_ g))).
Proof.
  intros Hg Hw. destruct (right_click g p Hg Hw) as (i & c & _ & Hc & _ & Hin & He).
  exists (Z.to_nat i), c. split; [assumption|]. split; [assumption|].
  cbn [HandleEvents right_down event mouse_state]. rewrite He. reflexivity.
Qed.

Lemma right_click_toggles_witness :
  grid_kept (Game_new true) /\ in_window (SDL_Point.mk 333 176)
  /\ exists (i : nat) (c : Cell),
       board_ (Game_new true) !! i = Some c
       /\ in_rect (rect_ c) 333 176
       /\ HandleEvents [right_down (SDL_Point.mk 333 176)] (Game_new true)
          = Ok (set_board
                  (set_setting_walls
                     (set_mouse_right_pressed
                        (set_mouse_position (Game_new true) (SDL_Point.mk 333 176)) true)
                     (negb (is_wall_ c)))
                  (<[i := mkCell (rect_ c) (negb (is_wall_ c)) (highlighted_ c)]>
                     (board_ (Game_new true)))).
Proof.
  assert (Hg : grid_kept (Game_new true)) by (repeat split; reflexivity).
  assert (Hw : in_window (SDL_Point.mk 333 176)) by (split; cbn; unfold constants.screen_width, constants.screen_height; lia).
  split; [exact Hg|]. split; [exact Hw|].
  exact (right_click_toggles (Game_new true) (SDL_Point.mk 333 176) Hg Hw).
Defined.

(** X4. The right button handler checks no bounds.  When the index it
    computes from the cursor position is not an index of the board, the
    press indexes the vector out of range, and so does a motion with the
    right button held: both are undefined behaviour.  Such positions
    exist; a cursor below the window is one. *)
Theorem wall_edit_unchecked (g : Game) (p : SDL_Point.t) :
  cell_size_ g <> 0 ->
  wall_at g p = None ->
  HandleEvents [right_down p] g = Undefined
  /\ (mouse_right_pressed_ g = true -> HandleEvents [motion p] g = Undefined).
Proof.
  intros Hcs Hat. unfold wall_at in Hat. cbv zeta in Hat.
  set (i := cell_index (cell_size_ g) (cells_width_ g)
              (Vector2d.mk (SDL_Point.x p) (SDL_Point.y p))) in *.
  assert (Hr : read_cell i (board_ g) = Undefined).
  { apply read_cell_outside. destruct (Z.leb_spec 0 i) as [Hi | Hi]; [|lia].
    right. destruct (board_ g !! Z.to_nat i) as [c|] eqn:Hc; [discriminate|].
    apply lookup_ge_None in Hc. lia. }
  split.
  - cbn [HandleEvents right_down event mouse_state]. unfold handle_event.
    cbn [mouse_buttons]. unfold right_button_down. cbv zeta.
    change (cursor_index (set_mouse_right_pressed (set_mouse_position g p) true))
      with (cursor_index (set_mouse_position g p)).
    rewrite cursor_index_cell_index by assumption. cbn [bind]. fold i.
    cbn [board_ set_mouse_right_pressed set_mouse_position]. rewrite Hr. reflexivity.
  - intros Hp. cbn [HandleEvents motion event mouse_state]. unfold handle_event.
    cbn [mouse_buttons mouse_motion bind]. cbv zeta.
    cbn [mouse_right_pressed_ set_mouse_box set_mouse_position]. rewrite Hp.
    match goal with |- context [cursor_index ?g1] =>
      change (cursor_index g1) with (cursor_index (set_mouse_position g p)) end.
    rewrite cursor_index_cell_index by assumption. cbn [bind]. fold i.
    unfold update_cell. cbn [board_ set_mouse_box set_mouse_position]. rewrite Hr. reflexivity.
Qed.

Lemma wall_edit_unchecked_witness :
  cell_size_ (Game_new true) <> 0
  /\ wall_at (Game_new true) (SDL_Point.mk 10 650) = None
  /\ HandleEvents [right_down (SDL_Point.mk 10 650)] (Game_new true) = Undefined
  /\ (mouse_right_pressed_ (Game_new true) = true ->
      HandleEvents [motion (SDL_Point.mk 10 650)] (Game_new true) = Undefined).
Proof.
  assert (Hcs : cell_size_ (Game_new true) <> 0) by (cbn; lia).
  assert (Hat : wall_at (Game_new true) (SDL_Point.mk 10 650) = None) by reflexivity.
  split; [exact Hcs|]. split; [exact Hat|].
  exact (wall_edit_unchecked (Game_new true) (SDL_Point.mk 10 650) Hcs Hat).
Defined.

(** X5. A drag with the right button paints: after a right button press
    and any number of motions, all with the cursor in the window, the
    cell under the press and the cell under every motion carry the same
    wall flag, the negation of what the pressed cell had; no cell under
    the drag is toggled back. *)
Theorem right_drag_paints (g : Game) (p0 : SDL_Point.t) (ps : list SDL_Point.t) :
  grid_kept g -> in_window p0 -> Forall in_window ps ->
  exists (g' : Game) (v : bool),
    wall_at g p0 = Some (negb v)
    /\ HandleEvents (right_down p0 :: (motion <$> ps)) g = Ok g'
    /\ setting_walls_ g' = v
    /\ Forall (fun p => wall_at g' p = Some v) (p0 :: ps).
Proof.
  intros Hg Hw0 Hws.
  destruct (right_click g p0 Hg Hw0) as (i & c & Hi & Hc & Hie & _ & He).
  set (g1 := set_board
               (set_setting_walls (set_mouse_right_pressed (set_mouse_position g p0) true)
                                  (negb (is_wall_ c)))
               (<[Z.to_nat i := toggle_wall c]> (board_ g))) in *.
  assert (Hg1 : grid_kept g1).
  { destruct Hg as (H1 & H2 & H3 & H4). repeat split; try assumption.
    cbn. rewrite list_fmap_insert. cbn [toggle_wall rect_].
    rewrite list_insert_id; [assumption|]. rewrite list_lookup_fmap, Hc. reflexivity. }
  assert (Hat1 : wall_at g1 p0 = Some (negb (is_wall_ c))).
  { eapply (wall_at_insert g g1 i c); try reflexivity; try assumption. left. congruence. }
  destruct (motions_paint ps g1 Hg1 eq_refl Hws) as (g' & H' & Hs' & Hall & Hkeep).
  change (setting_walls_ g1) with (negb (is_wall_ c)) in *.
  exists g', (negb (is_wall_ c)). split.
  { unfold wall_at. cbv zeta. rewrite <- Hie.
    replace (0 <=? i) with true by (symmetry; apply Z.leb_le; lia).
    rewrite Hc. cbn. rewrite negb_involutive. reflexivity. }
  split.
  { cbn [HandleEvents right_down event mouse_state]. rewrite He. cbn [bind]. exact H'. }
  split; [assumption|].
  apply Forall_cons. split; [auto | assumption].
Qed.

Lemma right_drag_paints_witness :
  grid_kept (Game_new true) /\ in_window (SDL_Point.mk 100 40)
  /\ Forall in_window [SDL_Point.mk 120 40; SDL_Point.mk 140 40; SDL_Point.mk 120 40]
  /\ exists (g' : Game) (v : bool),
       wall_at (Game_new true) (SDL_Point.mk 100 40) = Some (negb v)
       /\ HandleEvents
            (right_down (SDL_Point.mk 100 40)
             :: (motion <$> [SDL_Point.mk 120 40; SDL_Point.mk 140 40; SDL_Point.mk 120 40]))
            (Game_new true) = Ok g'
       /\ setting_walls_ g' = v
       /\ Forall (fun p => wall_at g' p = Some v)
            [SDL_Point.mk 100 40; SDL_Point.mk 120 40; SDL_Point.mk 140 40;
             SDL_Point.mk 120 40].
Proof.
  assert (Hg : grid_kept (Game_new true)) by (repeat split; reflexivity).
  assert (Hw : forall x y, 0 <= x < 960 -> 0 <= y < 640 -> in_window (SDL_Point.mk x y))
    by (intros x y Hx Hy; split; assumption).
  assert (H0 : in_window (SDL_Point.mk 100 40)) by (apply Hw; lia).
  assert (Hs : Forall in_window
                 [SDL_Point.mk 120 40; SDL_Point.mk 140 40; SDL_Point.mk 120 40])
    by (repeat (apply Forall_cons; split; [apply Hw; lia|]); apply Forall_nil_2).
  split; [exact Hg|]. split; [exact H0|]. split; [exact Hs|].
  exact (right_drag_paints (Game_new true) (SDL_Point.mk 100 40) _ Hg H0 Hs).
Defined.

(** X6. [SDL_QUIT] ends the polling: the events behind it in the queue
    are not read in this call, whatever they are, and [running_] is
    false when the call returns. *)
Theorem quit_discards_rest (q1 q2 : list Polled) (p : SDL_Point.t) (g : Game) :
  HandleEvents (q1 ++ mkPolled SDL_QUIT p :: q2) g
  = HandleEvents (q1 ++ [mkPolled SDL_QUIT p]) g
  /\ match HandleEvents (q1 ++ mkPolled SDL_QUIT p :: q2) g with
     | Ok g' => running_ g' = false
     | _ => True
     end.
Proof.
  destruct (HandleEvents_quit q1 p q2 g) as [He Hr]. split; [exact He|].
  rewrite He. destruct (HandleEvents (q1 ++ [mkPolled SDL_QUIT p]) g); auto.
Qed.

(** X7. Whatever the events and however many ticks are due, the main
    loop started on the constructor's state keeps the constructor's grid:
    cells of 32 pixels, 30 by 20 of them, every cell of the board with
    the rectangle the constructor gave it; and the player's box and the
    mouse box keep their size of 10 by 10. *)
Theorem run_keeps_grid (cv : conversion) (frames : list Frame) (i : bool) (g : Game)
    (drawn : list (list Draw)) :
  Run cv frames (Game_new i) = Ok (g, drawn) ->
  grid_kept g /\ length (board_ g) = 600%nat /\ boxes_kept g.
Proof.
  intros H. apply Run_inv in H as (Hg & Hb & _).
  split; [assumption|]. split; [apply grid_kept_length|]; assumption.
Qed.

Lemma run_keeps_grid_witness :
  Run x86_64 session (Game_new true) = Ok (fst session_end, snd session_end)
  /\ grid_kept (fst session_end) /\ length (board_ (fst session_end)) = 600%nat
  /\ boxes_kept (fst session_end).
Proof.
  assert (H : Run x86_64 session (Game_new true) = Ok (fst session_end, snd session_end))
    by (vm_compute; reflexivity).
  split; [exact H|].
  exact (run_keeps_grid x86_64 session true (fst session_end) (snd session_end) H).
Defined.

(** X8. In every state of a run each component of the player's velocity
    is -5, 0 or 5. *)
Theorem run_bounds_velocity (cv : conversion) (frames : list Frame) (i : bool) (g : Game)
    (drawn : list (list Draw)) :
  Run cv frames (Game_new i) = Ok (g, drawn) ->
  velocity_ok (vx_ (player_ g)) /\ velocity_ok (vy_ (player_ g)).
Proof. intros H. apply Run_inv in H as (_ & _ & Hx & Hy & _). auto. Qed.

Lemma run_bounds_velocity_witness :
  Run x86_64 session (Game_new true) = Ok (fst session_end, snd session_end)
  /\ velocity_ok (vx_ (player_ (fst session_end)))
  /\ velocity_ok (vy_ (player_ (fst session_end))).
Proof.
  assert (H : Run x86_64 session (Game_new true) = Ok (fst session_end, snd session_end))
    by (vm_compute; reflexivity).
  split; [exact H|].
  exact (run_bounds_velocity x86_64 session true (fst session_end) (snd session_end) H).
Defined.

(** X9. In every state of a run the line from the player to the cursor
    is drawn exactly while the left button is held, and the intersection
    marker is drawn only while it is held: with the button up the stored
    intersection is (-1, -1). *)
Theorem run_marker_needs_button (cv : conversion) (frames : list Frame) (i : bool)
    (g : Game) (drawn : list (list Draw)) :
  Run cv frames (Game_new i) = Ok (g, drawn) ->
  render_line_ g = mouse_left_pressed_ g
  /\ (mouse_left_pressed_ g = false ->
      dda_intersection_ g = no_intersection /\ marker_drawn g = false).
Proof.
  intros H. apply Run_inv in H as (_ & _ & _ & _ & Hl & Hm).
  split; [assumption|]. intros Hp. specialize (Hm Hp). split; [assumption|].
  unfold marker_drawn. rewrite Hm. vm_compute. reflexivity.
Qed.

Lemma run_marker_needs_button_witness :
  Run x86_64 session (Game_new true) = Ok (fst session_end, snd session_end)
  /\ render_line_ (fst session_end) = mouse_left_pressed_ (fst session_end)
  /\ (mouse_left_pressed_ (fst session_end) = false ->
      dda_intersection_ (fst session_end) = no_intersection
      /\ marker_drawn (fst session_end) = false).
Proof.
  assert (H : Run x86_64 session (Game_new true) = Ok (fst session_end, snd session_end))
    by (vm_compute; reflexivity).
  split; [exact H|].
  exact (run_marker_needs_button x86_64 session true (fst session_end) (snd session_end) H).
Defined.

(** X10. While the cursor positions reported to the main loop lie in the
    window and the ticks due are too few to carry the player's box out of
    the range of [int] (5 pixels a tick, together at most the largest
    [int] less the width of the window), a run from the constructor's
    state ends, and it is undefined only under the rules of the language:
    where the conversion of a float that has no [int] yields a fixed
    integer, as on x86-64, the run returns.  No event indexes outside the
    board, [RenderCells] reads no cell outside it, and every cast ends
    within the passes its loop is given.  The state the run returns has
    the box within 5 pixels a tick of where the constructor put it, so
    that no sum of [Tick] has left the range of [int]; as this holds of
    every list of frames, it holds of every state the run passes
    through. *)
Theorem run_defined_in_window (cv : conversion) (frames : list Frame) (i : bool) :
  cursor_in_window frames -> ticks_bounded frames ->
  ends cv (Run cv frames (Game_new i))
  /\ (forall v, exists r, Run (Indefinite v) frames (Game_new i) = Ok r)
  /\ (forall g drawn,
        Run cv frames (Game_new i) = Ok (g, drawn) ->
        near g (speed * Z.of_nat (ticks_due frames))
        /\ in_int (SDL_Rect.x (box_ (player_ g)) + vx_ (player_ g)) = true
        /\ in_int (SDL_Rect.y (box_ (player_ g)) + vy_ (player_ g)) = true).
Proof.
  intros Hw Hb.
  assert (He : forall cv', ends cv' (Run cv' frames (Game_new i))).
  { intros cv'. unfold Run. destruct i; cbn [negb initialized_ Game_new]; [|exact I].
    apply main_loop_ends; [|assumption]. apply set_running_inv, Game_new_inv. }
  split; [apply He|]. split.
  { intros v. specialize (He (Indefinite v)). unfold ends in He.
    destruct (Run (Indefinite v) frames (Game_new i)) as [r | |];
      [eauto | discriminate | tauto]. }
  intros g drawn H.
  assert (Hn : near g (speed * Z.of_nat (ticks_due frames))).
  { revert H. unfold Run. destruct i; cbn [negb initialized_ Game_new].
    - intros H.
      apply (main_loop_near cv frames _ _ _ _ 0) in H;
        [exact H | apply set_running_inv, Game_new_inv | split; cbn; lia | exact Hb].
    - intros H. injection H as <- _. split; cbn; unfold speed; lia. }
  split; [exact Hn|].
  apply Run_inv in H as (_ & _ & Hvx & Hvy & _).
  apply velocity_ok_abs in Hvx, Hvy. destruct Hn as [Hx Hy]. unfold ticks_bounded in Hb.
  change (SDL_Rect.x (box_ (player_ (Game_new true)))) with 315 in *.
  change (SDL_Rect.y (box_ (player_ (Game_new true)))) with 315 in *.
  change (int_max - constants.screen_width) with 2147482687 in Hb.
  change speed with 5 in *.
  split; unfold in_int, int_min, int_max; apply andb_true_iff; split; apply Z.leb_le; lia.
Qed.

Lemma run_defined_in_window_witness :
  cursor_in_window session /\ ticks_bounded session
  /\ ends IsoCpp (Run IsoCpp session (Game_new true))
  /\ (forall v, exists r, Run (Indefinite v) session (Game_new true) = Ok r)
  /\ (forall g drawn,
        Run IsoCpp session (Game_new true) = Ok (g, drawn) ->
        near g (speed * Z.of_nat (ticks_due session))
        /\ in_int (SDL_Rect.x (box_ (player_ g)) + vx_ (player_ g)) = true
        /\ in_int (SDL_Rect.y (box_ (player_ g)) + vy_ (player_ g)) = true).
Proof.
  assert (Hw : forall x y, 0 <= x < 960 -> 0 <= y < 640 -> in_window (SDL_Point.mk x y))
    by (intros x y Hx Hy; split; assumption).
  assert (H : cursor_in_window session)
    by (repeat (apply Forall_cons; split;
                [repeat (apply Forall_cons; split; [apply Hw; lia|]); apply Forall_nil_2|]);
        apply Forall_nil_2).
  assert (Hb : ticks_bounded session) by (vm_compute; discriminate).
  split; [exact H|]. split; [exact Hb|].
  exact (run_defined_in_window IsoCpp session true H Hb).
Defined.

(** X11. Nothing in the program clears a highlight: a cell that is
    highlighted stays highlighted through every event, tick and cast of
    a run, also when its wall is removed. *)
Theorem run_keeps_highlights (cv : conversion) (frames : list Frame) (g g' : Game)
    (drawn : list (list Draw)) :
  Run cv frames g = Ok (g', drawn) -> highlights_kept (board_ g) (board_ g').
Proof.
  unfold Run. destruct (negb (initialized_ g)).
  - intros H. injection H as <- _. apply highlights_kept_refl.
  - intros H. apply main_loop_highlights in H. exact H.
Qed.

Lemma run_keeps_highlights_witness :
  Run x86_64 session scenario_hit_again = Ok (fst session_replay, snd session_replay)
  /\ highlights_kept (board_ scenario_hit_again) (board_ (fst session_replay)).
Proof.
  assert (H : Run x86_64 session scenario_hit_again
              = Ok (fst session_replay, snd session_replay))
    by (vm_compute; reflexivity).
  split; [exact H|].
  exact (run_keeps_highlights x86_64 session scenario_hit_again (fst session_replay)
           (snd session_replay) H).
Defined.

(** X12. [RenderCells] reads the first [cells_width_ * cells_height_]
    cells of the board without a bounds check.  On a board that has them
    it fills, in board order, exactly the rectangles of the walls among
    them; on a shorter board it reads past the end, which is undefined
    behaviour. *)
Theorem RenderCells_fills_walls (g : Game) :
  match RenderCells g with
  | Ok d =>
      (Z.to_nat (cells_width_ g * cells_height_ g) <= length (board_ g))%nat
      /\ filled d
         = wall_rects (take (Z.to_nat (cells_width_ g * cells_height_ g)) (board_ g))
  | Undefined => (length (board_ g) < Z.to_nat (cells_width_ g * cells_height_ g))%nat
  | OutOfFuel => False
  end.
Proof.
  destruct (Nat.le_gt_cases (Z.to_nat (cells_width_ g * cells_height_ g))
                            (length (board_ g))) as [Hl | Hl].
  - rewrite RenderCells_calls by assumption. split; [assumption|]. apply filled_cell_calls.
  - unfold RenderCells, for_range. rewrite Z.sub_0_r.
    rewrite (render_cells_past (board_ g) _ 0%nat) by lia. assumption.
Qed.

(** X13. A cast is invisible in what [RenderGrid] and [RenderCells]
    draw: the highlight it sets is read by neither, so both make the
    same calls after [DigitalDifferentialAnalysis] as before it. *)
Theorem cast_not_rendered (cv : conversion) (g g' : Game) :
  DigitalDifferentialAnalysis cv g = Ok g' ->
  RenderGrid g' = RenderGrid g /\ RenderCells g' = RenderCells g.
Proof.
  intros H. apply DigitalDifferentialAnalysis_frame in H as [Hg Hb].
  split; [rewrite Hg; reflexivity|].
  destruct Hb as [Hb | (j & c & Hc & _ & Hb)].
  - rewrite Hg. unfold RenderCells. cbn [cells_width_ cells_height_ board_ set_result].
    rewrite Hb. reflexivity.
  - apply (RenderCells_highlight g g' j c); try assumption; rewrite Hg; reflexivity.
Qed.

Lemma cast_not_rendered_witness :
  DigitalDifferentialAnalysis x86_64 scenario_hit = Ok scenario_hit_again
  /\ RenderGrid scenario_hit_again = RenderGrid scenario_hit
  /\ RenderCells scenario_hit_again = RenderCells scenario_hit.
Proof.
  assert (H : DigitalDifferentialAnalysis x86_64 scenario_hit = Ok scenario_hit_again)
    by (vm_compute; reflexivity).
  split; [exact H|]. exact (cast_not_rendered x86_64 scenario_hit scenario_hit_again H).
Defined.

(** X14. After a mouse motion the target of the next cast is the cursor:
    the centre of the mouse box, from which [DigitalDifferentialAnalysis]
    takes the end of the ray, is the position the event was polled at
    (the box is 10 wide and high, and both coordinates are offset by
    half the width). *)
Theorem motion_aims_at_cursor (g g' : Game) (p : SDL_Point.t) :
  boxes_kept g -> HandleEvents [motion p] g = Ok g' ->
  mouse_pos g' = Vector2d.mk (F32.of_int (SDL_Point.x p)) (F32.of_int (SDL_Point.y p))
  /\ mouse_position_ g' = p.
Proof.
  intros (_ & _ & Hw & Hh). cbn [HandleEvents motion event mouse_state].
  unfold handle_event. cbn [mouse_buttons mouse_motion bind]. cbv zeta.
  cbn [mouse_right_pressed_ set_mouse_box set_mouse_position mouse_box_ mouse_position_].
  rewrite Hw, Hh.
  assert (Hx : forall a, a - Z.quot box_size 2 + Z.quot box_size 2 = a)
    by (intros a; change (Z.quot box_size 2) with 5; lia).
  destruct (mouse_right_pressed_ g).
  - destruct (cursor_index _) as [i | |]; cbn [bind]; try discriminate.
    destruct (update_cell i _ _) as [b | |]; cbn [bind]; try discriminate.
    intros H. injection H as <-. unfold mouse_pos. cbn. rewrite !Hx. auto.
  - cbn [bind]. intros H. injection H as <-. unfold mouse_pos. cbn. rewrite !Hx. auto.
Qed.

Lemma motion_aims_at_cursor_witness :
  boxes_kept (Game_new true)
  /\ HandleEvents [motion (SDL_Point.mk 700 40)] (Game_new true) = Ok aimed
  /\ mouse_pos aimed = Vector2d.mk (F32.of_int 700) (F32.of_int 40)
  /\ mouse_position_ aimed = SDL_Point.mk 700 40.
Proof.
  assert (Hb : boxes_kept (Game_new true)) by (repeat split; reflexivity).
  assert (H : HandleEvents [motion (SDL_Point.mk 700 40)] (Game_new true) = Ok aimed)
    by (vm_compute; reflexivity).
  split; [exact Hb|]. split; [exact H|].
  exact (motion_aims_at_cursor (Game_new true) aimed (SDL_Point.mk 700 40) Hb H).
Defined.

(** X15. Ticks move the player by its velocity and nothing stops it:
    after [n] ticks that return, the box stands [n] times the velocity
    further on [int], that is modulo 2^32, with its size and the
    velocity unchanged, whether or not casts ran and also when that
    takes it out of the window.  By the rules of the language the ticks
    return only if none of their sums has left the range of [int]. *)
Theorem ticks_move_player (cv : conversion) (n : nat) (g g' : Game) :
  in_int (SDL_Rect.x (box_ (player_ g))) = true ->
  in_int (SDL_Rect.y (box_ (player_ g))) = true ->
  ticks cv n g = Ok g' ->
  player_ g'
  = mkPlayerBox
      (SDL_Rect.mk (wrap (SDL_Rect.x (box_ (player_ g)) + Z.of_nat n * vx_ (player_ g)))
                   (wrap (SDL_Rect.y (box_ (player_ g)) + Z.of_nat n * vy_ (player_ g)))
                   (SDL_Rect.w (box_ (player_ g))) (SDL_Rect.h (box_ (player_ g))))
      (vx_ (player_ g)) (vy_ (player_ g))
  /\ (cv = IsoCpp ->
      forall k : nat, (k <= n)%nat ->
        in_int (SDL_Rect.x (box_ (player_ g)) + Z.of_nat k * vx_ (player_ g)) = true
        /\ in_int (SDL_Rect.y (box_ (player_ g)) + Z.of_nat k * vy_ (player_ g)) = true).
Proof. apply ticks_player. Qed.

Lemma ticks_move_player_witness :
  in_int (SDL_Rect.x (box_ (player_ scenario_walk))) = true
  /\ in_int (SDL_Rect.y (box_ (player_ scenario_walk))) = true
  /\ ticks x86_64 2 scenario_walk = Ok walk_2
  /\ player_ walk_2
     = mkPlayerBox
         (SDL_Rect.mk (wrap (SDL_Rect.x (box_ (player_ scenario_walk))
                             + Z.of_nat 2 * vx_ (player_ scenario_walk)))
                      (wrap (SDL_Rect.y (box_ (player_ scenario_walk))
                             + Z.of_nat 2 * vy_ (player_ scenario_walk)))
                      (SDL_Rect.w (box_ (player_ scenario_walk)))
                      (SDL_Rect.h (box_ (player_ scenario_walk))))
         (vx_ (player_ scenario_walk)) (vy_ (player_ scenario_walk)).
Proof.
  assert (Hx : in_int (SDL_Rect.x (box_ (player_ scenario_walk))) = true) by reflexivity.
  assert (Hy : in_int (SDL_Rect.y (box_ (player_ scenario_walk))) = true) by reflexivity.
  assert (H : ticks x86_64 2 scenario_walk = Ok walk_2) by (vm_compute; reflexivity).
  split; [exact Hx|]. split; [exact Hy|]. split; [exact H|].
  destruct (ticks_move_player x86_64 2 scenario_walk walk_2 Hx Hy H) as [Q _]. exact Q.
Defined.

(** X16. A ray along the x axis toward larger x is cast correctly.  With
    origin (ox, oy) and target (tx, oy) in the world, ox < tx, and a
    wall in the origin's row to the right of the origin's cell, the cast
    reports a Hit on the first such wall cell: board index
    [row * 30 + c] for its column [c], the point [(32 * c, oy)] on the
    cell's left edge, and the distance [32 * c - ox], all three exact;
    that cell is highlighted and the point is stored.  This holds for
    every conversion policy, and also when the target lies before the
    wall. *)
Theorem rightward_ray_hits_first_wall (cv : conversion) (g : Game) (ox oy tx c : Z)
    (w : Cell) :
  cell_size_ g = 32 -> cells_width_ g = 30 ->
  player_pos g = Vector2d.mk (F32.of_int ox) (F32.of_int oy) ->
  mouse_pos g = Vector2d.mk (F32.of_int tx) (F32.of_int oy) ->
  0 <= ox < tx -> tx <= 960 -> 0 <= oy <= 640 ->
  Z.quot ox 32 < c <= 29 ->
  board_ g !! Z.to_nat (Z.quot oy 32 * 30 + c) = Some w -> is_wall_ w = true ->
  (forall k cell, Z.quot ox 32 < k < c ->
                  board_ g !! Z.to_nat (Z.quot oy 32 * 30 + k) = Some cell ->
                  is_wall_ cell = false) ->
  Cast cv g
  = Ok (Some (Hit (Z.quot oy 32 * 30 + c)
                  (SDL_FPoint.mk (F32.of_int (32 * c)) (F32.of_int oy))
                  (F32.of_int (32 * c - ox))))
  /\ DigitalDifferentialAnalysis cv g
     = Ok (set_result g (<[Z.to_nat (Z.quot oy 32 * 30 + c) := highlight w]> (board_ g))
                      (SDL_FPoint.mk (F32.of_int (32 * c)) (F32.of_int oy))).
Proof.
  intros Hcs Hcw Hp Hm Hx Ht Hy Hc Hw Hwall Hopen.
  pose proof (cast_rightward cv g ox oy tx c w Hcs Hcw Hp Hm Hx Ht Hy Hc Hw Hwall Hopen) as H.
  destruct (quot_range ox ltac:(lia)) as [Hq0 Hq].
  destruct (distance_facts (32 * c - ox) ltac:(lia)) as (_ & _ & H1 & H0 & _ & _).
  destruct (distance_facts oy ltac:(lia)) as (_ & _ & _ & _ & Hy0 & _).
  assert (Hpt : forall t b,
             intersection_point
               (mkRay (Vector2d.mk (F32.of_int ox) (F32.of_int oy))
                      (Vector2d.mk (F32.of_int 32) zero) (Vector2d.mk (F32.of_int 1) zero)
                      (Vector2d.mk (F32.of_int 32) infinity) (Vector2d.mk 32 32))
               (mkTraversal t b (F32.of_int (32 * c - ox)) true)
             = SDL_FPoint.mk (F32.of_int (32 * c)) (F32.of_int oy)).
  { intros t b. unfold intersection_point.
    cbn [tile_found ray_start unit_ray_dir distance Vector2d.x Vector2d.y].
    rewrite H1, H0, Hy0, add_of_int by lia. f_equal. f_equal. lia. }
  unfold Cast, DigitalDifferentialAnalysis. rewrite H. cbn [bind tile_found map_check distance].
  rewrite Hpt, Hcs, Hcw. split; [|reflexivity].
  unfold cell_index. cbn [Vector2d.x Vector2d.y].
  rewrite !(Z.mul_comm 32), !Z.quot_mul by lia. reflexivity.
Qed.

Lemma rightward_ray_hits_first_wall_witness :
  Cast IsoCpp scenario_hit
  = Ok (Some (Hit (Z.quot 176 32 * 30 + 10)
                  (SDL_FPoint.mk (F32.of_int (32 * 10)) (F32.of_int 176))
                  (F32.of_int (32 * 10 - 0))))
  /\ DigitalDifferentialAnalysis IsoCpp scenario_hit
     = Ok (set_result scenario_hit
             (<[Z.to_nat (Z.quot 176 32 * 30 + 10)
                := highlight (mkCell (SDL_Rect.mk 320 160 32 32) true false)]>
                (board_ scenario_hit))
             (SDL_FPoint.mk (F32.of_int (32 * 10)) (F32.of_int 176))).
Proof.
  apply (rightward_ray_hits_first_wall IsoCpp scenario_hit 0 176 640 10
           (mkCell (SDL_Rect.mk 320 160 32 32) true false)).
  - reflexivity.
  - reflexivity.
  - vm_compute. reflexivity.
  - vm_compute. reflexivity.
  - lia.
  - lia.
  - lia.
  - split; [vm_compute; reflexivity | lia].
  - vm_compute. reflexivity.
  - reflexivity.
  - intros k cell Hk.
    assert (Hk' : (k = 1 \/ k = 2 \/ k = 3 \/ k = 4 \/ k = 5 \/ k = 6 \/ k = 7 \/ k = 8
                   \/ k = 9)) by (change (Z.quot 0 32) with 0 in Hk; lia).
    destruct Hk' as [-> | [-> | [-> | [-> | [-> | [-> | [-> | [-> | ->]]]]]]]];
      vm_compute; intros H; injection H as <-; reflexivity.
Defined.

(** X17. A ray along the y axis never hits anything.  With origin and
    target in the world on one vertical line, the step along x is
    infinite and the first crossing computed for it is a NaN, which the
    routine converts to [int]: undefined behaviour by the rules of the
    language.  Where the conversion yields [INT_MIN], as on x86-64, the
    x coordinate of the cell under test stays at [INT_MIN], every index
    is below zero, and the cast is a Miss that leaves the board as it
    was, whatever walls stand on the line. *)
Theorem vertical_ray_never_hits (g : Game) (ox oy ty : Z) :
  cell_size_ g = 32 -> cells_width_ g = 30 ->
  player_pos g = Vector2d.mk (F32.of_int ox) (F32.of_int oy) ->
  mouse_pos g = Vector2d.mk (F32.of_int ox) (F32.of_int ty) ->
  0 <= ox <= 960 -> 0 <= oy <= 640 -> 0 <= ty <= 640 -> oy <> ty ->
  Cast IsoCpp g = Undefined
  /\ Cast x86_64 g = Ok (Some Miss)
  /\ DigitalDifferentialAnalysis x86_64 g = Ok (set_result g (board_ g) no_intersection).
Proof.
  intros Hcs Hcw Hp Hm Hx Hy Ht Hne.
  assert (Hgp : out_of_world (player_pos g) = false) by (rewrite Hp; apply inside_world; lia).
  assert (Hgm : out_of_world (mouse_pos g) = false) by (rewrite Hm; apply inside_world; lia).
  split.
  { unfold Cast, cast. rewrite Hgp, Hgm.
    rewrite (setup_vertical_iso g ox oy ty) by assumption. reflexivity. }
  destruct (setup_vertical_x86 g ox oy ty Hcs Hp Hm Hx Hy Ht Hne)
    as (r & t & Hs & Hmx & Hmy & Hl & Hf & Hstep).
  destruct (cast_indefinite (-2147483648) g Hcs) as [c Hc].
  fold x86_64 in Hc. unfold Cast, DigitalDifferentialAnalysis. rewrite Hc.
  unfold cast in Hc. rewrite Hgp, Hgm, Hs in Hc. cbn [bind fst snd] in Hc.
  rewrite Hcs, Hcw in Hc.
  destruct (traverse traversal_fuel 32 30 r (t, board_ g)) as [[t' b'] | |] eqn:Htr;
    cbn [bind] in Hc; try discriminate.
  injection Hc as <-. cbn [bind fst snd].
  destruct (vertical_passes r (board_ g) Hstep traversal_fuel t t' b' Hmx
              ltac:(unfold traversal_fuel; lia) Hl Hf Htr) as [Hf' ->].
  unfold intersection_point. rewrite Hf'. split; reflexivity.
Qed.

Lemma vertical_ray_never_hits_witness :
  Cast IsoCpp scenario_vertical = Undefined
  /\ Cast x86_64 scenario_vertical = Ok (Some Miss)
  /\ DigitalDifferentialAnalysis x86_64 scenario_vertical
     = Ok (set_result scenario_vertical (board_ scenario_vertical) no_intersection).
Proof.
  apply (vertical_ray_never_hits scenario_vertical 100 100 200).
  - reflexivity.
  - reflexivity.
  - vm_compute. reflexivity.
  - vm_compute. reflexivity.
  - lia.
  - lia.
  - lia.
  - lia.
Defined.

(** X18. A ray along the x axis toward smaller x.  With origin (ox, oy)
    and target (tx, oy) in the world, tx < ox, the cast reports a Hit on
    the first wall cell of the origin's row among the columns below
    [first_left ox]: board index [row * 30 + c], the point
    [(32 * (c + 1), oy)] on the cell's right edge and the distance
    [ox - 32 * (c + 1)], all exact.  [first_left ox] is the origin's
    column, and one less when ox is a multiple of 32: from an origin on
    the border between two cells the cell to its left is not tested. *)
Theorem leftward_ray_hits_first_wall (cv : conversion) (g : Game) (ox oy tx c : Z)
    (w : Cell) :
  cell_size_ g = 32 -> cells_width_ g = 30 ->
  player_pos g = Vector2d.mk (F32.of_int ox) (F32.of_int oy) ->
  mouse_pos g = Vector2d.mk (F32.of_int tx) (F32.of_int oy) ->
  0 <= tx < ox -> ox <= 960 -> 0 <= oy <= 640 ->
  0 <= c < first_left ox ->
  board_ g !! Z.to_nat (Z.quot oy 32 * 30 + c) = Some w -> is_wall_ w = true ->
  (forall k cell, c < k < first_left ox ->
                  board_ g !! Z.to_nat (Z.quot oy 32 * 30 + k) = Some cell ->
                  is_wall_ cell = false) ->
  first_left ox = (if Z.rem ox 32 =? 0 then Z.quot ox 32 - 1 else Z.quot ox 32)
  /\ Cast cv g
     = Ok (Some (Hit (Z.quot oy 32 * 30 + c)
                     (SDL_FPoint.mk (F32.of_int (32 * (c + 1))) (F32.of_int oy))
                     (F32.of_int (ox - 32 * (c + 1)))))
  /\ DigitalDifferentialAnalysis cv g
     = Ok (set_result g (<[Z.to_nat (Z.quot oy 32 * 30 + c) := highlight w]> (board_ g))
                      (SDL_FPoint.mk (F32.of_int (32 * (c + 1))) (F32.of_int oy))).
Proof.
  intros Hcs Hcw Hp Hm Hx Ht Hy Hc Hw Hwall Hopen.
  pose proof (cast_leftward cv g ox oy tx c w Hcs Hcw Hp Hm Hx Ht Hy Hc Hw Hwall Hopen) as H.
  pose proof (first_left_corner ox ltac:(lia)) as Hfl.
  pose proof (first_border_range ox ltac:(lia)) as Hfb.
  split.
  { pose proof (Z.quot_rem' ox 32) as Hq. unfold first_border in Hfl.
    destruct (Z.eqb_spec (Z.rem ox 32) 0); lia. }
  destruct (distance_facts (ox - 32 * (c + 1)) ltac:(lia)) as (_ & _ & _ & H0 & _ & H1).
  destruct (distance_facts oy ltac:(lia)) as (_ & _ & _ & _ & Hy0 & _).
  assert (Hpt : forall t b,
             intersection_point
               (mkRay (Vector2d.mk (F32.of_int ox) (F32.of_int oy))
                      (Vector2d.mk (F32.of_int (-32)) zero)
                      (Vector2d.mk (F32.of_int (-1)) zero)
                      (Vector2d.mk (F32.of_int 32) infinity) (Vector2d.mk (-32) 32))
               (mkTraversal t b (F32.of_int (ox - 32 * (c + 1))) true)
             = SDL_FPoint.mk (F32.of_int (32 * (c + 1))) (F32.of_int oy)).
  { intros t b. unfold intersection_point.
    cbn [tile_found ray_start unit_ray_dir distance Vector2d.x Vector2d.y].
    rewrite H1, H0, Hy0, add_of_int by lia. f_equal. f_equal. lia. }
  unfold Cast, DigitalDifferentialAnalysis. rewrite H. cbn [bind tile_found map_check distance].
  rewrite Hpt, Hcs, Hcw. split; [|reflexivity].
  unfold cell_index. cbn [Vector2d.x Vector2d.y].
  rewrite !(Z.mul_comm 32), !Z.quot_mul by lia. reflexivity.
Qed.

Lemma leftward_ray_hits_first_wall_witness :
  first_left 650 = (if Z.rem 650 32 =? 0 then Z.quot 650 32 - 1 else Z.quot 650 32)
  /\ Cast IsoCpp scenario_hit_back
     = Ok (Some (Hit (Z.quot 176 32 * 30 + 10)
                     (SDL_FPoint.mk (F32.of_int (32 * (10 + 1))) (F32.of_int 176))
                     (F32.of_int (650 - 32 * (10 + 1)))))
  /\ DigitalDifferentialAnalysis IsoCpp scenario_hit_back
     = Ok (set_result scenario_hit_back
             (<[Z.to_nat (Z.quot 176 32 * 30 + 10)
                := highlight (mkCell (SDL_Rect.mk 320 160 32 32) true false)]>
                (board_ scenario_hit_back))
             (SDL_FPoint.mk (F32.of_int (32 * (10 + 1))) (F32.of_int 176))).
Proof.
  apply (leftward_ray_hits_first_wall IsoCpp scenario_hit_back 650 176 0 10
           (mkCell (SDL_Rect.mk 320 160 32 32) true false)).
  - reflexivity.
  - reflexivity.
  - vm_compute. reflexivity.
  - vm_compute. reflexivity.
  - lia.
  - lia.
  - lia.
  - split; [lia | vm_compute; reflexivity].
  - vm_compute. reflexivity.
  - reflexivity.
  - intros k cell Hk. change (first_left 650) with 20 in Hk.
    assert (Hk' : (k = 11 \/ k = 12 \/ k = 13 \/ k = 14 \/ k = 15 \/ k = 16 \/ k = 17
                   \/ k = 18 \/ k = 19)) by lia.
    destruct Hk' as [-> | [-> | [-> | [-> | [-> | [-> | [-> | [-> | ->]]]]]]]];
      vm_compute; intros H; injection H as <-; reflexivity.
Defined.

(** X19. [Vector2d::GetLength] never returns a negative number or a
    negative zero, whatever the components are: its result is a NaN,
    +0, a positive finite value or +infinity. *)
Theorem GetLength_not_negative (v : Vector2d float) : nonneg (Vector2d.GetLength v).
Proof.
  unfold Vector2d.GetLength. apply sqrt_nonneg, add_nonneg; apply mul_self_nonneg.
Qed.

(** X20. For origin and target at integer positions in the world the
    direction of the ray is computed without rounding: its components
    are the differences of the coordinates. *)
Theorem direction_exact (g : Game) (ox oy tx ty : Z) :
  player_pos g = Vector2d.mk (F32.of_int ox) (F32.of_int oy) ->
  mouse_pos g = Vector2d.mk (F32.of_int tx) (F32.of_int ty) ->
  0 <= ox <= 960 -> 0 <= oy <= 640 -> 0 <= tx <= 960 -> 0 <= ty <= 640 ->
  direction g = Vector2d.mk (F32.of_int (tx - ox)) (F32.of_int (ty - oy)).
Proof.
  intros Hp Hm Hox Hoy Htx Hty.
  unfold direction. rewrite Hp, Hm. cbn [Vector2d.x Vector2d.y].
  rewrite !sub_of_int by lia. reflexivity.
Qed.

Lemma direction_exact_witness :
  direction scenario_steep = Vector2d.mk (F32.of_int (46 - 16)) (F32.of_int (352 - 16)).
Proof.
  apply (direction_exact scenario_steep 16 16 46 352).
  - vm_compute. reflexivity.
  - vm_compute. reflexivity.
  - lia.
  - lia.
  - lia.
  - lia.
Defined.

(** X21. On a vector along one axis whose length is an integer of at
    most 960, [Vector2d::SetLength] with the two lengths the cast asks
    for, 32 and 1, is exact: the component along the axis becomes the
    length with the sign it had, and the other component stays +0. *)
Theorem SetLength_on_axis (d : Z) :
  -960 <= d <= 960 -> d <> 0 ->
  Vector2d.SetLength (Vector2d.mk (F32.of_int d) zero) (F32.of_int 32)
  = Vector2d.mk (F32.of_int (32 * Z.sgn d)) zero
  /\ Vector2d.SetLength (Vector2d.mk (F32.of_int d) zero) (F32.of_int 1)
     = Vector2d.mk (F32.of_int (Z.sgn d)) zero
  /\ Vector2d.SetLength (Vector2d.mk zero (F32.of_int d)) (F32.of_int 32)
     = Vector2d.mk zero (F32.of_int (32 * Z.sgn d))
  /\ Vector2d.SetLength (Vector2d.mk zero (F32.of_int d)) (F32.of_int 1)
     = Vector2d.mk zero (F32.of_int (Z.sgn d)).
Proof. apply axis_directions. Qed.

Lemma SetLength_on_axis_witness :
  Vector2d.SetLength (Vector2d.mk (F32.of_int (-640)) zero) (F32.of_int 32)
  = Vector2d.mk (F32.of_int (32 * Z.sgn (-640))) zero
  /\ Vector2d.SetLength (Vector2d.mk (F32.of_int (-640)) zero) (F32.of_int 1)
     = Vector2d.mk (F32.of_int (Z.sgn (-640))) zero
  /\ Vector2d.SetLength (Vector2d.mk zero (F32.of_int (-640))) (F32.of_int 32)
     = Vector2d.mk zero (F32.of_int (32 * Z.sgn (-640)))
  /\ Vector2d.SetLength (Vector2d.mk zero (F32.of_int (-640))) (F32.of_int 1)
     = Vector2d.mk zero (F32.of_int (Z.sgn (-640))).
Proof. apply (SetLength_on_axis (-640)); lia. Defined.


